(** * The GIMP command bridge: dispatcher, listeners and connection managers

    A shallow embedding of the Python sources of the bridge:

    - [Plugin]: [gimp-mcp-plugin.py] (single read per connection, dispatcher
      with the [image_id] convention);
    - [ServerPlugin]: [gimp-mcp-server.py] (accumulating receiver, idle-queue
      dispatch);
    - [Controller]: [src/gimp_mcp/server.py], class [GimpConnection];
    - [ControllerV0]: [server.py], class [GimpConnection].

    Python values are an inductive type; the host application (the [Gimp]
    namespace reached through GObject introspection), the Python runtime
    services the code calls ([str] of a host object, [traceback.format_exc])
    and the [json] module are interfaces (type classes).  Effects are explicit:
    a state-and-exception monad over the host's world, the socket of the
    connection being served and a chronological log of the interactions. *)

From Stdlib Require Import ZArith List String Ascii Bool Lia.
From Stdlib Require Import DecimalString Floats.SpecFloat.
Import ListNotations.

Set Warnings "-register-all".
Local Open Scope list_scope.
Local Open Scope string_scope.

(** ** Python values *)

(** Keys of a [dict].  [json.loads] only produces string keys; an integer key
    appears when the dispatcher assigns [args[0]] on an [args] that is a JSON
    object. *)
Inductive key : Type :=
| KStr (s : string)
| KInt (n : Z).

(** Strings are byte strings holding UTF-8 text.  [VObj] is a handle on a
    host-side entity (module, class, function, GObject instance). *)
Inductive value : Type :=
| VNone
| VBool (b : bool)
| VInt (n : Z)
| VFloat (f : spec_float)
| VStr (s : string)
| VList (xs : list value)
| VDict (kv : list (key * value))
| VObj (o : N).

Inductive exn : Type :=
| AttributeError (owner : string) (name : string)
| IndexError (msg : string)
| KeyError (k : string)
| TypeError (msg : string)
| UnicodeDecodeError
| JSONDecodeError
| OSError (msg : string)
| ConnectionError (msg : string)
| Exception (msg : string)
| HostError (kind : string) (msg : string).

Inductive outcome (A : Type) : Type :=
| Ok (a : A)
| Raise (e : exn).

Arguments Ok {A} a.
Arguments Raise {A} e.

Definition key_eqb (a b : key) : bool :=
  match a, b with
  | KStr s, KStr t => String.eqb s t
  | KInt n, KInt m => Z.eqb n m
  | _, _ => false
  end.

Definition key_value (k : key) : value :=
  match k with
  | KStr s => VStr s
  | KInt n => VInt n
  end.

Fixpoint dict_get (k : key) (kv : list (key * value)) : option value :=
  match kv with
  | [] => None
  | (k', v) :: rest => if key_eqb k k' then Some v else dict_get k rest
  end.

Definition dict_has (k : key) (kv : list (key * value)) : bool :=
  existsb (fun p => key_eqb k (fst p)) kv.

Definition dict_del (k : key) (kv : list (key * value)) : list (key * value) :=
  filter (fun p => negb (key_eqb k (fst p))) kv.

Fixpoint dict_set (k : key) (v : value) (kv : list (key * value))
  : list (key * value) :=
  match kv with
  | [] => [(k, v)]
  | (k', v') :: rest =>
      if key_eqb k k' then (k', v) :: rest else (k', v') :: dict_set k v rest
  end.

(** Truth value of a Python object, as [if x:] and [not x] test it. *)
Definition truthy (v : value) : bool :=
  match v with
  | VNone => false
  | VBool b => b
  | VInt n => negb (Z.eqb n 0)
  | VFloat (S754_zero _) => false
  | VFloat _ => true
  | VStr s => negb (String.eqb s "")
  | VList xs => match xs with [] => false | _ => true end
  | VDict kv => match kv with [] => false | _ => true end
  | VObj _ => true
  end.

(** [type(v).__name__] for the built-in types. *)
Definition builtin_type_name (v : value) : string :=
  match v with
  | VNone => "NoneType"
  | VBool _ => "bool"
  | VInt _ => "int"
  | VFloat _ => "float"
  | VStr _ => "str"
  | VList _ => "list"
  | VDict _ => "dict"
  | VObj _ => "object"
  end.

Definition is_host (v : value) : bool :=
  match v with
  | VObj _ => true
  | _ => false
  end.

(** A value that [json.loads] can produce and [json.dumps] accepts: no host
    handle anywhere inside. *)
Fixpoint wire (v : value) : bool :=
  match v with
  | VList xs => forallb wire xs
  | VDict kv => forallb (fun p => wire (snd p)) kv
  | VObj _ => false
  | _ => true
  end.

(** [s.split(sep)] for a one-character separator: [n] separators give [n+1]
    pieces, empty pieces included. *)
Fixpoint split (sep : ascii) (s : string) : list string :=
  match s with
  | EmptyString => [EmptyString]
  | String c rest =>
      if Ascii.eqb c sep then EmptyString :: split sep rest
      else match split sep rest with
           | piece :: pieces => String c piece :: pieces
           | [] => [String c EmptyString]
           end
  end.

(** Iterating a [str] yields its characters; on UTF-8 text a character is a
    lead byte followed by its continuation bytes (10xxxxxx). *)
Definition is_continuation (c : ascii) : bool :=
  let n := N_of_ascii c in (128 <=? n)%N && (n <? 192)%N.

Fixpoint chars (s : string) : list string :=
  match s with
  | EmptyString => []
  | String c rest =>
      match chars rest with
      | next :: more =>
          match next with
          | String d _ =>
              if is_continuation d then String c next :: more
              else String c EmptyString :: next :: more
          | EmptyString => String c EmptyString :: more
          end
      | [] => [String c EmptyString]
      end
  end.

(** Strict UTF-8 well-formedness (the table of RFC 3629), which
    [bytes.decode('utf-8')] enforces. *)
Definition in_range (lo hi : N) (c : ascii) : bool :=
  let n := N_of_ascii c in (lo <=? n)%N && (n <=? hi)%N.

Fixpoint utf8_valid (s : string) : bool :=
  match s with
  | EmptyString => true
  | String a r1 =>
      if in_range 0 127 a then utf8_valid r1
      else
        match r1 with
        | EmptyString => false
        | String b r2 =>
            if in_range 194 223 a then in_range 128 191 b && utf8_valid r2
            else
              match r2 with
              | EmptyString => false
              | String c r3 =>
                  if in_range 224 239 a then
                    (if in_range 224 224 a then in_range 160 191 b
                     else if in_range 237 237 a then in_range 128 159 b
                     else in_range 128 191 b)
                    && in_range 128 191 c && utf8_valid r3
                  else
                    match r3 with
                    | EmptyString => false
                    | String d r4 =>
                        in_range 240 244 a
                        && (if in_range 240 240 a then in_range 144 191 b
                            else if in_range 244 244 a then in_range 128 143 b
                            else in_range 128 191 b)
                        && in_range 128 191 c && in_range 128 191 d
                        && utf8_valid r4
                    end
              end
        end
  end.

(** The bytes of several chunks, in order. *)
Definition join (chunks : list string) : string :=
  fold_right String.append "" chunks.

(** [buffer.decode('utf-8')]. *)
Definition decode_utf8 (buffer : string) : outcome string :=
  if utf8_valid buffer then Ok buffer else Raise UnicodeDecodeError.

(** [str(n)] for an [int]. *)
Definition str_int (n : Z) : string := NilZero.string_of_int (Z.to_int n).

(** [str(e)] for an exception. *)
Definition exn_str (e : exn) : string :=
  match e with
  | AttributeError owner name =>
      owner ++ " has no attribute '" ++ name ++ "'"
  | IndexError msg => msg
  | KeyError k => "'" ++ k ++ "'"
  | TypeError msg => msg
  | UnicodeDecodeError => "'utf-8' codec can't decode bytes"
  | JSONDecodeError => "Expecting value"
  | OSError msg => msg
  | ConnectionError msg => msg
  | Exception msg => msg
  | HostError _ msg => msg
  end.

(** What the bridge does to the host and to the socket, in the order it
    happens. *)
Inductive event : Type :=
| EvGetById (id : value)
| EvGetattr (v : value) (name : string)
| EvCall (f : value) (args : list value) (kwargs : list (string * value))
| EvGetId (obj : value)
| EvRecv (bufsize : N)
| EvSend (data : string)
| EvClose
| EvIdleAdd (command : value).

(** The request [{"type": "call_api", "params": {"api_path": ..., "args": ...,
    "kwargs": ...}}] that the controller's [call_api] sends. *)
Definition call_request (api_path : string) (args : value) (kwargs : value)
  : value :=
  VDict [(KStr "type", VStr "call_api");
         (KStr "params", VDict [(KStr "api_path", VStr api_path);
                                (KStr "args", args);
                                (KStr "kwargs", kwargs)])].

(** Is the event a call of a host function, a lookup by id, a socket
    operation? *)
Definition is_call (e : event) : bool :=
  match e with
  | EvCall _ _ _ => true
  | _ => false
  end.

(** A call whose keyword arguments do not include [image_id] (any event
    that is not a call qualifies). *)
Definition without_image_id (e : event) : bool :=
  match e with
  | EvCall _ _ kwargs =>
      negb (existsb (fun q => String.eqb "image_id" (fst q)) kwargs)
  | _ => true
  end.

Definition is_read (e : event) : bool :=
  match e with
  | EvGetattr _ _ | EvGetId _ => true
  | _ => false
  end.

Definition is_host_event (e : event) : bool :=
  match e with
  | EvGetById _ | EvGetattr _ _ | EvCall _ _ _ | EvGetId _ => true
  | _ => false
  end.

Definition is_send (e : event) : bool :=
  match e with
  | EvSend _ => true
  | _ => false
  end.

Definition is_recv (e : event) : bool :=
  match e with
  | EvRecv _ => true
  | _ => false
  end.

Definition is_idle_add (e : event) : bool :=
  match e with
  | EvIdleAdd _ => true
  | _ => false
  end.

(** ** Interfaces of the collaborators *)

(** The host application behind the [Gimp] namespace, and the services of the
    Python runtime on host objects.  Attribute reads and introspection observe
    the world; calls may change it. *)
Class Host (world : Type) : Type := {
  (** the module object bound to the name [Gimp] *)
  h_root : value;
  (** [getattr(v, name)], [None] when the attribute is undefined *)
  h_getattr : world -> value -> string -> option value;
  (** how an [AttributeError] describes the owner, e.g. ['Image' object] *)
  h_describe : world -> value -> string;
  (** [callable(v)] on a host object *)
  h_callable : world -> value -> bool;
  (** names of [inspect.signature(v).parameters], or the error it raises *)
  h_params : world -> value -> outcome (list string);
  (** [v( *args, **kwargs)] *)
  h_call : world -> value -> list value -> list (string * value)
           -> outcome value * world;
  (** [Gimp.Image.get_by_id(id)] *)
  h_get_by_id : world -> value -> outcome value * world;
  (** [Gimp.Image.get_id(obj)] *)
  h_get_id : world -> value -> outcome value * world;
  (** [obj.__class__.__name__] of a host object *)
  h_class_name : world -> value -> string;
  (** [str(v)] where the runtime or the host decides the text: floats,
      containers, host objects *)
  h_str : world -> value -> string;
  (** [traceback.format_exc()] while [e] is being handled *)
  h_traceback : exn -> string
}.

(** The [json] module.  [None] from [json_loads] is [json.JSONDecodeError];
    [None] from [json_dumps] is the [TypeError] for an object that is not
    serializable. *)
Class Codec : Type := {
  json_loads : string -> option value;
  json_dumps : value -> option string;
  json_dumps_wire : forall v, wire v = true -> json_dumps v <> None
}.

(** ** Interactions and the monad *)

(** What the peer of a connection delivers to successive [recv] calls; when
    the list is exhausted the peer has closed its side ([recv] returns
    [b'']). *)
Inductive delivery : Type :=
| Chunk (data : string)
| RecvFails (e : exn).

Record state (world : Type) : Type := mkState {
  st_world : world;
  (** the socket of the accepted connection *)
  st_inbox : list delivery;
  st_open : bool;
  st_peer_up : bool;
  (** chronological log *)
  st_log : list event
}.

Arguments mkState {world}.
Arguments st_world {world}.
Arguments st_inbox {world}.
Arguments st_open {world}.
Arguments st_peer_up {world}.
Arguments st_log {world}.

Definition M (world A : Type) : Type := state world -> outcome A * state world.

Definition ret {world A} (a : A) : M world A := fun s => (Ok a, s).

Definition bind {world A B} (m : M world A) (k : A -> M world B) : M world B :=
  fun s => match m s with
           | (Ok a, s') => k a s'
           | (Raise e, s') => (Raise e, s')
           end.

Definition raise {world A} (e : exn) : M world A := fun s => (Raise e, s).

(** [try: m  except Exception as e: handler(e)] *)
Definition try_except {world A} (m : M world A) (handler : exn -> M world A)
  : M world A :=
  fun s => match m s with
           | (Ok a, s') => (Ok a, s')
           | (Raise e, s') => handler e s'
           end.

Definition add_log {world} (s : state world) (evs : list event) : state world :=
  mkState (st_world s) (st_inbox s) (st_open s) (st_peer_up s)
          (st_log s ++ evs)%list.

Definition set_world {world} (s : state world) (w : world) : state world :=
  mkState w (st_inbox s) (st_open s) (st_peer_up s) (st_log s).

Definition emit {world} (e : event) : M world unit :=
  fun s => (Ok tt, add_log s [e]).

Definition read_world {world A} (f : world -> A) : M world A :=
  fun s => (Ok (f (st_world s)), s).

Definition host_step {world A} (f : world -> outcome A * world) : M world A :=
  fun s => (fst (f (st_world s)), set_world s (snd (f (st_world s)))).

Declare Scope py_scope.
Delimit Scope py_scope with py.
Notation "x <- m ;; k" := (bind m (fun x => k))
  (at level 61, m at next level, right associativity) : py_scope.
Notation "m ;; k" := (bind m (fun _ => k))
  (at level 61, right associativity) : py_scope.
Local Open Scope py_scope.

Fixpoint mapM {world A B} (f : A -> M world B) (xs : list A) : M world (list B) :=
  match xs with
  | [] => ret []
  | x :: rest => y <- f x ;; ys <- mapM f rest ;; ret (y :: ys)
  end.

(** [emits P m]: running [m] leaves the socket alone and only appends events
    satisfying [P] to the log. *)
Definition emits {world A} (P : event -> bool) (m : M world A) : Prop :=
  forall s, exists evs,
    st_inbox (snd (m s)) = st_inbox s /\
    st_open (snd (m s)) = st_open s /\
    st_peer_up (snd (m s)) = st_peer_up s /\
    st_log (snd (m s)) = (st_log s ++ evs)%list /\
    forallb P evs = true.

(** ** Dynamic operations of Python on request data *)

Section Runtime.
Context {world : Type} `{Host world}.

(** The base types expose no attribute named [id] or [ID]. *)
Definition lookup (w : world) (v : value) (name : string) : option value :=
  if negb (is_host v) && (String.eqb name "id" || String.eqb name "ID")
  then None
  else h_getattr w v name.

Definition describe (w : world) (v : value) : string :=
  match v with
  | VObj _ => h_describe w v
  | _ => "'" ++ builtin_type_name v ++ "' object"
  end.

(** [getattr(v, name)] *)
Definition getattr (v : value) (name : string) : M world value :=
  emit (EvGetattr v name) ;;
  r <- read_world (fun w => (lookup w v name, describe w v)) ;;
  match fst r with
  | Some x => ret x
  | None => raise (AttributeError (snd r) name)
  end.

(** [hasattr(v, name)] *)
Definition hasattr (v : value) (name : string) : M world bool :=
  read_world (fun w => match lookup w v name with
                       | Some _ => true
                       | None => false
                       end).

(** [callable(v)] *)
Definition callable (v : value) : M world bool :=
  read_world (fun w => is_host v && h_callable w v).

(** [v.__class__.__name__] *)
Definition class_name (v : value) : M world string :=
  read_world (fun w => match v with
                       | VObj _ => h_class_name w v
                       | _ => builtin_type_name v
                       end).

(** [str(v)] *)
Definition py_str (v : value) : M world string :=
  read_world (fun w => match v with
                       | VNone => "None"
                       | VBool true => "True"
                       | VBool false => "False"
                       | VInt n => str_int n
                       | VStr s => s
                       | _ => h_str w v
                       end).

(** [d.get(k, default)].  Request data comes out of [json.loads]; of the
    types it produces only [dict] has a [get]. *)
Definition py_get (d : value) (k : string) (default : value) : M world value :=
  match d with
  | VDict kv => ret (match dict_get (KStr k) kv with
                     | Some v => v
                     | None => default
                     end)
  | _ => w <- read_world (fun w => describe w d) ;;
         raise (AttributeError w "get")
  end.

(** [d[k]] on request data, [k] a string *)
Definition py_getitem (d : value) (k : string) : M world value :=
  match d with
  | VDict kv => match dict_get (KStr k) kv with
                | Some v => ret v
                | None => raise (KeyError k)
                end
  | VList _ => raise (TypeError
                        "list indices must be integers or slices, not str")
  | VStr _ => raise (TypeError "string indices must be integers, not 'str'")
  | _ => raise (TypeError ("'" ++ builtin_type_name d
                               ++ "' object is not subscriptable"))
  end.

(** [del d[k]] *)
Definition py_delitem (d : value) (k : string) : M world value :=
  match d with
  | VDict kv => if dict_has (KStr k) kv then ret (VDict (dict_del (KStr k) kv))
                else raise (KeyError k)
  | _ => raise (TypeError ("'" ++ builtin_type_name d
                               ++ "' object does not support item deletion"))
  end.

(** [s.split('.')] *)
Definition py_split (s : value) : M world (list string) :=
  match s with
  | VStr t => ret (split "." t)
  | _ => w <- read_world (fun w => describe w s) ;;
         raise (AttributeError w "split")
  end.

(** [a[0] = x] *)
Definition py_setitem0 (a : value) (x : value) : M world value :=
  match a with
  | VList [] => raise (IndexError "list assignment index out of range")
  | VList (_ :: rest) => ret (VList (x :: rest))
  | VDict kv => ret (VDict (dict_set (KInt 0) x kv))
  | _ => raise (TypeError ("'" ++ builtin_type_name a
                               ++ "' object does not support item assignment"))
  end.

(** the positional arguments of [f( *a)] *)
Definition py_star (a : value) : M world (list value) :=
  match a with
  | VList xs => ret xs
  | VStr s => ret (map VStr (chars s))
  | VDict kv => ret (map (fun p => key_value (fst p)) kv)
  | _ => raise (TypeError ("Value after * must be an iterable, not "
                             ++ builtin_type_name a))
  end.

(** the keyword arguments of [f( **d)] *)
Fixpoint keywords (kv : list (key * value)) : option (list (string * value)) :=
  match kv with
  | [] => Some []
  | (KStr k, v) :: rest =>
      match keywords rest with
      | Some ks => Some ((k, v) :: ks)
      | None => None
      end
  | (KInt _, _) :: _ => None
  end.

Definition py_dstar (d : value) : M world (list (string * value)) :=
  match d with
  | VDict kv => match keywords kv with
                | Some ks => ret ks
                | None => raise (TypeError "keywords must be strings")
                end
  | _ => raise (TypeError ("Value after ** must be a mapping, not "
                             ++ builtin_type_name d))
  end.

(** [f( *args, **kwargs)] on the host *)
Definition call (f : value) (args : list value) (kwargs : list (string * value))
  : M world value :=
  match f with
  | VObj _ => emit (EvCall f args kwargs) ;;
              host_step (fun w => h_call w f args kwargs)
  | _ => raise (TypeError ("'" ++ builtin_type_name f
                               ++ "' object is not callable"))
  end.

(** [inspect.signature(f).parameters], as the list of names *)
Definition signature (f : value) : M world (list string) :=
  r <- read_world (fun w => h_params w f) ;;
  match r with
  | Ok names => ret names
  | Raise e => raise e
  end.

(** [Gimp.Image.get_by_id(id)] *)
Definition get_by_id (id : value) : M world value :=
  emit (EvGetById id) ;;
  host_step (fun w => h_get_by_id w id).

(** [Gimp.Image.get_id(obj)] *)
Definition get_id (obj : value) : M world value :=
  emit (EvGetId obj) ;;
  host_step (fun w => h_get_id w obj).

(** The attribute walk [for part in parts: current = getattr(current, part)]. *)
Fixpoint walk (current : value) (parts : list string) : M world value :=
  match parts with
  | [] => ret current
  | part :: rest => next <- getattr current part ;; walk next rest
  end.

Definition name_in (name : string) (names : list string) : bool :=
  existsb (String.eqb name) names.

(** ** Socket primitives of the accepted connection *)

(** [client.recv(bufsize)]: at most [bufsize] bytes of the next delivery
    (what is left of it stays queued), [b''] once the peer is done. *)
Definition recv (bufsize : N) : M world string :=
  emit (EvRecv bufsize) ;;
  fun s =>
    if negb (st_open s) then (Raise (OSError "Bad file descriptor"), s)
    else match st_inbox s with
         | [] => (Ok "", s)
         | Chunk data :: rest =>
             let n := N.to_nat bufsize in
             let later :=
               if (String.length data <=? n)%nat then rest
               else Chunk (substring n (String.length data - n) data) :: rest in
             (Ok (substring 0 n data),
              mkState (st_world s) later (st_open s) (st_peer_up s) (st_log s))
         | RecvFails e :: rest =>
             (Raise e, mkState (st_world s) rest (st_open s) (st_peer_up s)
                                (st_log s))
         end.

(** [client.sendall(data)] *)
Definition sendall (data : string) : M world unit :=
  fun s =>
    if negb (st_open s) then (Raise (OSError "Bad file descriptor"), s)
    else if negb (st_peer_up s) then (Raise (OSError "Broken pipe"), s)
    else emit (EvSend data) s.

(** [client.close()] *)
Definition close : M world unit :=
  fun s => (Ok tt, mkState (st_world s) (st_inbox s) false (st_peer_up s)
                            (st_log s ++ [EvClose])%list).

(** ** The walk, as the specification words it

    Starting from a value, look up one segment after the other; the result
    is the value reached, or the owner and the name of the first segment
    whose lookup is undefined. *)
Fixpoint follow (w : world) (current : value) (parts : list string)
  : value + (value * string) :=
  match parts with
  | [] => inl current
  | part :: rest =>
      match lookup w current part with
      | Some next => follow w next rest
      | None => inr (current, part)
      end
  end.

(** The attribute reads the walk makes. *)
Fixpoint follow_log (w : world) (current : value) (parts : list string)
  : list event :=
  match parts with
  | [] => []
  | part :: rest =>
      EvGetattr current part ::
      match lookup w current part with
      | Some next => follow_log w next rest
      | None => []
      end
  end.

(** [json.loads(text)] *)
Definition loads `{Codec} (text : string) : M world value :=
  match json_loads text with
  | Some v => ret v
  | None => raise JSONDecodeError
  end.

(** [json.dumps(v)] *)
Definition dumps `{Codec} (v : value) : M world string :=
  match json_dumps v with
  | Some text => ret text
  | None => raise (TypeError "Object is not JSON serializable")
  end.

(** [try: m  except json.JSONDecodeError: handler] *)
Definition except_json {A} (m : M world A) (handler : M world A) : M world A :=
  fun s => match m s with
           | (Raise JSONDecodeError, s') => handler s'
           | r => r
           end.

(** [b.decode('utf-8')] *)
Definition decode (b : string) : M world string :=
  match decode_utf8 b with
  | Ok text => ret text
  | Raise e => raise e
  end.

End Runtime.

(** ** [gimp-mcp-plugin.py] *)

Module Plugin.
Section WithHost.
Context {world : Type} `{Host world} `{Codec}.

Definition success_response (result : value) : value :=
  VDict [(KStr "status", VStr "success"); (KStr "result", result)].

Definition error_response (e : exn) : value :=
  VDict [(KStr "status", VStr "error");
         (KStr "error", VStr (exn_str e));
         (KStr "traceback", VStr (h_traceback e))].

(** [MCPPlugin.serialize_gimp_object] *)
Definition serialize_gimp_object (obj : value) : M world value :=
  cls <- class_name obj ;;
  if String.eqb cls "Image" then
    id <- get_id obj ;;
    cls' <- class_name obj ;;
    ret (VDict [(KStr "id", id); (KStr "type", VStr cls')])
  else
    text <- py_str obj ;;
    ret (VStr text).

(** The [# Serialize result] block of [execute_command]. *)
Definition serialize_result (result : value) : M world value :=
  has_id <- hasattr result "id" ;;
  if has_id then
    id <- getattr result "id" ;;
    ret (VDict [(KStr "id", id)])
  else
    match result with
    | VList items => out <- mapM serialize_gimp_object items ;; ret (VList out)
    | _ => text <- py_str result ;; ret (VStr text)
    end.

(** The [# Get Gimp.Image if kwargs specifies it] block: the image and the
    [kwargs] the rest of the function sees. *)
Definition extract_image (kwargs : value) : M world (value * value) :=
  id <- py_get kwargs "image_id" VNone ;;
  if truthy id then
    id' <- py_get kwargs "image_id" VNone ;;
    image <- get_by_id id' ;;
    kwargs' <- py_delitem kwargs "image_id" ;;
    ret (image, kwargs')
  else ret (VNone, kwargs).

(** The [# Dynamically resolve the API method] block. *)
Definition resolve (api_path : value) : M world value :=
  parts <- py_split api_path ;;
  walk h_root (tl parts).

(** The [# Call the method] block. *)
Definition invoke (current image args kwargs : value) : M world value :=
  is_callable <- callable current ;;
  if is_callable then
    params <- signature current ;;
    args' <- (if name_in "image" params then py_setitem0 args image
              else ret args) ;;
    positional <- py_star args' ;;
    keyword <- py_dstar kwargs ;;
    call current positional keyword
  else ret current.

(** The body of the [try] of [execute_command]. *)
Definition execute_body (request : value) : M world value :=
  params <- py_get request "params" (VDict []) ;;
  api_path <- py_get params "api_path" (VStr "") ;;
  args <- py_get params "args" (VList []) ;;
  kwargs <- py_get params "kwargs" (VDict []) ;;
  old <- (if negb (truthy params) then
            api_path0 <- py_get request "api_path" (VStr "") ;;
            args0 <- py_get request "args" (VList []) ;;
            kwargs0 <- py_get request "kwargs" (VDict []) ;;
            ret (api_path0, args0, kwargs0)
          else ret (api_path, args, kwargs)) ;;
  let '(api_path, args, kwargs) := old in
  ik <- extract_image kwargs ;;
  let '(image, kwargs) := ik in
  current <- resolve api_path ;;
  result <- invoke current image args kwargs ;;
  result <- serialize_result result ;;
  ret (success_response result).

(** [MCPPlugin.execute_command] *)
Definition execute_command (request : value) : M world value :=
  try_except (execute_body request) (fun e => ret (error_response e)).

(** [MCPPlugin._handle_client] *)
Definition _handle_client : M world unit :=
  let buffer := "" in
  data <- recv 4096 ;;
  let buffer := buffer ++ data in
  text <- decode buffer ;;
  request <- loads text ;;
  response <- execute_command request ;;
  response_data <- dumps response ;;
  sendall response_data ;;
  close.

End WithHost.
End Plugin.

(** ** [gimp-mcp-server.py] *)

Module ServerPlugin.
Section WithHost.
Context {world : Type} `{Host world} `{Codec}.

(** [MCPPlugin.serialize_gimp_object] *)
Definition serialize_gimp_object (obj : value) : M world value :=
  has_id <- hasattr obj "ID" ;;
  if has_id then
    id <- getattr obj "ID" ;;
    cls <- class_name obj ;;
    ret (VDict [(KStr "id", id); (KStr "type", VStr cls)])
  else
    text <- py_str obj ;;
    ret (VStr text).

(** The [# Serialize result] block of [execute_command]. *)
Definition serialize_result (result : value) : M world value :=
  has_id <- hasattr result "ID" ;;
  if has_id then
    id <- getattr result "ID" ;;
    ret (VDict [(KStr "id", id)])
  else
    match result with
    | VList items => out <- mapM serialize_gimp_object items ;; ret (VList out)
    | _ => text <- py_str result ;; ret (VStr text)
    end.

(** The [# Dynamically resolve the API method] block. *)
Definition resolve (api_path : value) : M world value :=
  parts <- py_split api_path ;;
  walk h_root parts.

(** The branch [if cmd_type == "call_api":]. *)
Definition call_api (params : value) : M world value :=
  api_path <- py_getitem params "api_path" ;;
  args <- py_get params "args" (VList []) ;;
  kwargs <- py_get params "kwargs" (VDict []) ;;
  module <- resolve api_path ;;
  positional <- py_star args ;;
  keyword <- py_dstar kwargs ;;
  result <- call module positional keyword ;;
  result <- serialize_result result ;;
  ret (VDict [(KStr "status", VStr "success"); (KStr "result", result)]).

Definition is_call_api (cmd_type : value) : bool :=
  match cmd_type with
  | VStr t => String.eqb t "call_api"
  | _ => false
  end.

(** The response [execute_command] builds, up to its [client.sendall]. *)
Definition build_response (command : value) : M world value :=
  cmd_type <- py_get command "type" VNone ;;
  params <- py_get command "params" (VDict []) ;;
  try_except
    (if is_call_api cmd_type then call_api params
     else
       shown <- py_str cmd_type ;;
       ret (VDict [(KStr "status", VStr "error");
                   (KStr "message", VStr ("Unknown command: " ++ shown))]))
    (fun e => ret (VDict [(KStr "status", VStr "error");
                          (KStr "message", VStr (exn_str e));
                          (KStr "traceback", VStr (h_traceback e))])).

(** [MCPPlugin.execute_command], the callback run from the host's idle
    queue. *)
Definition execute_command (command : value) : M world unit :=
  response <- build_response command ;;
  data <- dumps response ;;
  sendall data.

(** [GLib.idle_add(self.execute_command, command, client)]: the callback is
    queued for the host's main loop; the receiving thread goes on. *)
Definition idle_add (command : value) : M world unit :=
  emit (EvIdleAdd command).

Inductive flow : Type :=
| Break
| Continue (buffer : string).

(** One turn of the [while True:] of [handle_client]. *)
Definition handle_turn (buffer : string) : M world flow :=
  try_except
    (data <- recv 1024 ;;
     if String.eqb data "" then ret Break
     else
       let buffer := buffer ++ data in
       except_json
         (text <- decode buffer ;;
          command <- loads text ;;
          let buffer := "" in
          idle_add command ;;
          ret (Continue buffer))
         (ret (Continue buffer)))
    (fun e => ret Break).

(** The loop, at most [fuel] turns; [false] when the turns ran out before
    a [break]. *)
Fixpoint handle_loop (fuel : nat) (buffer : string) : M world bool :=
  match fuel with
  | O => ret false
  | S fuel' =>
      step <- handle_turn buffer ;;
      match step with
      | Break => ret true
      | Continue buffer' => handle_loop fuel' buffer'
      end
  end.

(** Every turn that does not break consumes bytes of the inbox or a failing
    delivery, so this many turns are enough. *)
Fixpoint inbox_weight (inbox : list delivery) : nat :=
  match inbox with
  | [] => 0
  | Chunk data :: rest => S (String.length data) + inbox_weight rest
  | RecvFails _ :: rest => S (inbox_weight rest)
  end.

(** The chunks [chunks], read one per turn on top of [buffer], all leave an
    accumulated buffer that is UTF-8 text on which [json.loads] raises
    [JSONDecodeError]: partial data. *)
Fixpoint pending (buffer : string) (chunks : list string) : bool :=
  match chunks with
  | [] => true
  | chunk :: rest =>
      negb (String.eqb chunk "")
      && (String.length chunk <=? 1024)%nat
      && utf8_valid (buffer ++ chunk)
      && match json_loads (buffer ++ chunk) with
         | None => true
         | Some _ => false
         end
      && pending (buffer ++ chunk) rest
  end.

(** [MCPPlugin.handle_client]; the flag is [handle_loop]'s. *)
Definition handle_client : M world bool :=
  s <- (fun s => (Ok s, s)) ;;
  finished <- handle_loop (S (inbox_weight (st_inbox s))) "" ;;
  close ;;
  ret finished.

End WithHost.
End ServerPlugin.

(** ** The controller side: class [GimpConnection]

    State is passed explicitly: the object's [sock] attribute, the sockets the
    operating system will hand out next (each with what the network does on
    it), and a log of the socket calls made. *)

(** How a socket call fails: [socket.timeout], another [socket.error]
    (= [OSError]), or an exception outside that family. *)
Inductive net_error : Type :=
| NetTimeout
| NetError (msg : string)
| NetOther (msg : string).

Definition net_error_str (e : net_error) : string :=
  match e with
  | NetTimeout => "timed out"
  | NetError msg => msg
  | NetOther msg => msg
  end.

(** What a [recv] call on the socket returns or raises; once the list is
    exhausted the peer has closed the stream ([b'']). *)
Inductive received : Type :=
| Data (chunk : string)
| RecvError (e : net_error).

Record socket : Type := mkSocket {
  sk_id : nat;
  sk_connect : option net_error;
  sk_sendall : option net_error;
  sk_recv : list received
}.

Inductive call_event : Type :=
| CSocket (id : nat)
| CConnect (id : nat)
| CSendall (id : nat) (data : string)
| CRecv (id : nat)
| CShutdown (id : nat)
| CClose (id : nat).

Record GimpConnection : Type := mkConn {
  sock : option socket;
  supply : list socket;
  calls : list call_event
}.

(** The socket [socket.socket(...)] returns: the next of the supply; with the
    supply exhausted, one on which nothing answers. *)
Definition next_socket (c : GimpConnection) : socket * list socket :=
  match supply c with
  | sk :: rest => (sk, rest)
  | [] => (mkSocket (List.length (calls c))
                    (Some (NetError "Connection refused")) None [], [])
  end.

Definition logc (c : GimpConnection) (evs : list call_event) : GimpConnection :=
  mkConn (sock c) (supply c) (calls c ++ evs)%list.

Definition with_sock (c : GimpConnection) (sk : option socket) : GimpConnection :=
  mkConn sk (supply c) (calls c).

Module Controller.
Section WithCodec.
Context `{Codec}.

(** [GimpConnection._close_socket] *)
Definition _close_socket (c : GimpConnection) : GimpConnection :=
  match sock c with
  | Some sk => with_sock (logc c [CShutdown (sk_id sk); CClose (sk_id sk)]) None
  | None => c
  end.

(** [GimpConnection.connect] *)
Definition connect (c : GimpConnection) : outcome unit * GimpConnection :=
  match sock c with
  | Some _ => (Ok tt, c)
  | None =>
      let (sk, rest) := next_socket c in
      let c1 := mkConn (Some sk) rest
                       (calls c ++ [CSocket (sk_id sk); CConnect (sk_id sk)])%list in
      match sk_connect sk with
      | None => (Ok tt, c1)
      | Some NetTimeout =>
          (Raise (ConnectionError
             "Connection to GIMP timed out. Ensure the MCP Server plugin is running and responsive."),
           _close_socket c1)
      | Some (NetError msg) =>
          (Raise (ConnectionError
             ("Could not connect to GIMP. Ensure the MCP Server plugin is running. Error: " ++ msg)),
           _close_socket c1)
      | Some (NetOther msg) =>
          (Raise (ConnectionError
             ("An unexpected error occurred while connecting to GIMP: " ++ msg)),
           _close_socket c1)
      end
  end.

(** The [while True:] receive loop on socket [sk]: the accumulated bytes or
    the exception raised inside, with the [recv] calls made. *)
Fixpoint receive_all (id : nat) (script : list received) (response_data : string)
  : outcome string * list call_event :=
  match script with
  | [] => (Ok response_data, [CRecv id])
  | Data chunk :: rest =>
      if String.eqb chunk "" then (Ok response_data, [CRecv id])
      else let (r, evs) := receive_all id rest (response_data ++ chunk) in
           (r, CRecv id :: evs)
  | RecvError NetTimeout :: _ =>
      (Raise (Exception "Timeout receiving data from GIMP."), [CRecv id])
  | RecvError (NetError msg) :: _ =>
      (Raise (Exception ("Socket error receiving data from GIMP: " ++ msg)),
       [CRecv id])
  | RecvError (NetOther msg) :: _ =>
      (Raise (HostError "Exception" msg), [CRecv id])
  end.

(** [{"type": command_type, "params": params or {}}] *)
Definition command_of (command_type params : value) : value :=
  VDict [(KStr "type", command_type);
         (KStr "params", if truthy params then params else VDict [])].

(** The [try] body of [send_command] on the connected socket [sk]. *)
Definition exchange (sk : socket) (command : value)
  : outcome value * list call_event :=
  match json_dumps command with
  | None => (Raise (TypeError "Object is not JSON serializable"), [])
  | Some text =>
      match sk_sendall sk with
      | Some NetTimeout => (Raise (OSError "timed out"), [CSendall (sk_id sk) text])
      | Some (NetError msg) => (Raise (OSError msg), [CSendall (sk_id sk) text])
      | Some (NetOther msg) =>
          (Raise (HostError "Exception" msg), [CSendall (sk_id sk) text])
      | None =>
          let (r, evs) := receive_all (sk_id sk) (sk_recv sk) "" in
          let evs := CSendall (sk_id sk) text :: evs in
          match r with
          | Raise e => (Raise e, evs)
          | Ok response_data =>
              if String.eqb response_data "" then
                (Raise (Exception
                   "No response data from GIMP (connection closed)."), evs)
              else
                match decode_utf8 response_data with
                | Raise e => (Raise e, evs)
                | Ok text =>
                    match json_loads text with
                    | Some v => (Ok v, evs)
                    | None =>
                        (Raise (Exception
                           ("Invalid JSON response from GIMP: "
                              ++ exn_str JSONDecodeError)), evs)
                    end
                end
          end
      end
  end.

(** The [except] clauses of [send_command]. *)
Definition rewrap (e : exn) : exn :=
  match e with
  | OSError msg | ConnectionError msg =>
      Exception ("Socket error communicating with GIMP: " ++ msg)
  | _ => Exception ("Error communicating with GIMP: " ++ exn_str e)
  end.

(** [GimpConnection.send_command] *)
Definition send_command (c : GimpConnection) (command_type params : value)
  : outcome value * GimpConnection :=
  let (connected, c1) :=
    match sock c with
    | None => connect c
    | Some _ => (Ok tt, c)
    end in
  match connected with
  | Raise e => (Raise e, c1)
  | Ok _ =>
      match sock c1 with
      | None =>
          (Raise (rewrap (AttributeError "'NoneType' object" "sendall")),
           _close_socket c1)
      | Some sk =>
          let (r, evs) := exchange sk (command_of command_type params) in
          let c2 := _close_socket (logc c1 evs) in
          match r with
          | Ok v => (Ok v, c2)
          | Raise e => (Raise (rewrap e), c2)
          end
      end
  end.

End WithCodec.
End Controller.

(** [server.py]: the earlier [GimpConnection]. *)
Module ControllerV0.
Section WithCodec.
Context `{Codec}.

(** [GimpConnection.connect] *)
Definition connect (c : GimpConnection) : outcome unit * GimpConnection :=
  match sock c with
  | Some _ => (Ok tt, c)
  | None =>
      let (sk, rest) := next_socket c in
      let c1 := mkConn (Some sk) rest
                       (calls c ++ [CSocket (sk_id sk); CConnect (sk_id sk)])%list in
      match sk_connect sk with
      | None => (Ok tt, c1)
      | Some _ =>
          (Raise (ConnectionError
             "Could not connect to GIMP. Ensure the MCP Server plugin is running."),
           c1)
      end
  end.

(** The [try] body of [send_command] up to [self.sock = None]: one
    [recv(1024)]. *)
Definition exchange (sk : socket) (command : value)
  : outcome string * list call_event :=
  match json_dumps command with
  | None => (Raise (TypeError "Object is not JSON serializable"), [])
  | Some text =>
      match sk_sendall sk with
      | Some e => (Raise (OSError (net_error_str e)), [CSendall (sk_id sk) text])
      | None =>
          let evs := [CSendall (sk_id sk) text; CRecv (sk_id sk)] in
          match sk_recv sk with
          | [] => (Ok "", evs)
          | Data chunk :: _ => (Ok chunk, evs)
          | RecvError e :: _ => (Raise (OSError (net_error_str e)), evs)
          end
      end
  end.

(** [GimpConnection.send_command] *)
Definition send_command (c : GimpConnection) (command_type params : value)
  : outcome value * GimpConnection :=
  let (connected, c1) :=
    match sock c with
    | None => connect c
    | Some _ => (Ok tt, c)
    end in
  match connected with
  | Raise e => (Raise e, c1)
  | Ok _ =>
      let wrap e := Exception ("Error communicating with GIMP: " ++ exn_str e) in
      match sock c1 with
      | None =>
          (Raise (wrap (AttributeError "'NoneType' object" "sendall")), c1)
      | Some sk =>
          let (r, evs) :=
            exchange sk (Controller.command_of command_type params) in
          let c2 := with_sock (logc c1 evs) None in
          match r with
          | Raise e => (Raise (wrap e), c2)
          | Ok response =>
              match decode_utf8 response with
              | Raise e => (Raise (wrap e), c2)
              | Ok text =>
                  match json_loads text with
                  | Some v => (Ok v, c2)
                  | None => (Raise (wrap JSONDecodeError), c2)
                  end
              end
          end
      end
  end.

End WithCodec.
End ControllerV0.

(** ** A sample host and codec

    A small object graph in the shape of the host's namespace, used to run the
    dispatcher on concrete requests: the root [Gimp] with a [Widget] named
    Sprocket, the [Image] class with [get_by_id] and [get_width], an [echo]
    function, and image objects [VObj (100 + n)] whose [id] is [n]. *)

Module Sample.

Definition Gimp : value := VObj 0.
Definition Widget : value := VObj 1.
Definition Widget_get_name : value := VObj 2.
Definition Image : value := VObj 3.
Definition Image_get_by_id : value := VObj 4.
Definition Image_get_width : value := VObj 5.
Definition echo : value := VObj 6.
Definition image_of (n : Z) : value := VObj (100 + Z.to_N n).

Definition sample_getattr (_ : unit) (v : value) (name : string) : option value :=
  match v with
  | VObj 0 =>
      if String.eqb name "Widget" then Some Widget
      else if String.eqb name "Image" then Some Image
      else if String.eqb name "echo" then Some echo
      else if String.eqb name "version" then Some (VStr "3.0")
      else None
  | VObj 1 => if String.eqb name "get_name" then Some Widget_get_name else None
  | VObj 3 =>
      if String.eqb name "get_by_id" then Some Image_get_by_id
      else if String.eqb name "get_width" then Some Image_get_width
      else None
  | VObj o =>
      if (100 <=? o)%N then
        if String.eqb name "id" then Some (VInt (Z.of_N (o - 100)))
        else if String.eqb name "name" then Some (VStr "untitled")
        else if String.eqb name "width" then Some (VInt 640)
        else None
      else None
  | _ => None
  end.

Definition sample_describe (_ : unit) (v : value) : string :=
  match v with
  | VObj 0 => "'gi.repository.Gimp' object"
  | VObj 1 => "type object 'Widget'"
  | VObj 3 => "type object 'Image'"
  | VObj o => if (100 <=? o)%N then "'Image' object" else "'function' object"
  | _ => "object"
  end.

Definition sample_callable (_ : unit) (v : value) : bool :=
  match v with
  | VObj 2 | VObj 4 | VObj 5 | VObj 6 => true
  | _ => false
  end.

Definition sample_params (_ : unit) (v : value) : outcome (list string) :=
  match v with
  | VObj 2 => Ok []
  | VObj 4 => Ok ["image_id"]
  | VObj 5 => Ok ["image"]
  | VObj 6 => Ok ["kwargs"]
  | _ => Raise (TypeError "object is not a callable object")
  end.

Definition sample_get_by_id (_ : unit) (id : value) : outcome value * unit :=
  match id with
  | VInt n => if (0 <? n)%Z then (Ok (image_of n), tt) else (Ok VNone, tt)
  | _ => (Raise (TypeError "Must be number, not str"), tt)
  end.

Definition sample_call (_ : unit) (f : value) (args : list value)
  (kwargs : list (string * value)) : outcome value * unit :=
  match f, args with
  | VObj 2, [] => (Ok (VStr "Sprocket"), tt)
  | VObj 4, [id] => sample_get_by_id tt id
  | VObj 5, [VObj o] =>
      if (100 <=? o)%N then (Ok (VInt 640), tt)
      else (Raise (TypeError "argument self: Expected Gimp.Image"), tt)
  | VObj 6, [] => (Ok (VInt (Z.of_nat (List.length kwargs))), tt)
  | _, _ => (Raise (TypeError "wrong arguments"), tt)
  end.

Definition sample_get_id (_ : unit) (obj : value) : outcome value * unit :=
  match obj with
  | VObj o => if (100 <=? o)%N then (Ok (VInt (Z.of_N (o - 100))), tt)
              else (Raise (TypeError "argument image: Expected Gimp.Image"), tt)
  | _ => (Raise (TypeError "argument image: Expected Gimp.Image"), tt)
  end.

Definition sample_class_name (_ : unit) (v : value) : string :=
  match v with
  | VObj o => if (100 <=? o)%N then "Image" else "function"
  | _ => "object"
  end.

Definition sample_str (_ : unit) (v : value) : string :=
  match v with
  | VObj o => if (100 <=? o)%N then "<Gimp.Image object>" else "<function>"
  | VFloat _ => "3.14"
  | VList _ => "[...]"
  | VDict _ => "{...}"
  | _ => ""
  end.

#[export] Instance host : Host unit := {
  h_root := Gimp;
  h_getattr := sample_getattr;
  h_describe := sample_describe;
  h_callable := sample_callable;
  h_params := sample_params;
  h_call := sample_call;
  h_get_by_id := sample_get_by_id;
  h_get_id := sample_get_id;
  h_class_name := sample_class_name;
  h_str := sample_str;
  h_traceback := fun e => "Traceback (most recent call last): " ++ exn_str e
}.

(** A printer of JSON text without string escapes, and a reader that knows
    the texts of a table of messages. *)
Definition dquote : string := String (ascii_of_N 34) "".

Definition quote (s : string) : string := dquote ++ s ++ dquote.

Definition render_key (k : key) : string :=
  match k with
  | KStr s => quote s
  | KInt n => quote (str_int n)
  end.

Fixpoint render (v : value) : string :=
  match v with
  | VNone => "null"
  | VBool true => "true"
  | VBool false => "false"
  | VInt n => str_int n
  | VFloat _ => "3.14"
  | VStr s => quote s
  | VList xs => "[" ++ String.concat ", " (map render xs) ++ "]"
  | VDict kv =>
      "{" ++ String.concat ", "
               (map (fun p => render_key (fst p) ++ ": " ++ render (snd p)) kv)
          ++ "}"
  | VObj _ => ""
  end.

(** The word "cafe" with an acute accent on the e: its last character is
    the two bytes C3 A9. *)
Definition cafe : string :=
  "caf" ++ String (ascii_of_N 195) (String (ascii_of_N 169) "").

Definition messages : list value :=
  [ call_request "Gimp.Widget.get_name" (VList []) (VDict []);
    call_request "Gimp.Widget.missing_method" (VList []) (VDict []);
    call_request "Gimp.Image.get_width" (VList [VNone])
                 (VDict [(KStr "image_id", VInt 7)]);
    call_request "Gimp.Image.get_by_id" (VList [VInt 5]) (VDict []);
    call_request "Gimp.echo" (VList []) (VDict [(KStr "label", VStr cafe)]) ].

(** The text of the last message, and its two parts when the stream is cut
    between the two bytes of the accented letter. *)
Definition cafe_request : value :=
  call_request "Gimp.echo" (VList []) (VDict [(KStr "label", VStr cafe)]).

Definition cafe_text : string := render cafe_request.

Definition cafe_head : string := substring 0 94 cafe_text.

Definition cafe_tail : string := substring 94 5 cafe_text.

Definition read (text : string) : option value :=
  find (fun m => String.eqb (render m) text) messages.

Definition write (v : value) : option string :=
  if wire v then Some (render v) else None.

#[export] Instance codec : Codec.
Proof.
  refine {| json_loads := read; json_dumps := write |}.
  intros v Hv. unfold write. rewrite Hv. discriminate.
Defined.

(** The double nearest to 3.14: 7070651414971679 * 2^-51. *)
Definition float_3_14 : spec_float := S754_finite false 7070651414971679 (-51).

(** A controller whose next socket connects, takes the request and then
    behaves as [script] says on [recv]. *)
Definition manager (script : list received) : GimpConnection :=
  mkConn None [mkSocket 1 None None script] [].

(** A connection just accepted, with what the peer will deliver. *)
Definition accepted (inbox : list delivery) : state unit :=
  mkState tt inbox true true [].

End Sample.

(** * More of the bridge

    The callers of the connection managers (the tools of the two
    controllers), the accept loops of the two plugins, and the shapes of the
    values the dispatchers put on the wire. *)

(** ** What a serialized result looks like *)

Definition is_text (v : value) : bool :=
  match v with
  | VStr _ => true
  | _ => false
  end.

(** An object with exactly the fields [id] and [type], the latter a string. *)
Definition is_tagged_handle (v : value) : bool :=
  match v with
  | VDict [(KStr a, _); (KStr b, VStr _)] =>
      String.eqb a "id" && String.eqb b "type"
  | _ => false
  end.

(** An object with the one field [id]. *)
Definition is_handle (v : value) : bool :=
  match v with
  | VDict [(KStr a, _)] => String.eqb a "id"
  | _ => false
  end.

(** A string, a handle, or a list of strings and tagged handles. *)
Definition is_serialized (v : value) : bool :=
  match v with
  | VStr _ => true
  | VList items => forallb (fun x => is_text x || is_tagged_handle x) items
  | _ => is_handle v
  end.

(** A path segment: a string without a dot. *)
Fixpoint dotless (s : string) : bool :=
  match s with
  | EmptyString => true
  | String c rest => negb (Ascii.eqb c ".") && dotless rest
  end.

(** ** Operations of Python on decoded responses *)

(** [v[k]] for a string [k] *)
Definition subscript (v : value) (k : string) : outcome value :=
  match v with
  | VDict kv => match dict_get (KStr k) kv with
                | Some x => Ok x
                | None => Raise (KeyError k)
                end
  | VList _ => Raise (TypeError
                        "list indices must be integers or slices, not str")
  | VStr _ => Raise (TypeError "string indices must be integers, not 'str'")
  | _ => Raise (TypeError ("'" ++ builtin_type_name v
                               ++ "' object is not subscriptable"))
  end.

(** [v == text] for a string literal [text] *)
Definition equals_text (v : value) (text : string) : bool :=
  match v with
  | VStr s => String.eqb s text
  | _ => false
  end.

(** [needle in hay] on strings *)
Fixpoint contains (needle hay : string) : bool :=
  String.prefix needle hay
  || match hay with
     | EmptyString => false
     | String _ rest => contains needle rest
     end.

(** ** The tools of [src/gimp_mcp/server.py]

    The module-level [_gimp_connection] is the flag [created] ([is not None])
    with the manager object; the manager record also carries the sockets the
    operating system will hand out and the log of socket calls. *)

Record process : Type := mkProcess {
  created : bool;
  manager : GimpConnection
}.

(** The manager [GimpConnection()] builds when none exists yet. *)
Definition ensure_created (p : process) : process :=
  if created p then p else mkProcess true (with_sock (manager p) None).

Module Tools.
Section WithCodec.
Context `{Codec}.

(** [get_gimp_connection] *)
Definition get_gimp_connection (p : process) : outcome unit * process :=
  let p1 := ensure_created p in
  match sock (manager p1) with
  | None => let (r, c) := Controller.connect (manager p1) in
            (r, mkProcess true c)
  | Some _ => (Ok tt, p1)
  end.

(** The [if result["status"] == "success": ... else: ...] of [call_api]: the
    string returned, or the exception raised on the way. *)
Definition report (result : value) : outcome string :=
  match subscript result "status" with
  | Raise e => Raise e
  | Ok status =>
      let field := if equals_text status "success" then "result" else "error" in
      match subscript result field with
      | Raise e => Raise e
      | Ok v =>
          match json_dumps v with
          | None => Raise (TypeError "Object is not JSON serializable")
          | Some text =>
              Ok (if equals_text status "success" then text
                  else "Error: " ++ text)
          end
      end
  end.

(** [f"Error: {e}"] *)
Definition error_text (e : exn) : string := "Error: " ++ exn_str e.

(** [call_api] *)
Definition call_api (p : process) (api_path : string) (args kwargs : value)
  : string * process :=
  let (got, p1) := get_gimp_connection p in
  match got with
  | Raise e => (error_text e, p1)
  | Ok _ =>
      let (r, c) :=
        Controller.send_command (manager p1) (VStr "call_api")
          (VDict [(KStr "api_path", VStr api_path);
                  (KStr "args", args);
                  (KStr "kwargs", kwargs)]) in
      let p2 := mkProcess true c in
      match r with
      | Raise e => (error_text e, p2)
      | Ok result =>
          match report result with
          | Ok text => (text, p2)
          | Raise e => (error_text e, p2)
          end
      end
  end.

(** [get_images] *)
Definition get_images (p : process) : string * process :=
  call_api p "Gimp.get_images" (VList []) (VDict []).

(** [get_image_info] *)
Definition get_image_info (p : process) (image_id : value)
  : outcome string * process :=
  let (image, p1) := call_api p "Gimp.Image.get_by_id" (VList [image_id])
                       (VDict []) in
  if contains "Error" image then (Ok image, p1)
  else
    match json_loads image with
    | None => (Raise JSONDecodeError, p1)
    | Some image_obj =>
        match subscript image_obj "id" with
        | Raise e => (Raise e, p1)
        | Ok id =>
            let (width, p2) := call_api p1 "Gimp.Image.get_width" (VList [id])
                                 (VDict []) in
            let (height, p3) := call_api p2 "Gimp.Image.get_height" (VList [id])
                                  (VDict []) in
            let (layers, p4) := call_api p3 "Gimp.Image.get_layers" (VList [id])
                                  (VDict []) in
            match json_dumps (VDict [(KStr "width", VStr width);
                                     (KStr "height", VStr height);
                                     (KStr "layers", VStr layers)]) with
            | Some text => (Ok text, p4)
            | None => (Raise (TypeError "Object is not JSON serializable"), p4)
            end
        end
    end.

(** [apply_gaussian_blur] *)
Definition apply_gaussian_blur (p : process) (image_id radius : value)
  : outcome string * process :=
  let (image, p1) := call_api p "Gimp.Image.get_by_id" (VList [image_id])
                       (VDict []) in
  if contains "Error" image then (Ok image, p1)
  else
    match json_loads image with
    | None => (Raise JSONDecodeError, p1)
    | Some image_obj =>
        match subscript image_obj "id" with
        | Raise e => (Raise e, p1)
        | Ok id =>
            let (drawable, p2) :=
              call_api p1 "Gimp.Image.get_active_layer" (VList [id])
                (VDict []) in
            if contains "Error" drawable then (Ok drawable, p2)
            else
              match json_loads drawable with
              | None => (Raise JSONDecodeError, p2)
              | Some drawable_obj =>
                  match subscript image_obj "id" with
                  | Raise e => (Raise e, p2)
                  | Ok id1 =>
                      match subscript drawable_obj "id" with
                      | Raise e => (Raise e, p2)
                      | Ok id2 =>
                          let (result, p3) :=
                            call_api p2 "Gimp.get_pdb.run_procedure"
                              (VList [VStr "plug-in-gauss"; id1; id2; radius;
                                      radius; VInt 0])
                              (VDict []) in
                          if contains "Error" result then (Ok result, p3)
                          else
                            let (_, p4) := call_api p3 "Gimp.displays_flush"
                                             (VList []) (VDict []) in
                            (Ok "Applied Gaussian blur successfully", p4)
                      end
                  end
              end
        end
    end.

End WithCodec.
End Tools.

(** ** The accept loops *)

(** What [accept] gives, call after call; when the list is exhausted no peer
    connects any more and the call blocks. *)
Inductive accepting : Type :=
| Accepted (client : nat)
| AcceptFails (e : exn).

(** What the operating system answers to the listener. *)
Record listening : Type := mkListening {
  on_socket : option exn;
  on_bind : option exn;
  on_listen : option exn;
  on_accept : list accepting
}.

Inductive listener_event : Type :=
| LMessage (text : string)
| LSocket
| LBind
| LListen
| LAccept
| LThread (client : nat)
| LCloseListener.

(** How a run of the server ends: it returns, it stays blocked in [accept],
    or an exception leaves it. *)
Inductive ending : Type :=
| Returns
| Blocks
| Escapes (e : exn).

(** The attributes of the [MCPPlugin] object of [gimp-mcp-plugin.py] that
    [run] uses, with the log of what was done. *)
Record MCPPlugin : Type := mkPlugin {
  host : string;
  port : Z;
  running : bool;
  (** [self.socket is not None] *)
  listener : bool;
  done : list listener_event
}.

Definition note (self : MCPPlugin) (evs : list listener_event) : MCPPlugin :=
  mkPlugin (host self) (port self) (running self) (listener self)
           (done self ++ evs)%list.

Module PluginServer.

(** The [while self.running:] loop: a thread per accepted client, until
    [accept] raises. *)
Fixpoint accept_loop (script : list accepting) : list listener_event * option exn :=
  match script with
  | [] => ([LAccept], None)
  | Accepted client :: rest =>
      let (evs, r) := accept_loop rest in
      (LAccept :: LThread client :: evs, r)
  | AcceptFails e :: _ => ([LAccept], Some e)
  end.

(** The [try] body of [run]: the events, whether [self.socket] was assigned,
    and the exception raised, if any. *)
Definition serve (self : MCPPlugin) (env : listening)
  : list listener_event * bool * option exn :=
  match on_socket env with
  | Some e => ([LMessage "Creating socket..."; LSocket], false, Some e)
  | None =>
      match on_bind env with
      | Some e => ([LMessage "Creating socket..."; LSocket; LBind], true, Some e)
      | None =>
          match on_listen env with
          | Some e =>
              ([LMessage "Creating socket..."; LSocket; LBind; LListen], true,
               Some e)
          | None =>
              let (evs, r) := accept_loop (on_accept env) in
              ([LMessage "Creating socket..."; LSocket; LBind; LListen;
                LMessage ("GimpMCP server started on " ++ host self ++ ":"
                            ++ str_int (port self))] ++ evs,
               true, r)%list
          end
      end
  end.

(** [MCPPlugin.run] *)
Definition run (self : MCPPlugin) (env : listening) : ending * MCPPlugin :=
  if running self then
    (Returns, note self [LMessage "MCP Server is already running"])
  else
    let '(evs, assigned, r) := serve self env in
    let has_socket := assigned || listener self in
    match r with
    | None =>
        (Blocks,
         mkPlugin (host self) (port self) true has_socket (done self ++ evs)%list)
    | Some e =>
        (Returns,
         mkPlugin (host self) (port self) false false
           (done self ++ evs
              ++ [LMessage ("Error starting server: " ++ exn_str e)]
              ++ (if has_socket then [LCloseListener] else []))%list)
    end.

End PluginServer.

Module ServerPluginServer.

(** The [while True:] loop of [start_server]: it ends at the first [accept]
    that raises. *)
Fixpoint accept_loop (script : list accepting) : list listener_event * bool :=
  match script with
  | [] => ([LAccept], false)
  | Accepted client :: rest =>
      let (evs, ended) := accept_loop rest in
      (LAccept :: LThread client :: evs, ended)
  | AcceptFails e :: _ => ([LAccept], true)
  end.

(** [MCPPlugin.start_server] *)
Definition start_server (env : listening) : ending * list listener_event :=
  match on_socket env with
  | Some e => (Escapes e, [LSocket])
  | None =>
      match on_bind env with
      | Some e => (Escapes e, [LSocket; LBind])
      | None =>
          match on_listen env with
          | Some e => (Escapes e, [LSocket; LBind; LListen])
          | None =>
              let (evs, ended) := accept_loop (on_accept env) in
              if ended then
                (Returns, [LSocket; LBind; LListen] ++ evs ++ [LCloseListener])%list
              else (Blocks, [LSocket; LBind; LListen] ++ evs)%list
          end
      end
  end.

End ServerPluginServer.

(** ** The events of the receiving thread of [gimp-mcp-server.py] *)

Definition is_receiver_event (e : event) : bool := is_recv e || is_idle_add e.

(** The log of a receiver that reads one whole message per [recv]. *)
Definition queued_one_by_one (commands : list value) : list event :=
  flat_map (fun command => [EvRecv 1024; EvIdleAdd command]) commands.

(** ** The socket calls of the controller *)

Definition is_socket_call (e : call_event) : bool :=
  match e with
  | CSocket _ => true
  | _ => false
  end.

(** A [sendall] or a [recv] on the socket [id]. *)
Definition is_traffic_on (id : nat) (e : call_event) : bool :=
  match e with
  | CSendall i _ | CRecv i => Nat.eqb i id
  | _ => false
  end.

(** The process [p'] comes after [p] by tool calls that opened at most [n]
    sockets and left the manager created and without a socket. *)
Definition after_calls (p p' : process) (n : nat) : Prop :=
  created p' = true
  /\ sock (manager p') = None
  /\ exists added,
       calls (manager p') = (calls (manager p) ++ added)%list
       /\ List.length (filter is_socket_call added) <= n.

(** ** Reading the log of a listener *)

(** The clients accepted before the first [accept] that raises. *)
Fixpoint accepted_before_failure (script : list accepting) : list nat :=
  match script with
  | Accepted client :: rest => client :: accepted_before_failure rest
  | _ => []
  end.

Definition accept_fails (script : list accepting) : bool :=
  existsb (fun a => match a with
                    | AcceptFails _ => true
                    | Accepted _ => false
                    end) script.

(** The clients for which a handler thread was started. *)
Definition threads (evs : list listener_event) : list nat :=
  flat_map (fun e => match e with
                     | LThread client => [client]
                     | _ => []
                     end) evs.

Definition is_close_listener (e : listener_event) : bool :=
  match e with
  | LCloseListener => true
  | _ => false
  end.

(** ** A codec that also reads replies

    The printer of [Sample], with a reader that knows the texts of the sample
    requests and of two replies: the success of [Gimp.Widget.get_name] as
    [gimp-mcp-plugin.py] words it, and the refusal of a command without a
    type as [gimp-mcp-server.py] words it. *)

Module Replies.

Definition sprocket : value :=
  VDict [(KStr "status", VStr "success"); (KStr "result", VStr "Sprocket")].

Definition unknown_command : value :=
  VDict [(KStr "status", VStr "error");
         (KStr "message", VStr "Unknown command: None")].

Definition table : list value :=
  (Sample.messages ++ [sprocket; unknown_command])%list.

Definition read (text : string) : option value :=
  find (fun m => String.eqb (Sample.render m) text) table.

#[export] Instance codec : Codec.
Proof.
  refine {| json_loads := read; json_dumps := Sample.write |}.
  intros v Hv. unfold Sample.write. rewrite Hv. discriminate.
Defined.

(** A long run of the letter x: more than one read of the handler. *)
Definition long_text : string := string_of_list_ascii (repeat "x"%char 5000).

End Replies.

(** ** [gimp-api-scraper.py]: the type names of the generated tools *)

Module Scraper.

Definition PRIMITIVE_MAP : list (string * string) :=
  [("gchar", "string"); ("gboolean", "boolean"); ("gdouble", "number");
   ("gfloat", "number"); ("gulong", "integer"); ("gint", "integer");
   ("guint", "integer"); ("gsize", "integer"); ("gint*", "integer");
   ("gchar*", "string"); ("gdouble*", "number"); ("gsize*", "integer");
   ("gboolean*", "boolean"); ("gchar**", "string"); ("guint8*", "integer")].

(** [s.replace(old, "")] for a non-empty [old]: the occurrences of [old],
    found from left to right without overlap, are removed.  [skip] counts
    the characters of the occurrence being removed that are still ahead. *)
Fixpoint remove_from (old : string) (skip : nat) (s : string) : string :=
  match s with
  | EmptyString => EmptyString
  | String c rest =>
      match skip with
      | S k => remove_from old k rest
      | O =>
          if String.prefix old s
          then remove_from old (String.length old - 1) rest
          else String c (remove_from old 0 rest)
      end
  end.

Fixpoint lookup_type (name : string) (table : list (string * string))
  : option string :=
  match table with
  | [] => None
  | (k, v) :: rest => if String.eqb name k then Some v else lookup_type name rest
  end.

(** [glib_to_openapi] *)
Definition glib_to_openapi (glib_type : string) : string :=
  let glib_type := remove_from "const " 0 glib_type in
  match lookup_type glib_type PRIMITIVE_MAP with
  | Some openapi => openapi
  | None => glib_type
  end.

End Scraper.

(** * Facts

    First the algebra of the monad and a frame property, then the blocks of
    the dispatcher, the listeners, the receiver loop and the connection
    managers; the statements on the sample host come last. *)

Local Open Scope string_scope.
Local Open Scope list_scope.

Section MonadFacts.
Context {world : Type}.

Lemma add_log_nil (s : state world) : add_log s [] = s.
Proof. destruct s; unfold add_log; simpl. now rewrite app_nil_r. Qed.

Lemma add_log_app (s : state world) (l1 l2 : list event) :
  add_log (add_log s l1) l2 = add_log s (l1 ++ l2).
Proof. unfold add_log; simpl. now rewrite app_assoc. Qed.

Lemma bind_ok {A B} (m : M world A) (k : A -> M world B) s a s' :
  m s = (Ok a, s') -> bind m k s = k a s'.
Proof. intros E. unfold bind. now rewrite E. Qed.

Lemma bind_raise {A B} (m : M world A) (k : A -> M world B) s e s' :
  m s = (Raise e, s') -> bind m k s = (Raise e, s').
Proof. intros E. unfold bind. now rewrite E. Qed.

Lemma emits_ret {A} P (a : A) : emits P (@ret world A a).
Proof. intros s. exists []. simpl. now rewrite app_nil_r. Qed.

Lemma emits_raise {A} P e : emits P (@raise world A e).
Proof. intros s. exists []. simpl. now rewrite app_nil_r. Qed.

Lemma emits_read_world {A} P (f : world -> A) : emits P (read_world f).
Proof. intros s. exists []. simpl. now rewrite app_nil_r. Qed.

Lemma emits_host_step {A} P (f : world -> outcome A * world) :
  emits P (host_step f).
Proof. intros s. exists []. simpl. now rewrite app_nil_r. Qed.

Lemma emits_emit P e : P e = true -> emits P (@emit world e).
Proof. intros HP s. exists [e]. simpl. now rewrite HP. Qed.

Lemma emits_bind {A B} P (m : M world A) (k : A -> M world B) :
  emits P m -> (forall a, emits P (k a)) -> emits P (bind m k).
Proof.
  intros Hm Hk s. unfold bind.
  destruct (Hm s) as (l1 & I1 & O1 & U1 & L1 & P1).
  destruct (m s) as [[a|e] s1]; simpl in *.
  - destruct (Hk a s1) as (l2 & I2 & O2 & U2 & L2 & P2).
    exists (l1 ++ l2). rewrite I2, O2, U2, L2, I1, O1, U1, L1.
    rewrite app_assoc, forallb_app, P1, P2. auto.
  - exists l1. auto.
Qed.

Lemma emits_try_except {A} P (m : M world A) (h : exn -> M world A) :
  emits P m -> (forall e, emits P (h e)) -> emits P (try_except m h).
Proof.
  intros Hm Hk s. unfold try_except.
  destruct (Hm s) as (l1 & I1 & O1 & U1 & L1 & P1).
  destruct (m s) as [[a|e] s1]; simpl in *.
  - exists l1. auto.
  - destruct (Hk e s1) as (l2 & I2 & O2 & U2 & L2 & P2).
    exists (l1 ++ l2). rewrite I2, O2, U2, L2, I1, O1, U1, L1.
    rewrite app_assoc, forallb_app, P1, P2. auto.
Qed.

Lemma emits_weaken {A} (P Q : event -> bool) (m : M world A) :
  (forall e, P e = true -> Q e = true) -> emits P m -> emits Q m.
Proof.
  intros HPQ Hm s. destruct (Hm s) as (l & I & O & U & L & HP).
  exists l. repeat split; auto.
  rewrite forallb_forall in *. auto.
Qed.

Lemma emits_mapM {A B} P (f : A -> M world B) xs :
  (forall x, emits P (f x)) -> emits P (mapM f xs).
Proof.
  intros Hf. induction xs as [|x xs IH]; simpl.
  - apply emits_ret.
  - apply emits_bind; [apply Hf|]. intros y.
    apply emits_bind; [apply IH|]. intros ys. apply emits_ret.
Qed.
End MonadFacts.

Ltac emits_step :=
  first
    [ apply emits_ret | apply emits_raise | apply emits_read_world
    | apply emits_host_step
    | apply emits_emit; reflexivity
    | apply emits_bind; [| intros ?]
    | apply emits_try_except; [| intros ?]
    | apply emits_mapM; intros ?
    | match goal with
      | |- emits _ (match ?x with _ => _ end) => destruct x
      | |- emits _ (if ?b then _ else _) => destruct b
      end ].

Section HostFacts.
Context {world : Type} `{Host world}.

Lemma emits_getattr v name : emits is_read (getattr v name).
Proof. unfold getattr. repeat emits_step. Qed.

Lemma emits_hasattr P v name : emits P (hasattr v name).
Proof. unfold hasattr. repeat emits_step. Qed.

Lemma emits_py_str P v : emits P (py_str v).
Proof. unfold py_str. repeat emits_step. Qed.

Lemma emits_class_name P v : emits P (class_name v).
Proof. unfold class_name. repeat emits_step. Qed.

Lemma emits_get_id v : emits is_read (get_id v).
Proof. unfold get_id. repeat emits_step. Qed.

Lemma emits_py_get P d k v : emits P (py_get d k v).
Proof. unfold py_get. repeat emits_step. Qed.

Lemma emits_walk v parts : emits is_read (walk v parts).
Proof.
  revert v; induction parts as [|p parts IH]; intros v; simpl.
  - apply emits_ret.
  - apply emits_bind; [apply emits_getattr | intros; apply IH].
Qed.

Lemma emits_plugin_serialize_result `{Codec} v : emits is_read (Plugin.serialize_result v).
Proof.
  unfold Plugin.serialize_result, Plugin.serialize_gimp_object.
  repeat first [ apply emits_hasattr | apply emits_getattr | apply emits_py_str
               | apply emits_class_name | apply emits_get_id | emits_step ].
Qed.
End HostFacts.

Section DispatcherFacts.
Context {world : Type} `{Host world} `{Codec}.

Lemma getattr_run v name (s : state world) :
  getattr v name s =
  (match lookup (st_world s) v name with
   | Some x => Ok x
   | None => Raise (AttributeError (describe (st_world s) v) name)
   end, add_log s [EvGetattr v name]).
Proof.
  unfold getattr, bind, emit, read_world; simpl.
  destruct (lookup (st_world s) v name); reflexivity.
Qed.

(** The walk of the code computes [follow] and makes the reads of
    [follow_log]; the world is only observed. *)
Lemma walk_run parts : forall v (s : state world),
  walk v parts s =
  (match follow (st_world s) v parts with
   | inl x => Ok x
   | inr (owner, seg) =>
       Raise (AttributeError (describe (st_world s) owner) seg)
   end, add_log s (follow_log (st_world s) v parts)).
Proof.
  induction parts as [|p parts IH]; intros v s; simpl.
  - now rewrite add_log_nil.
  - unfold bind. rewrite getattr_run.
    destruct (lookup (st_world s) v p) as [x|] eqn:E.
    + rewrite IH. simpl. rewrite add_log_app. reflexivity.
    + reflexivity.
Qed.

Lemma follow_log_reads w parts : forall v,
  forallb is_read (follow_log w v parts) = true.
Proof.
  induction parts as [|p parts IH]; intros v; simpl; auto.
  destruct (lookup w v p); simpl; auto.
Qed.

Lemma plugin_resolve_run p (s : state world) :
  Plugin.resolve (VStr p) s = walk h_root (tl (split "." p)) s.
Proof. reflexivity. Qed.

Lemma server_resolve_run p (s : state world) :
  ServerPlugin.resolve (VStr p) s = walk h_root (split "." p) s.
Proof. reflexivity. Qed.

(** *** The dictionary of keyword arguments *)

Lemma dict_get_has k kv v : dict_get k kv = Some v -> dict_has k kv = true.
Proof.
  induction kv as [|[k' v'] kv IH]; simpl; [discriminate|].
  destruct (key_eqb k k'); simpl; auto.
Qed.

Lemma dict_get_del_same k kv : dict_get k (dict_del k kv) = None.
Proof.
  induction kv as [|[k' v'] kv IH]; simpl; auto.
  destruct (key_eqb k k') eqn:E; simpl; auto. now rewrite E.
Qed.

Lemma keywords_del k kv ks :
  keywords kv = Some ks ->
  keywords (dict_del (KStr k) kv)
  = Some (filter (fun p => negb (String.eqb k (fst p))) ks).
Proof.
  revert ks; induction kv as [|[[k'|n] v'] kv IH]; intros ks; simpl.
  - intros [= <-]. reflexivity.
  - destruct (keywords kv) as [ks'|]; [|discriminate]. intros [= <-].
    simpl. destruct (String.eqb k k'); simpl.
    + now apply IH.
    + now rewrite (IH ks').
  - discriminate.
Qed.

Lemma keywords_get k kv ks v :
  keywords kv = Some ks -> dict_get (KStr k) kv = Some v -> In (k, v) ks.
Proof.
  revert ks; induction kv as [|[[k'|n] v'] kv IH]; intros ks; simpl.
  - discriminate.
  - destruct (keywords kv) as [ks'|]; [|discriminate]. intros [= <-].
    destruct (String.eqb_spec k k') as [->|Hne].
    + intros [= ->]. now left.
    + intros Hg. right. now apply IH.
  - discriminate.
Qed.

Lemma filter_drops_key k (ks : list (string * value)) v :
  ~ In (k, v) (filter (fun p => negb (String.eqb k (fst p))) ks).
Proof.
  intros Hin. apply filter_In in Hin as [_ Hk]. simpl in Hk.
  now rewrite String.eqb_refl in Hk.
Qed.

(** *** The blocks of [execute_command] *)

Lemma extract_image_truthy kv id (s : state world) :
  dict_get (KStr "image_id") kv = Some id -> truthy id = true ->
  Plugin.extract_image (VDict kv) s =
  (match fst (h_get_by_id (st_world s) id) with
   | Ok image => Ok (image, VDict (dict_del (KStr "image_id") kv))
   | Raise e => Raise e
   end,
   set_world (add_log s [EvGetById id]) (snd (h_get_by_id (st_world s) id))).
Proof.
  intros Hg Ht. unfold Plugin.extract_image, py_get, bind, ret. simpl.
  rewrite Hg, Ht. unfold get_by_id, bind, emit, host_step. simpl.
  destruct (h_get_by_id (st_world s) id) as [[image|e] w1]; simpl; auto.
  unfold py_delitem. now rewrite (dict_get_has _ _ _ Hg).
Qed.

Lemma extract_image_falsy kv (s : state world) :
  match dict_get (KStr "image_id") kv with
  | Some id => truthy id = false
  | None => True
  end ->
  Plugin.extract_image (VDict kv) s = (Ok (VNone, VDict kv), s).
Proof.
  intros Hf. unfold Plugin.extract_image, py_get, bind, ret. simpl.
  destruct (dict_get (KStr "image_id") kv) as [id|]; simpl.
  - now rewrite Hf.
  - reflexivity.
Qed.

Lemma execute_body_call_request p args kwargs :
  Plugin.execute_body (call_request p args kwargs) =
  (ik <- Plugin.extract_image kwargs ;;
   let '(image, kwargs) := ik in
   current <- Plugin.resolve (VStr p) ;;
   result <- Plugin.invoke current image args kwargs ;;
   result <- Plugin.serialize_result result ;;
   ret (Plugin.success_response result)).
Proof. reflexivity. Qed.

Lemma invoke_callable current image args kv params ks (s : state world) :
  is_host current = true ->
  h_callable (st_world s) current = true ->
  h_params (st_world s) current = Ok params ->
  keywords kv = Some ks ->
  (name_in "image" params = true -> args <> []) ->
  let positional :=
    if name_in "image" params then image :: tl args else args in
  Plugin.invoke current image (VList args) (VDict kv) s =
  (fst (h_call (st_world s) current positional ks),
   set_world (add_log s [EvCall current positional ks])
             (snd (h_call (st_world s) current positional ks))).
Proof.
  intros Hh Hc Hp Hk Hne positional.
  unfold Plugin.invoke, callable, signature, bind, read_world; simpl.
  rewrite Hh, Hc; simpl. rewrite Hp; simpl.
  destruct current; try discriminate.
  subst positional.
  destruct (name_in "image" params); simpl.
  - destruct args as [|a rest]; [now destruct Hne|]. simpl.
    unfold py_dstar. rewrite Hk. reflexivity.
  - unfold py_dstar. rewrite Hk. reflexivity.
Qed.

Lemma invoke_empty_args current image kv params (s : state world) :
  is_host current = true ->
  h_callable (st_world s) current = true ->
  h_params (st_world s) current = Ok params ->
  name_in "image" params = true ->
  Plugin.invoke current image (VList []) (VDict kv) s =
  (Raise (IndexError "list assignment index out of range"), s).
Proof.
  intros Hh Hc Hp Hin.
  unfold Plugin.invoke, callable, signature, bind, read_world; simpl.
  rewrite Hh, Hc; simpl. rewrite Hp; simpl. now rewrite Hin.
Qed.

End DispatcherFacts.

Section InjectionFacts.
Context {world : Type} `{Host world} `{Codec}.

(** What [execute_command] does after the call returned [r] in state [s3]:
    serialization only reads. *)
Lemma finish_reads (r : outcome value) (s3 : state world) :
  exists tail,
    st_log (snd (try_except
                   (fun s => match r with
                             | Ok a =>
                                 (result <- Plugin.serialize_result a ;;
                                  ret (Plugin.success_response result)) s
                             | Raise e => (Raise e, s)
                             end)
                   (fun e => ret (Plugin.error_response e)) s3))
    = st_log s3 ++ tail
    /\ forallb is_read tail = true.
Proof.
  assert (E : emits is_read
                (try_except
                   (fun s => match r with
                             | Ok a =>
                                 (result <- Plugin.serialize_result a ;;
                                  ret (Plugin.success_response result)) s
                             | Raise e => (Raise e, s)
                             end)
                   (fun e => ret (Plugin.error_response e)))).
  { apply emits_try_except; [| intros; apply emits_ret].
    destruct r as [a|e].
    - apply emits_bind; [apply emits_plugin_serialize_result|].
      intros; apply emits_ret.
    - apply (emits_raise is_read e). }
  destruct (E s3) as (tail & _ & _ & _ & L & P). eauto.
Qed.

Lemma reads_are_not_lookups_by_id evs x :
  forallb is_read evs = true -> ~ In (EvGetById x) evs.
Proof.
  intros Hr Hin. rewrite forallb_forall in Hr.
  specialize (Hr _ Hin). discriminate.
Qed.

Lemma reads_are_not_calls evs :
  forallb is_read evs = true -> existsb is_call evs = false.
Proof.
  induction evs as [|e evs IH]; simpl; auto.
  intros Hr. apply andb_true_iff in Hr as [He Hr].
  rewrite (IH Hr). destruct e; simpl in *; auto; discriminate.
Qed.

Lemma execute_command_after_invoke p args kv0 kv image s1 s2 s3 r
  (s : state world) :
  Plugin.extract_image (VDict kv0) s = (Ok (image, VDict kv), s1) ->
  forall current,
  Plugin.resolve (VStr p) s1 = (Ok current, s2) ->
  Plugin.invoke current image (VList args) (VDict kv) s2 = (r, s3) ->
  exists tail,
    st_log (snd (Plugin.execute_command
                   (call_request p (VList args) (VDict kv0)) s))
    = st_log s3 ++ tail
    /\ forallb is_read tail = true.
Proof.
  intros He current Hr Hi.
  destruct (finish_reads r s3) as (tail & L & P).
  exists tail. split; [|exact P]. rewrite <- L.
  unfold Plugin.execute_command, try_except.
  rewrite execute_body_call_request.
  unfold bind at 1. rewrite He.
  unfold bind at 1. rewrite Hr.
  unfold bind at 1. rewrite Hi.
  destruct r; reflexivity.
Qed.

(** The call made for a truthy [image_id] when the lookup by id returns an
    image and the path resolves to a callable with a signature. *)
Lemma truthy_image_id_call :
  forall (s : state world) p a rest kv ks0 id image current params,
    keywords kv = Some ks0 ->
    dict_get (KStr "image_id") kv = Some id ->
    truthy id = true ->
    fst (h_get_by_id (st_world s) id) = Ok image ->
    let w1 := snd (h_get_by_id (st_world s) id) in
    follow w1 h_root (tl (split "." p)) = inl current ->
    is_host current = true ->
    h_callable w1 current = true ->
    h_params w1 current = Ok params ->
    let ks := filter (fun q => negb (String.eqb "image_id" (fst q))) ks0 in
    let positional :=
      if name_in "image" params then image :: rest else a :: rest in
    exists tail,
      st_log (snd (Plugin.execute_command
                     (call_request p (VList (a :: rest)) (VDict kv)) s))
      = st_log s ++ EvGetById id :: follow_log w1 h_root (tl (split "." p))
                 ++ EvCall current positional ks :: tail
      /\ forallb is_read tail = true
      /\ (forall v, ~ In ("image_id", v) ks).
Proof.
  intros s p a rest kv ks0 id image current params Hk Hg Ht Hid w1 Hf Hh Hc Hp
         ks positional.
  pose proof (extract_image_truthy kv id s Hg Ht) as He. rewrite Hid in He.
  fold w1 in He.
  set (s1 := set_world (add_log s [EvGetById id]) w1) in *.
  assert (Hr : Plugin.resolve (VStr p) s1
               = (Ok current, add_log s1 (follow_log w1 h_root (tl (split "." p))))).
  { rewrite plugin_resolve_run, walk_run. simpl. now rewrite Hf. }
  set (s2 := add_log s1 (follow_log w1 h_root (tl (split "." p)))) in *.
  pose proof (invoke_callable current image (a :: rest)
                (dict_del (KStr "image_id") kv) params ks s2 Hh Hc Hp
                (keywords_del "image_id" kv ks0 Hk)) as Hi.
  simpl in Hi. specialize (Hi ltac:(discriminate)).
  destruct (execute_command_after_invoke p (a :: rest) kv _ _ _ _ _ _ s
              He current Hr Hi) as (tail & L & P).
  exists tail. split; [| split; [exact P | intros v; apply filter_drops_key]].
  rewrite L. simpl. rewrite <- !app_assoc. simpl.
  fold positional. reflexivity.
Qed.

Lemma keywords_without_key k kv ks :
  keywords (dict_del (KStr k) kv) = Some ks ->
  existsb (fun q => String.eqb k (fst q)) ks = false.
Proof.
  revert ks; induction kv as [|[[k'|n] v'] kv IH]; intros ks; simpl.
  - intros [= <-]. reflexivity.
  - destruct (String.eqb k k') eqn:E; simpl.
    + apply IH.
    + destruct (keywords (dict_del (KStr k) kv)) as [ks'|]; [|discriminate].
      intros [= <-]. simpl. rewrite E. now apply IH.
  - discriminate.
Qed.

Lemma emits_bind_ret {A B} P (a : A) (k : A -> M world B) :
  emits P (k a) -> emits P (bind (ret a) k).
Proof. intros Hk s. exact (Hk s). Qed.

Lemma emits_bind_raise {A B} P e (k : A -> M world B) :
  emits P (bind (raise e) k).
Proof. intros s. exists []. simpl. now rewrite app_nil_r. Qed.

Lemma read_is_without_image_id e :
  is_read e = true -> without_image_id e = true.
Proof. destruct e; simpl; auto; discriminate. Qed.

(** With [image_id] deleted from [kwargs], no call that [invoke] makes has it
    among its keywords, whatever the other arguments are. *)
Lemma emits_invoke_without_image_id current image args kv :
  emits without_image_id
    (Plugin.invoke current image args (VDict (dict_del (KStr "image_id") kv))).
Proof.
  unfold Plugin.invoke.
  apply emits_bind; [unfold callable; emits_step|]. intros is_callable.
  destruct is_callable; [| apply emits_ret].
  apply emits_bind; [unfold signature; repeat emits_step|]. intros params.
  apply emits_bind;
    [destruct (name_in "image" params);
     [unfold py_setitem0; repeat emits_step | apply emits_ret]|].
  intros args'.
  apply emits_bind; [unfold py_star; repeat emits_step|]. intros positional.
  unfold py_dstar.
  destruct (keywords (dict_del (KStr "image_id") kv)) as [ks|] eqn:Ek;
    [| apply emits_bind_raise].
  apply emits_bind_ret. unfold call.
  destruct current; try apply emits_raise.
  apply emits_bind; [| intros; apply emits_host_step].
  apply emits_emit. unfold without_image_id.
  now rewrite (keywords_without_key "image_id" kv ks Ek).
Qed.

(** On every path of [execute_command], a truthy [image_id] is looked up
    first and never reaches a callable as a keyword. *)
Lemma truthy_image_id_is_removed p args kv id (s : state world) :
  dict_get (KStr "image_id") kv = Some id ->
  truthy id = true ->
  exists tail,
    st_log (snd (Plugin.execute_command (call_request p args (VDict kv)) s))
    = st_log s ++ EvGetById id :: tail
    /\ forallb without_image_id tail = true.
Proof.
  intros Hg Ht.
  pose proof (extract_image_truthy kv id s Hg Ht) as He.
  unfold Plugin.execute_command, try_except.
  rewrite execute_body_call_request.
  unfold bind at 1. rewrite He.
  destruct (h_get_by_id (st_world s) id) as [[image|e] w1]; simpl fst; simpl snd.
  - assert (E : emits without_image_id
                  (try_except
                     (current <- Plugin.resolve (VStr p) ;;
                      result <- Plugin.invoke current image args
                                  (VDict (dict_del (KStr "image_id") kv)) ;;
                      result <- Plugin.serialize_result result ;;
                      ret (Plugin.success_response result))
                     (fun e => ret (Plugin.error_response e)))).
    { apply emits_try_except; [| intros; apply emits_ret].
      apply emits_bind.
      - apply (emits_weaken is_read _ _ read_is_without_image_id).
        apply emits_walk.
      - intros current. apply emits_bind.
        + apply emits_invoke_without_image_id.
        + intros result. apply emits_bind; [| intros; apply emits_ret].
          apply (emits_weaken is_read _ _ read_is_without_image_id).
          apply emits_plugin_serialize_result. }
    destruct (E (set_world (add_log s [EvGetById id]) w1))
      as (tail & _ & _ & _ & L & P).
    exists tail. split; [| exact P].
    unfold try_except in L. simpl in L. rewrite <- app_assoc in L. exact L.
  - exists []. split; reflexivity.
Qed.

(** C3, as amended: for every request whose [kwargs] maps [image_id] to a
    truthy value, the lookup by id is the first thing the dispatcher does,
    before the attribute walk, and no callable is ever called with [image_id]
    among its keywords; when moreover [args] is a non-empty list, the lookup
    returns an image and the path resolves to a callable with a signature,
    the callable is called once, and the image replaces the first positional
    argument exactly when the callable declares a parameter named [image]. *)
Theorem truthy_image_id_is_injected :
  forall (s : state world) p args kv id,
    dict_get (KStr "image_id") kv = Some id ->
    truthy id = true ->
    let out := Plugin.execute_command (call_request p args (VDict kv)) s in
    (exists tail,
       st_log (snd out) = st_log s ++ EvGetById id :: tail
       /\ forall f positional keyword v,
            In (EvCall f positional keyword) tail ->
            ~ In ("image_id", v) keyword)
    /\ forall a rest ks0 image current params,
         args = VList (a :: rest) ->
         keywords kv = Some ks0 ->
         fst (h_get_by_id (st_world s) id) = Ok image ->
         let w1 := snd (h_get_by_id (st_world s) id) in
         follow w1 h_root (tl (split "." p)) = inl current ->
         is_host current = true ->
         h_callable w1 current = true ->
         h_params w1 current = Ok params ->
         let ks := filter (fun q => negb (String.eqb "image_id" (fst q))) ks0 in
         let positional :=
           if name_in "image" params then image :: rest else a :: rest in
         exists tail,
           st_log (snd out)
           = st_log s ++ EvGetById id
                      :: follow_log w1 h_root (tl (split "." p))
                      ++ EvCall current positional ks :: tail
           /\ forallb is_read tail = true.
Proof.
  intros s p args kv id Hg Ht out. split.
  - destruct (truthy_image_id_is_removed p args kv id s Hg Ht) as (tail & L & P).
    exists tail. split; [exact L|].
    intros f positional keyword v Hin Hkw.
    rewrite forallb_forall in P. specialize (P _ Hin).
    unfold without_image_id in P. apply negb_true_iff in P.
    assert (Hex : existsb (fun q => String.eqb "image_id" (fst q)) keyword = true).
    { apply existsb_exists. exists ("image_id", v). split; [exact Hkw|].
      reflexivity. }
    rewrite Hex in P. discriminate.
  - intros a rest ks0 image current params -> Hk Hid w1 Hf Hh Hc Hp ks positional.
    destruct (truthy_image_id_call s p a rest kv ks0 id image current params
                Hk Hg Ht Hid Hf Hh Hc Hp) as (tail & L & P & _).
    exists tail. split; [exact L | exact P].
Qed.

End InjectionFacts.

Section MoreDispatcherFacts.
Context {world : Type} `{Host world} `{Codec}.

(** C9: when [kwargs] maps [image_id] to a falsy value, the extraction
    step does nothing: it returns no image and the same [kwargs] without
    touching the host; no lookup by id appears among the interactions; and
    the callable the path resolves to is called with [image_id] among its
    keyword arguments. *)
Theorem falsy_image_id_passes_through :
  forall (s : state world) p args kv ks id current params,
    keywords kv = Some ks ->
    dict_get (KStr "image_id") kv = Some id ->
    truthy id = false ->
    follow (st_world s) h_root (tl (split "." p)) = inl current ->
    is_host current = true ->
    h_callable (st_world s) current = true ->
    h_params (st_world s) current = Ok params ->
    (name_in "image" params = true -> args <> []) ->
    let positional :=
      if name_in "image" params then VNone :: tl args else args in
    Plugin.extract_image (VDict kv) s = (Ok (VNone, VDict kv), s)
    /\ exists tail,
         let added := follow_log (st_world s) h_root (tl (split "." p))
                      ++ EvCall current positional ks :: tail in
         st_log (snd (Plugin.execute_command
                        (call_request p (VList args) (VDict kv)) s))
         = st_log s ++ added
         /\ forallb is_read tail = true
         /\ In ("image_id", id) ks
         /\ (forall x, ~ In (EvGetById x) added).
Proof.
  intros s p args kv ks id current params Hk Hg Ht Hf Hh Hc Hp Hne positional.
  assert (He : Plugin.extract_image (VDict kv) s = (Ok (VNone, VDict kv), s)).
  { apply extract_image_falsy. now rewrite Hg. }
  split; [exact He|].
  assert (Hr : Plugin.resolve (VStr p) s
               = (Ok current,
                  add_log s (follow_log (st_world s) h_root (tl (split "." p))))).
  { rewrite plugin_resolve_run, walk_run. now rewrite Hf. }
  set (s2 := add_log s (follow_log (st_world s) h_root (tl (split "." p)))) in *.
  pose proof (invoke_callable current VNone args kv params ks s2 Hh Hc Hp Hk Hne)
    as Hi.
  simpl in Hi. fold positional in Hi.
  destruct (execute_command_after_invoke p args kv _ _ _ _ _ _ s
              He current Hr Hi) as (tail & L & P).
  exists tail. simpl. split; [| split; [exact P | split]].
  - rewrite L. simpl. now rewrite <- !app_assoc.
  - eapply keywords_get; eauto.
  - intros x Hin. apply in_app_or in Hin as [Hin | [Hin | Hin]].
    + revert Hin. apply reads_are_not_lookups_by_id, follow_log_reads.
    + discriminate.
    + revert Hin. now apply reads_are_not_lookups_by_id.
Qed.

(** C10: with a truthy [image_id], a callable that declares a parameter
    named [image] and an empty [args] list, [args[0] = image] raises
    [IndexError]; [execute_command] catches it and returns the response with
    status [error] that carries its message and traceback, and no host
    function is called. *)
Theorem empty_args_splice_is_an_error :
  forall (s : state world) p kv id image current params,
    dict_get (KStr "image_id") kv = Some id ->
    truthy id = true ->
    fst (h_get_by_id (st_world s) id) = Ok image ->
    let w1 := snd (h_get_by_id (st_world s) id) in
    follow w1 h_root (tl (split "." p)) = inl current ->
    is_host current = true ->
    h_callable w1 current = true ->
    h_params w1 current = Ok params ->
    name_in "image" params = true ->
    let out := Plugin.execute_command
                 (call_request p (VList []) (VDict kv)) s in
    let added := EvGetById id :: follow_log w1 h_root (tl (split "." p)) in
    fst out
    = Ok (VDict [(KStr "status", VStr "error");
                 (KStr "error", VStr "list assignment index out of range");
                 (KStr "traceback",
                  VStr (h_traceback
                          (IndexError "list assignment index out of range")))])
    /\ st_log (snd out) = st_log s ++ added
    /\ existsb is_call added = false.
Proof.
  intros s p kv id image current params Hg Ht Hid w1 Hf Hh Hc Hp Hin out added.
  pose proof (extract_image_truthy kv id s Hg Ht) as He. rewrite Hid in He.
  fold w1 in He.
  set (s1 := set_world (add_log s [EvGetById id]) w1) in *.
  assert (Hr : Plugin.resolve (VStr p) s1
               = (Ok current, add_log s1 (follow_log w1 h_root (tl (split "." p))))).
  { rewrite plugin_resolve_run, walk_run. simpl. now rewrite Hf. }
  set (s2 := add_log s1 (follow_log w1 h_root (tl (split "." p)))) in *.
  pose proof (invoke_empty_args current image
                (dict_del (KStr "image_id") kv) params s2 Hh Hc Hp Hin) as Hi.
  assert (Hout : out = (Ok (Plugin.error_response
                              (IndexError "list assignment index out of range")),
                        s2)).
  { subst out. unfold Plugin.execute_command, try_except.
    rewrite execute_body_call_request.
    unfold bind at 1. rewrite He.
    unfold bind at 1. rewrite Hr.
    unfold bind at 1. rewrite Hi. reflexivity. }
  rewrite Hout. simpl. split; [reflexivity | split].
  - now rewrite <- app_assoc.
  - apply reads_are_not_calls, follow_log_reads.
Qed.

(** *** Serialization *)

(** C1, as amended: of the scalars only a string is returned unchanged; the
    serializer of either plugin turns every other scalar into its [str]
    text ([None] into "None", [True] into "True", [False] into "False", an
    integer into its decimal digits, a float into the text the runtime
    prints), leaving the state as it was. *)
Theorem scalars_are_serialized_to_their_text :
  forall (s : state world) (t : string) (n : Z) (f : spec_float),
    Plugin.serialize_result (VStr t) s = (Ok (VStr t), s)
    /\ Plugin.serialize_result VNone s = (Ok (VStr "None"), s)
    /\ Plugin.serialize_result (VBool true) s = (Ok (VStr "True"), s)
    /\ Plugin.serialize_result (VBool false) s = (Ok (VStr "False"), s)
    /\ Plugin.serialize_result (VInt n) s = (Ok (VStr (str_int n)), s)
    /\ Plugin.serialize_result (VFloat f) s
       = (Ok (VStr (h_str (st_world s) (VFloat f))), s)
    /\ ServerPlugin.serialize_result (VStr t) s = (Ok (VStr t), s)
    /\ ServerPlugin.serialize_result VNone s = (Ok (VStr "None"), s)
    /\ ServerPlugin.serialize_result (VBool true) s = (Ok (VStr "True"), s)
    /\ ServerPlugin.serialize_result (VBool false) s = (Ok (VStr "False"), s)
    /\ ServerPlugin.serialize_result (VInt n) s = (Ok (VStr (str_int n)), s)
    /\ ServerPlugin.serialize_result (VFloat f) s
       = (Ok (VStr (h_str (st_world s) (VFloat f))), s).
Proof. intros s t n f. repeat split. Qed.

(** The handle reduction of [gimp-mcp-plugin.py] (C6 holds there): a result
    with an attribute [id] becomes the one-field object holding it, whatever
    else the result exposes. *)
Theorem plugin_reduces_objects_with_id :
  forall (s : state world) (result id : value),
    lookup (st_world s) result "id" = Some id ->
    Plugin.serialize_result result s
    = (Ok (VDict [(KStr "id", id)]), add_log s [EvGetattr result "id"]).
Proof.
  intros s result id Hid.
  unfold Plugin.serialize_result, hasattr, bind, read_world. simpl.
  rewrite Hid. rewrite getattr_run, Hid. reflexivity.
Qed.

(** [gimp-mcp-server.py] tests the attribute [ID] instead: an object
    without it is turned into text, whether or not it has an [id]. *)
Theorem server_plugin_keeps_objects_without_ID :
  forall (s : state world) (o : N),
    lookup (st_world s) (VObj o) "ID" = None ->
    ServerPlugin.serialize_result (VObj o) s
    = (Ok (VStr (h_str (st_world s) (VObj o))), s).
Proof.
  intros s o Hid.
  unfold ServerPlugin.serialize_result, hasattr, bind, read_world. simpl.
  simpl in Hid. rewrite Hid. reflexivity.
Qed.

(** *** Resolution *)

(** The resolver of [gimp-mcp-plugin.py] (C2 holds there): it computes
    [follow] on the segments after the first, returning the value reached or
    raising the [AttributeError] that names the first undefined segment; the
    host's world is left as it was. *)
Theorem plugin_resolve_follows_segments :
  forall (s : state world) (p : string),
    let w := st_world s in
    let segments := tl (split "." p) in
    fst (Plugin.resolve (VStr p) s)
    = match follow w h_root segments with
      | inl target => Ok target
      | inr (owner, seg) => Raise (AttributeError (describe w owner) seg)
      end
    /\ st_world (snd (Plugin.resolve (VStr p) s)) = w.
Proof.
  intros s p w segments. rewrite plugin_resolve_run, walk_run. simpl.
  split; reflexivity.
Qed.

(** The resolver of [gimp-mcp-server.py] looks up every segment, the first
    one included. *)
Theorem server_plugin_resolve_looks_up_every_segment :
  forall (s : state world) (p : string),
    let w := st_world s in
    fst (ServerPlugin.resolve (VStr p) s)
    = match follow w h_root (split "." p) with
      | inl target => Ok target
      | inr (owner, seg) => Raise (AttributeError (describe w owner) seg)
      end.
Proof.
  intros s p w. rewrite server_resolve_run, walk_run. reflexivity.
Qed.

End MoreDispatcherFacts.

Section ListenerFacts.
Context {world : Type} `{Host world} `{Codec}.

Lemma emits_call f args kwargs : emits is_host_event (call f args kwargs).
Proof. unfold call. repeat emits_step. Qed.

Lemma emits_get_by_id id : emits is_host_event (get_by_id id).
Proof. unfold get_by_id. repeat emits_step. Qed.

Lemma read_is_host_event e : is_read e = true -> is_host_event e = true.
Proof. destruct e; simpl; auto. Qed.

Lemma emits_plugin_execute_command request :
  emits is_host_event (Plugin.execute_command request).
Proof.
  unfold Plugin.execute_command, Plugin.execute_body, Plugin.extract_image,
    Plugin.resolve, Plugin.invoke, callable, signature, py_get, py_delitem,
    py_split, py_setitem0, py_star, py_dstar.
  repeat first
    [ apply emits_call | apply emits_get_by_id
    | apply (emits_weaken is_read is_host_event _ read_is_host_event);
      first [ apply emits_walk | apply emits_plugin_serialize_result ]
    | emits_step ].
Qed.

(** [execute_command] never raises: its result is the success response of
    the body or the error response of what the body raised. *)
Lemma plugin_execute_command_total request (s : state world) :
  Plugin.execute_command request s =
  (Ok match fst (Plugin.execute_body request s) with
      | Ok response => response
      | Raise e => Plugin.error_response e
      end,
   snd (Plugin.execute_body request s)).
Proof.
  unfold Plugin.execute_command, try_except.
  destruct (Plugin.execute_body request s) as [[r|e] s']; reflexivity.
Qed.

Lemma error_response_wire e : wire (Plugin.error_response e) = true.
Proof. reflexivity. Qed.

Lemma recv_ok_open n data (s : state world) :
  fst (recv n s) = Ok data -> st_open s = true.
Proof.
  unfold recv, bind, emit. simpl.
  destruct (st_open s); simpl; [reflexivity | discriminate].
Qed.

Lemma recv_state n (s : state world) :
  st_open (snd (recv n s)) = st_open s
  /\ st_peer_up (snd (recv n s)) = st_peer_up s
  /\ st_log (snd (recv n s)) = st_log s ++ [EvRecv n]
  /\ st_world (snd (recv n s)) = st_world s.
Proof.
  unfold recv, bind, emit. simpl.
  destruct (st_open s) eqn:E; simpl; [| repeat split; auto].
  destruct (st_inbox s) as [|[data|e] rest]; simpl; repeat split; auto.
Qed.

(** What [_handle_client] does once the single read produced a request:
    one [sendall] of the encoded response, then [close]. *)
Lemma plugin_handler_run data request response text (s : state world) :
  st_peer_up s = true ->
  fst (recv 4096 s) = Ok data ->
  utf8_valid data = true ->
  json_loads data = Some request ->
  let s1 := snd (recv 4096 s) in
  let s2 := snd (Plugin.execute_command request s1) in
  fst (Plugin.execute_command request s1) = Ok response ->
  json_dumps response = Some text ->
  Plugin._handle_client s
  = (Ok tt, mkState (st_world s2) (st_inbox s2) false true
                    (st_log s2 ++ [EvSend text; EvClose])).
Proof.
  intros Hup Hrecv Hutf Hload s1 s2 Hexec Hdump.
  pose proof (recv_ok_open _ _ _ Hrecv) as Hopen.
  destruct (recv_state 4096 s) as (O1 & U1 & _).
  destruct (emits_plugin_execute_command request s1)
    as (evs & _ & O2 & U2 & _ & _).
  fold s1 in O1, U1. fold s2 in O2, U2.
  unfold Plugin._handle_client.
  unfold bind at 1. destruct (recv 4096 s) as [r sr] eqn:Er.
  simpl in Hrecv. subst r. simpl in s1. subst s1.
  unfold bind at 1. unfold decode, decode_utf8. simpl. rewrite Hutf. simpl.
  unfold bind at 1. unfold loads. rewrite Hload. simpl.
  unfold bind at 1.
  destruct (Plugin.execute_command request sr) as [r2 sx] eqn:Ex.
  simpl in Hexec. subst r2. simpl in s2. subst s2.
  unfold bind at 1. unfold dumps. rewrite Hdump. simpl.
  unfold bind, sendall, close, emit.
  rewrite O2, O1, Hopen, U2, U1, Hup. simpl.
  rewrite <- app_assoc. simpl. rewrite U2, U1, Hup. reflexivity.
Qed.

End ListenerFacts.

Section ReceiverFacts.
Context {world : Type} `{Host world} `{Codec}.

Lemma substring_length_le n m s :
  String.length (substring n m s) <= String.length s - n.
Proof.
  revert n m; induction s as [|c s IH]; intros n m.
  - destruct n, m; simpl; lia.
  - destruct n as [|n]; simpl.
    + destruct m as [|m]; simpl; [lia|]. specialize (IH 0 m). lia.
    + apply IH.
Qed.

Lemma substring_whole n s :
  String.length s <= n -> substring 0 n s = s.
Proof.
  revert n; induction s as [|c s IH]; intros n Hn.
  - destruct n; reflexivity.
  - destruct n as [|n]; simpl in *; [lia|]. f_equal. apply IH. lia.
Qed.

(** The read of a turn, on an open socket with a delivery queued. *)
Lemma recv_chunk n data rest (s : state world) :
  st_open s = true ->
  st_inbox s = Chunk data :: rest ->
  String.length data <= N.to_nat n ->
  recv n s = (Ok data, mkState (st_world s) rest true (st_peer_up s)
                               (st_log s ++ [EvRecv n])).
Proof.
  intros Ho Hi Hl. unfold recv, bind, emit. simpl.
  rewrite Ho, Hi. simpl.
  apply Nat.leb_le in Hl. rewrite Hl.
  apply Nat.leb_le in Hl. now rewrite substring_whole.
Qed.

(** The three ways a turn over a delivered chunk ends. *)
Lemma turn_decoded buffer data rest command (s : state world) :
  st_open s = true ->
  st_inbox s = Chunk data :: rest ->
  String.length data <= 1024 ->
  data <> "" ->
  utf8_valid (buffer ++ data)%string = true ->
  json_loads (buffer ++ data)%string = Some command ->
  ServerPlugin.handle_turn buffer s
  = (Ok (ServerPlugin.Continue ""),
     mkState (st_world s) rest true (st_peer_up s)
             (st_log s ++ [EvRecv 1024; EvIdleAdd command])).
Proof.
  intros Ho Hi Hl Hne Hu Hj.
  unfold ServerPlugin.handle_turn, try_except.
  unfold bind at 1. rewrite (recv_chunk 1024 data rest s Ho Hi Hl).
  apply String.eqb_neq in Hne. rewrite Hne.
  unfold except_json, bind, decode, decode_utf8, loads,
    ServerPlugin.idle_add, emit.
  rewrite Hu. simpl. rewrite Hj. simpl.
  unfold add_log. simpl. now rewrite <- app_assoc.
Qed.

Lemma turn_json_incomplete buffer data rest (s : state world) :
  st_open s = true ->
  st_inbox s = Chunk data :: rest ->
  String.length data <= 1024 ->
  data <> "" ->
  utf8_valid (buffer ++ data)%string = true ->
  json_loads (buffer ++ data)%string = None ->
  ServerPlugin.handle_turn buffer s
  = (Ok (ServerPlugin.Continue (buffer ++ data)%string),
     mkState (st_world s) rest true (st_peer_up s)
             (st_log s ++ [EvRecv 1024])).
Proof.
  intros Ho Hi Hl Hne Hu Hj.
  unfold ServerPlugin.handle_turn, try_except.
  unfold bind at 1. rewrite (recv_chunk 1024 data rest s Ho Hi Hl).
  apply String.eqb_neq in Hne. rewrite Hne.
  unfold except_json, bind, decode, decode_utf8, loads.
  rewrite Hu. simpl. rewrite Hj. reflexivity.
Qed.

Lemma turn_utf8_incomplete buffer data rest (s : state world) :
  st_open s = true ->
  st_inbox s = Chunk data :: rest ->
  String.length data <= 1024 ->
  data <> "" ->
  utf8_valid (buffer ++ data)%string = false ->
  ServerPlugin.handle_turn buffer s
  = (Ok ServerPlugin.Break,
     mkState (st_world s) rest true (st_peer_up s)
             (st_log s ++ [EvRecv 1024])).
Proof.
  intros Ho Hi Hl Hne Hu.
  unfold ServerPlugin.handle_turn, try_except.
  unfold bind at 1. rewrite (recv_chunk 1024 data rest s Ho Hi Hl).
  apply String.eqb_neq in Hne. rewrite Hne.
  unfold except_json, bind, decode, decode_utf8.
  rewrite Hu. reflexivity.
Qed.

Lemma turn_end_of_stream buffer (s : state world) :
  st_open s = true ->
  st_inbox s = [] ->
  ServerPlugin.handle_turn buffer s
  = (Ok ServerPlugin.Break, add_log s [EvRecv 1024]).
Proof.
  intros Ho Hi. unfold ServerPlugin.handle_turn, try_except, recv, bind, emit.
  simpl. rewrite Ho, Hi. reflexivity.
Qed.

Lemma recv_takes_bytes n data (s : state world) :
  fst (recv n s) = Ok data ->
  data <> "" ->
  ServerPlugin.inbox_weight (st_inbox (snd (recv n s)))
  < ServerPlugin.inbox_weight (st_inbox s).
Proof.
  unfold recv, bind, emit. simpl.
  destruct (st_open s); simpl; [| discriminate].
  destruct (st_inbox s) as [|[chunk|e] rest]; simpl;
    [ intros [= <-] Hne; now destruct Hne | | discriminate ].
  remember (N.to_nat n) as k. intros [= <-] Hne.
  assert (0 < k).
  { destruct k; [| lia]. destruct chunk; now destruct Hne. }
  destruct (String.length chunk <=? k)%nat eqn:El; simpl.
  - lia.
  - pose proof (substring_length_le k (String.length chunk - k) chunk).
    apply Nat.leb_gt in El. lia.
Qed.

(** A turn never raises, and when it does not break it has taken bytes
    off the inbox. *)
Lemma turn_progress buffer (s : state world) :
  exists step s',
    ServerPlugin.handle_turn buffer s = (Ok step, s')
    /\ match step with
       | ServerPlugin.Break => True
       | ServerPlugin.Continue _ =>
           ServerPlugin.inbox_weight (st_inbox s')
           < ServerPlugin.inbox_weight (st_inbox s)
       end.
Proof.
  unfold ServerPlugin.handle_turn, try_except.
  unfold bind at 1.
  pose proof (recv_takes_bytes 1024) as Hw.
  destruct (recv 1024 s) as [[data|e] s1] eqn:Er;
    [| eexists _, _; split; [reflexivity | exact I]].
  specialize (Hw data s). rewrite Er in Hw. simpl in Hw.
  destruct (data =? "")%string eqn:Ee;
    [ eexists _, _; split; [reflexivity | exact I] |].
  apply String.eqb_neq in Ee. specialize (Hw eq_refl Ee).
  unfold except_json, bind, decode, loads, ServerPlugin.idle_add, emit, ret,
    raise.
  destruct (decode_utf8 (buffer ++ data)%string) as [text|e]; simpl.
  - destruct (json_loads text); simpl;
      eexists _, _; (split; [reflexivity | exact Hw]).
  - destruct e; eexists _, _; (split; [reflexivity | exact I || exact Hw]).
Qed.

(** The loop always ends with a [break] when given at least as many turns
    as [handle_client] gives it. *)
Theorem handle_loop_breaks fuel : forall buffer (s : state world),
  ServerPlugin.inbox_weight (st_inbox s) < fuel ->
  fst (ServerPlugin.handle_loop fuel buffer s) = Ok true.
Proof.
  induction fuel as [|fuel IH]; intros buffer s Hw; [lia|].
  simpl. unfold bind.
  destruct (turn_progress buffer s) as (step & s' & E & Hp). rewrite E.
  destruct step as [|buffer']; [reflexivity|].
  apply IH. lia.
Qed.

Lemma handle_loop_more_fuel fuel : forall fuel' buffer (s : state world),
  ServerPlugin.inbox_weight (st_inbox s) < fuel ->
  ServerPlugin.inbox_weight (st_inbox s) < fuel' ->
  ServerPlugin.handle_loop fuel buffer s
  = ServerPlugin.handle_loop fuel' buffer s.
Proof.
  induction fuel as [|fuel IH]; intros fuel' buffer s Hw Hw'; [lia|].
  destruct fuel' as [|fuel']; [lia|].
  simpl. unfold bind.
  destruct (turn_progress buffer s) as (step & s' & E & Hp). rewrite E.
  destruct step as [|buffer']; [reflexivity|].
  apply IH; lia.
Qed.

Theorem handle_client_returns (s : state world) :
  fst (ServerPlugin.handle_client s) = Ok true
  /\ st_open (snd (ServerPlugin.handle_client s)) = false.
Proof.
  pose proof (handle_loop_breaks (S (ServerPlugin.inbox_weight (st_inbox s)))
                "" s (Nat.lt_succ_diag_r _)) as Hb.
  unfold ServerPlugin.handle_client, bind. cbv beta iota.
  destruct (ServerPlugin.handle_loop _ "" s) as [r s'].
  simpl in Hb. subst r. split; reflexivity.
Qed.

End ReceiverFacts.

Section AccumulationFacts.
Context {world : Type} `{Host world} `{Codec}.

Lemma append_assoc (a b c : string) :
  ((a ++ b) ++ c = a ++ (b ++ c))%string.
Proof. induction a as [|x a IH]; simpl; [reflexivity | now rewrite IH]. Qed.

(** Accumulation when the partial data is text: while [json.loads] fails on
    the accumulated buffer the loop reads on, and it queues the command at
    the first buffer that decodes, starting again from an empty buffer. *)
Theorem server_plugin_accumulates :
  forall chunks last rest buffer command fuel (s : state world),
    st_open s = true ->
    st_inbox s = map Chunk chunks ++ Chunk last :: rest ->
    ServerPlugin.pending buffer chunks = true ->
    last <> "" ->
    String.length last <= 1024 ->
    utf8_valid (buffer ++ join chunks ++ last)%string = true ->
    json_loads (buffer ++ join chunks ++ last)%string = Some command ->
    ServerPlugin.handle_loop (List.length chunks + 1 + fuel) buffer s
    = ServerPlugin.handle_loop fuel ""
        (mkState (st_world s) rest true (st_peer_up s)
                 (st_log s ++ repeat (EvRecv 1024) (List.length chunks + 1)
                           ++ [EvIdleAdd command])).
Proof.
  induction chunks as [|c chunks IH];
    intros last rest buffer command fuel s Ho Hi Hp Hne Hl Hu Hj.
  - simpl in *. unfold bind.
    rewrite (turn_decoded buffer last rest command s Ho Hi Hl Hne Hu Hj).
    reflexivity.
  - simpl in Hp.
    apply andb_true_iff in Hp as [Hp Hrest].
    apply andb_true_iff in Hp as [Hp Hnone].
    apply andb_true_iff in Hp as [Hp Hutf].
    apply andb_true_iff in Hp as [Hc Hlen].
    apply negb_true_iff, String.eqb_neq in Hc.
    apply Nat.leb_le in Hlen.
    destruct (json_loads (buffer ++ c)%string) eqn:Hjc; [discriminate|].
    simpl in Hi. simpl. unfold bind at 1.
    rewrite (turn_json_incomplete buffer c _ s Ho Hi Hlen Hc Hutf Hjc).
    assert (Ea : (buffer ++ join (c :: chunks) ++ last
                  = (buffer ++ c) ++ join chunks ++ last)%string).
    { simpl. now rewrite !append_assoc. }
    rewrite Ea in Hu, Hj.
    rewrite (IH last rest (buffer ++ c)%string command fuel
                (mkState (st_world s) (map Chunk chunks ++ Chunk last :: rest)
                         true (st_peer_up s) (st_log s ++ [EvRecv 1024]))
                eq_refl eq_refl Hrest Hne Hl Hu Hj).
    simpl. rewrite <- !app_assoc. reflexivity.
Qed.

(** A command is handed to the idle queue only in a turn whose accumulated
    buffer decoded to it. *)
Theorem dispatch_only_after_decode :
  forall buffer (s : state world),
  exists added,
    st_log (snd (ServerPlugin.handle_turn buffer s)) = st_log s ++ added
    /\ forall command, In (EvIdleAdd command) added ->
         exists data,
           fst (recv 1024 s) = Ok data
           /\ utf8_valid (buffer ++ data)%string = true
           /\ json_loads (buffer ++ data)%string = Some command.
Proof.
  intros buffer s.
  destruct (recv_state 1024 s) as (_ & _ & L & _).
  unfold ServerPlugin.handle_turn, try_except.
  unfold bind at 1.
  destruct (recv 1024 s) as [[data|e] s1] eqn:Er; simpl in L.
  - destruct (data =? "")%string.
    + exists [EvRecv 1024]. split; [exact L|].
      intros command [Hin|[]]; discriminate.
    + unfold except_json, bind, decode, decode_utf8, loads,
        ServerPlugin.idle_add, emit, ret, raise.
      destruct (utf8_valid (buffer ++ data)%string) eqn:Hu; simpl.
      * destruct (json_loads (buffer ++ data)%string) as [cmd|] eqn:Hj; simpl.
        -- exists [EvRecv 1024; EvIdleAdd cmd]. rewrite L, <- app_assoc.
           split; [reflexivity|].
           intros command [Hin|[Hin|[]]]; [discriminate|].
           injection Hin as <-. exists data. auto.
        -- exists [EvRecv 1024]. split; [exact L|].
           intros command [Hin|[]]; discriminate.
      * exists [EvRecv 1024]. split; [exact L|].
        intros command [Hin|[]]; discriminate.
  - exists [EvRecv 1024]. split; [exact L|].
    intros command [Hin|[]]; discriminate.
Qed.

(** The missed case: a first chunk that ends inside a multi-byte character
    ends the connection; nothing is dispatched and the rest is not read. *)
Theorem server_plugin_stops_on_split_character :
  forall first rest (s : state world),
    st_open s = true ->
    st_inbox s = Chunk first :: rest ->
    first <> "" ->
    String.length first <= 1024 ->
    utf8_valid first = false ->
    ServerPlugin.handle_client s
    = (Ok true, mkState (st_world s) rest false (st_peer_up s)
                        (st_log s ++ [EvRecv 1024; EvClose])).
Proof.
  intros first rest s Ho Hi Hne Hl Hu.
  unfold ServerPlugin.handle_client, bind. cbv beta iota.
  rewrite Hi. simpl ServerPlugin.handle_loop. unfold bind.
  rewrite (turn_utf8_incomplete "" first rest s Ho Hi Hl Hne Hu).
  unfold ret, close. simpl. now rewrite <- app_assoc.
Qed.

End AccumulationFacts.

Section ControllerFacts.
Context `{Codec}.

Lemma close_socket_run (c : GimpConnection) sk :
  sock c = Some sk ->
  Controller._close_socket c
  = mkConn None (supply c) (calls c ++ [CShutdown (sk_id sk); CClose (sk_id sk)]).
Proof. intros E. unfold Controller._close_socket. now rewrite E. Qed.

(** A call on a manager without a socket starts by creating one and
    connecting it. *)
Lemma send_command_opens (c : GimpConnection) command_type params :
  sock c = None ->
  exists tail,
    calls (snd (Controller.send_command c command_type params))
    = calls c ++ CSocket (sk_id (fst (next_socket c)))
              :: CConnect (sk_id (fst (next_socket c))) :: tail.
Proof.
  intros E. unfold Controller.send_command, Controller.connect. rewrite E.
  destruct (next_socket c) as [sk rest]. simpl.
  destruct (sk_connect sk) as [[| msg | msg]|]; simpl.
  1-3: eexists; rewrite <- app_assoc; simpl; reflexivity.
  destruct (Controller.exchange sk _) as [[v|e] evs]; simpl;
    eexists; rewrite <- !app_assoc; simpl; reflexivity.
Qed.

Lemma send_command_discards (c : GimpConnection) command_type params :
  let c' := snd (Controller.send_command c command_type params) in
  let used := match sock c with
              | Some sk => sk
              | None => fst (next_socket c)
              end in
  sock c' = None
  /\ exists middle,
       calls c' = calls c ++ middle
                  ++ [CShutdown (sk_id used); CClose (sk_id used)].
Proof.
  intros c' used. subst c' used.
  unfold Controller.send_command, Controller.connect.
  destruct (sock c) as [sk|] eqn:E.
  - rewrite E.
    destruct (Controller.exchange sk _) as [[v|e] evs]; simpl;
      unfold Controller._close_socket; simpl; rewrite E; simpl;
      (split; [reflexivity | exists evs; now rewrite <- app_assoc]).
  - destruct (next_socket c) as [sk rest]. simpl.
    destruct (sk_connect sk) as [[| msg | msg]|]; simpl.
    1-3: split; [reflexivity|];
         exists [CSocket (sk_id sk); CConnect (sk_id sk)];
         now rewrite <- !app_assoc.
    destruct (Controller.exchange sk _) as [[v|e] evs]; simpl;
      (split; [reflexivity|];
       exists (CSocket (sk_id sk) :: CConnect (sk_id sk) :: evs);
       now rewrite <- !app_assoc).
Qed.

Lemma v0_send_command_opens (c : GimpConnection) command_type params :
  sock c = None ->
  exists tail,
    calls (snd (ControllerV0.send_command c command_type params))
    = calls c ++ CSocket (sk_id (fst (next_socket c)))
              :: CConnect (sk_id (fst (next_socket c))) :: tail.
Proof.
  intros E. unfold ControllerV0.send_command, ControllerV0.connect. rewrite E.
  destruct (next_socket c) as [sk rest]. simpl.
  destruct (sk_connect sk); simpl.
  - exists []. reflexivity.
  - destruct (ControllerV0.exchange sk _) as [[v|e] evs]; simpl.
    + destruct (decode_utf8 v); simpl;
        [destruct (json_loads a); simpl|];
        eexists; rewrite <- !app_assoc; simpl; reflexivity.
    + eexists; rewrite <- !app_assoc; simpl; reflexivity.
Qed.

(** The earlier manager drops its socket after every exchange it
    attempted ... *)
Theorem v0_send_command_discards_after_exchange :
  forall (c : GimpConnection) command_type params,
    (sock c = None -> sk_connect (fst (next_socket c)) = None) ->
    sock (snd (ControllerV0.send_command c command_type params)) = None.
Proof.
  intros c command_type params Hc.
  unfold ControllerV0.send_command, ControllerV0.connect.
  destruct (sock c) as [sk|] eqn:E.
  - rewrite E.
    destruct (ControllerV0.exchange sk _) as [[v|e] evs]; simpl; auto.
    destruct (decode_utf8 v); auto. destruct (json_loads a); auto.
  - specialize (Hc eq_refl).
    destruct (next_socket c) as [sk rest]. simpl in *. rewrite Hc. simpl.
    destruct (ControllerV0.exchange sk _) as [[v|e] evs]; simpl; auto.
    destruct (decode_utf8 v); auto. destruct (json_loads a); auto.
Qed.

(** ... but keeps the socket whose [connect] failed. *)
Theorem v0_failed_connect_keeps_the_socket :
  forall (c : GimpConnection) command_type params e,
    sock c = None ->
    sk_connect (fst (next_socket c)) = Some e ->
    sock (snd (ControllerV0.send_command c command_type params))
    = Some (fst (next_socket c)).
Proof.
  intros c command_type params e E Hc.
  unfold ControllerV0.send_command, ControllerV0.connect. rewrite E.
  destruct (next_socket c) as [sk rest]. simpl in *. now rewrite Hc.
Qed.

(** What C8 says holds of [src/gimp_mcp/server.py]: after every
    [send_command], however it ends, the stored socket is [None], the socket
    that was used has been shut down and closed, and the next call starts by
    creating and connecting a new socket.  The [send_command] of [server.py]
    leaves the stored socket [None] only after an exchange it attempted, that
    is, when it had or obtained a connection; what it does when the
    connection fails is [server_py_keeps_a_refused_socket]. *)
Theorem send_command_discards_the_socket :
  forall (c : GimpConnection) command_type params,
    (let c' := snd (Controller.send_command c command_type params) in
     let used := match sock c with
                 | Some sk => sk
                 | None => fst (next_socket c)
                 end in
     sock c' = None
     /\ (exists middle,
           calls c' = calls c ++ middle
                      ++ [CShutdown (sk_id used); CClose (sk_id used)])
     /\ (forall command_type' params',
           exists tail,
             calls (snd (Controller.send_command c' command_type' params'))
             = calls c' ++ CSocket (sk_id (fst (next_socket c')))
                        :: CConnect (sk_id (fst (next_socket c'))) :: tail))
    /\ ((sock c = None -> sk_connect (fst (next_socket c)) = None) ->
        let c' := snd (ControllerV0.send_command c command_type params) in
        sock c' = None
        /\ (forall command_type' params',
              exists tail,
                calls (snd (ControllerV0.send_command c' command_type' params'))
                = calls c' ++ CSocket (sk_id (fst (next_socket c')))
                           :: CConnect (sk_id (fst (next_socket c'))) :: tail)).
Proof.
  intros c command_type params. split.
  - destruct (send_command_discards c command_type params) as [Hnone Hmid].
    split; [exact Hnone | split; [exact Hmid|]].
    intros command_type' params'. now apply send_command_opens.
  - intros Hc.
    pose proof (v0_send_command_discards_after_exchange c command_type params Hc)
      as Hnone.
    split; [exact Hnone|].
    intros command_type' params'. now apply v0_send_command_opens.
Qed.

End ControllerFacts.

Section OneShotFacts.
Context {world : Type} `{Host world} `{Codec}.

Lemma host_events_no_socket evs :
  forallb is_host_event evs = true ->
  filter is_recv evs = [] /\ filter is_send evs = [].
Proof.
  induction evs as [|e evs IH]; simpl; [auto|].
  intros Hh. apply andb_true_iff in Hh as [He Hh].
  destruct (IH Hh) as [-> ->]. destruct e; simpl in *; auto; discriminate.
Qed.

Lemma closed_socket_refuses (s : state world) :
  st_open s = false ->
  (forall n, fst (recv n s) = Raise (OSError "Bad file descriptor"))
  /\ (forall d, fst (sendall d s) = Raise (OSError "Bad file descriptor")).
Proof.
  intros Hc. split; intros x.
  - unfold recv, bind, emit. simpl. now rewrite Hc.
  - unfold sendall. now rewrite Hc.
Qed.

(** Whatever arrives, the handler reads once and writes at most once. *)
Lemma plugin_handler_log (s : state world) :
  exists host_events reply,
    st_log (snd (Plugin._handle_client s))
    = st_log s ++ EvRecv 4096 :: host_events ++ reply
    /\ forallb is_host_event host_events = true
    /\ (reply = [] \/ exists text, reply = [EvSend text; EvClose]).
Proof.
  destruct (recv_state 4096 s) as (O1 & U1 & L1 & _).
  assert (Stop0 : forall s1 : state world,
             st_log s1 = st_log s ++ [EvRecv 4096] ->
             exists host_events reply,
               st_log s1 = st_log s ++ EvRecv 4096 :: host_events ++ reply
               /\ forallb is_host_event host_events = true
               /\ (reply = [] \/ exists text, reply = [EvSend text; EvClose])).
  { intros s1 L. exists [], []. rewrite L. auto. }
  assert (Stop1 : forall (s2 : state world) evs,
             st_log s2 = (st_log s ++ [EvRecv 4096]) ++ evs ->
             forallb is_host_event evs = true ->
             exists host_events reply,
               st_log s2 = st_log s ++ EvRecv 4096 :: host_events ++ reply
               /\ forallb is_host_event host_events = true
               /\ (reply = [] \/ exists text, reply = [EvSend text; EvClose])).
  { intros s2 evs L P. exists evs, []. rewrite L, <- app_assoc, app_nil_r.
    auto. }
  unfold Plugin._handle_client.
  unfold bind at 1. destruct (recv 4096 s) as [[data|e] s1]; simpl in *;
    [| now apply Stop0].
  unfold bind at 1. unfold decode, raise, ret.
  destruct (decode_utf8 data) as [text|e]; simpl; [| now apply Stop0].
  unfold bind at 1. unfold loads, raise, ret.
  destruct (json_loads text) as [request|]; simpl; [| now apply Stop0].
  unfold bind at 1.
  destruct (emits_plugin_execute_command request s1)
    as (evs & _ & O2 & U2 & L2 & P2).
  rewrite L1 in L2.
  destruct (Plugin.execute_command request s1) as [[response|e] s2];
    simpl in *; [| now apply (Stop1 s2 evs)].
  unfold bind at 1. unfold dumps, raise, ret.
  destruct (json_dumps response) as [out|]; simpl;
    [| now apply (Stop1 s2 evs)].
  unfold bind, sendall, close, emit.
  destruct (st_open s2); simpl; [| now apply (Stop1 s2 evs)].
  destruct (st_peer_up s2); simpl; [| now apply (Stop1 s2 evs)].
  exists evs, [EvSend out; EvClose]. rewrite L2, <- !app_assoc. simpl.
  split; [reflexivity | split; [exact P2 | right; eauto]].
Qed.

(** The handler of [gimp-mcp-plugin.py] reads once and writes at most one
    reply; when that read yields bytes that decode to a request, the response
    encodes and the peer is still there, it writes exactly one reply, whether
    the request succeeded or failed, and then closes the connection, after
    which [recv] and [sendall] on it fail in the socket layer. *)
Theorem plugin_replies_once_then_closes :
  forall (s : state world),
    (exists added,
       st_log (snd (Plugin._handle_client s)) = st_log s ++ added
       /\ List.length (filter is_recv added) = 1
       /\ List.length (filter is_send added) <= 1)
    /\ forall data request text,
         st_peer_up s = true ->
         fst (recv 4096 s) = Ok data ->
         utf8_valid data = true ->
         json_loads data = Some request ->
         let s1 := snd (recv 4096 s) in
         let response :=
           match fst (Plugin.execute_body request s1) with
           | Ok r => r
           | Raise e => Plugin.error_response e
           end in
         json_dumps response = Some text ->
         let out := Plugin._handle_client s in
         exists host_events,
           fst out = Ok tt
           /\ st_log (snd out)
              = st_log s ++ EvRecv 4096 :: host_events
                         ++ [EvSend text; EvClose]
           /\ forallb is_host_event host_events = true
           /\ st_open (snd out) = false
           /\ (forall n, fst (recv n (snd out))
                         = Raise (OSError "Bad file descriptor"))
           /\ (forall d, fst (sendall d (snd out))
                         = Raise (OSError "Bad file descriptor")).
Proof.
  intros s. split.
  - destruct (plugin_handler_log s) as (evs & reply & L & P & R).
    exists (EvRecv 4096 :: evs ++ reply). split; [exact L|].
    destruct (host_events_no_socket evs P) as [Hr Hs].
    simpl. rewrite !filter_app, Hr, Hs. simpl.
    destruct R as [-> | [text ->]]; simpl; split; lia.
  - intros data request text Hup Hrecv Hutf Hload s1 response Hdump out.
    pose proof (plugin_execute_command_total request s1) as Ht.
    fold response in Ht.
    assert (Hexec : fst (Plugin.execute_command request s1) = Ok response)
      by now rewrite Ht.
    pose proof (plugin_handler_run data request response text s
                  Hup Hrecv Hutf Hload Hexec Hdump) as Hrun.
    fold s1 in Hrun. fold out in Hrun.
    destruct (recv_state 4096 s) as (_ & _ & L1 & _). fold s1 in L1.
    destruct (emits_plugin_execute_command request s1)
      as (evs & _ & _ & _ & L2 & P2).
    exists evs. rewrite Hrun. simpl.
    split; [reflexivity|]. split; [| split; [exact P2 | split; [reflexivity|]]].
    + rewrite L2, L1, <- !app_assoc. reflexivity.
    + split; intros; reflexivity.
Qed.

(** The handler of [gimp-mcp-plugin.py] (C4 holds there): whatever the
    body of [execute_command] raises, the response has status "error", the
    text of the exception under [error] and a [traceback]; it encodes, is
    sent, and the connection is closed. *)
Theorem plugin_failure_is_answered :
  forall (s : state world) data request e,
    st_peer_up s = true ->
    fst (recv 4096 s) = Ok data ->
    utf8_valid data = true ->
    json_loads data = Some request ->
    let s1 := snd (recv 4096 s) in
    fst (Plugin.execute_body request s1) = Raise e ->
    let response :=
      VDict [(KStr "status", VStr "error");
             (KStr "error", VStr (exn_str e));
             (KStr "traceback", VStr (h_traceback e))] in
    fst (Plugin.execute_command request s1) = Ok response
    /\ exists text,
         json_dumps response = Some text
         /\ fst (Plugin._handle_client s) = Ok tt
         /\ st_log (snd (Plugin._handle_client s))
            = st_log (snd (Plugin.execute_body request s1))
              ++ [EvSend text; EvClose].
Proof.
  intros s data request e Hup Hrecv Hutf Hload s1 Hbody response.
  pose proof (plugin_execute_command_total request s1) as Ht.
  rewrite Hbody in Ht. change (Plugin.error_response e) with response in Ht.
  assert (Hexec : fst (Plugin.execute_command request s1) = Ok response)
    by now rewrite Ht.
  split; [exact Hexec|].
  destruct (json_dumps response) as [text|] eqn:Hd.
  - exists text. split; [reflexivity|].
    pose proof (plugin_handler_run data request response text s
                  Hup Hrecv Hutf Hload Hexec Hd) as Hrun.
    fold s1 in Hrun. rewrite Hrun. simpl. rewrite Ht. simpl. auto.
  - exfalso. revert Hd. apply json_dumps_wire. reflexivity.
Qed.

(** The plugin's dispatcher never lets an exception out. *)
Theorem plugin_execute_command_never_raises :
  forall request (s : state world),
  exists response, fst (Plugin.execute_command request s) = Ok response.
Proof.
  intros request s. rewrite plugin_execute_command_total.
  eexists. reflexivity.
Qed.

(** *** The responses of [gimp-mcp-server.py] *)

Lemma bind_ok_inv {A B} (m : M world A) (k : A -> M world B) s b s' :
  bind m k s = (Ok b, s') ->
  exists a s1, m s = (Ok a, s1) /\ k a s1 = (Ok b, s').
Proof.
  unfold bind. destruct (m s) as [[a|e] s1]; [eauto | discriminate].
Qed.

Lemma call_api_ok params response (s s' : state world) :
  ServerPlugin.call_api params s = (Ok response, s') ->
  exists result,
    response = VDict [(KStr "status", VStr "success"); (KStr "result", result)].
Proof.
  unfold ServerPlugin.call_api. intros E.
  repeat (apply bind_ok_inv in E as (? & ? & _ & E)).
  unfold ret in E. injection E as <- _. eauto.
Qed.

(** An error response of that plugin carries its text under [message];
    there is no field [error]. *)
Theorem server_plugin_errors_use_message :
  forall command kv (s : state world),
    fst (ServerPlugin.build_response command s) = Ok (VDict kv) ->
    dict_get (KStr "status") kv = Some (VStr "error") ->
    dict_get (KStr "error") kv = None
    /\ exists text, dict_get (KStr "message") kv = Some (VStr text).
Proof.
  intros command kv s E Hst.
  destruct (ServerPlugin.build_response command s) as [r s'] eqn:Eb.
  simpl in E. subst r.
  unfold ServerPlugin.build_response in Eb.
  apply bind_ok_inv in Eb as (cmd_type & s1 & _ & Eb).
  apply bind_ok_inv in Eb as (params & s2 & _ & Eb).
  unfold try_except in Eb.
  destruct (ServerPlugin.is_call_api cmd_type).
  - destruct (ServerPlugin.call_api params s2) as [[r|e] s3] eqn:Ec.
    + apply call_api_ok in Ec as [result ->].
      injection Eb as <- _. simpl in Hst. discriminate.
    + unfold ret in Eb. injection Eb as <- _. simpl. eauto.
  - unfold bind, py_str, read_world, ret in Eb. simpl in Eb.
    injection Eb as <- _. simpl. eauto.
Qed.

End OneShotFacts.

(** * The sample host at work *)

#[local] Existing Instance Sample.host.
#[local] Existing Instance Sample.codec.

(** Scenario A of the specification, on the plugin. *)
Example widget_name_is_returned :
  fst (Plugin.execute_command
         (call_request "Gimp.Widget.get_name" (VList []) (VDict []))
         (Sample.accepted []))
  = Ok (VDict [(KStr "status", VStr "success");
               (KStr "result", VStr "Sprocket")]).
Proof. reflexivity. Qed.

(** Scenario B: the error names the missing method. *)
Example missing_method_is_named :
  fst (Plugin.execute_command
         (call_request "Gimp.Widget.missing_method" (VList []) (VDict []))
         (Sample.accepted []))
  = Ok (Plugin.error_response
          (AttributeError "type object 'Widget'" "missing_method")).
Proof. reflexivity. Qed.

(** Scenario C: a receive that times out is reported and the manager is left
    without a socket. *)
Example timeout_resets_the_manager :
  Controller.send_command (Sample.manager [RecvError NetTimeout])
    (VStr "call_api") (VDict [])
  = (Raise (Exception
      "Error communicating with GIMP: Timeout receiving data from GIMP."),
     mkConn None []
       [CSocket 1; CConnect 1;
        CSendall 1
          (Sample.render (Controller.command_of (VStr "call_api") (VDict [])));
        CRecv 1; CShutdown 1; CClose 1]).
Proof. reflexivity. Qed.

(** The manager of [server.py] keeps the socket whose connection was
    refused. *)
Example v0_refused_connection_stays_cached :
  sock (snd (ControllerV0.send_command
               (mkConn None
                  [mkSocket 1 (Some (NetError "Connection refused")) None []] [])
               (VStr "call_api") (VDict [])))
  = Some (mkSocket 1 (Some (NetError "Connection refused")) None []).
Proof. reflexivity. Qed.

(** [gimp-mcp-server.py] keeps the connection after a dispatch: two requests
    on one connection are both queued for execution. *)
Example server_plugin_answers_a_second_request :
  let first :=
    Sample.render (call_request "Gimp.Widget.get_name" (VList []) (VDict [])) in
  let second :=
    Sample.render (call_request "Gimp.Image.get_by_id" (VList [VInt 5])
                     (VDict [])) in
  filter is_idle_add
    (st_log (snd (ServerPlugin.handle_client
                    (Sample.accepted [Chunk first; Chunk second]))))
  = [EvIdleAdd (call_request "Gimp.Widget.get_name" (VList []) (VDict []));
     EvIdleAdd (call_request "Gimp.Image.get_by_id" (VList [VInt 5])
                  (VDict []))].
Proof. reflexivity. Qed.

(** The six scalars of the specification's property P5 through the
    serializer of the plugin. *)
Example six_scalars_serialized :
  map (fun v => fst (Plugin.serialize_result v (Sample.accepted [])))
      [VNone; VBool true; VBool false; VInt 42; VFloat Sample.float_3_14;
       VStr "text"]
  = [Ok (VStr "None"); Ok (VStr "True"); Ok (VStr "False"); Ok (VStr "42");
     Ok (VStr "3.14"); Ok (VStr "text")].
Proof. reflexivity. Qed.

(** C1 fails as stated: the integer 42 comes back as the string "42", from
    either plugin. *)
Lemma scalar_int_is_stringified :
  fst (Plugin.serialize_result (VInt 42) (Sample.accepted [])) = Ok (VStr "42")
  /\ fst (Plugin.serialize_result (VInt 42) (Sample.accepted [])) <> Ok (VInt 42)
  /\ fst (ServerPlugin.serialize_result (VInt 42) (Sample.accepted []))
     <> Ok (VInt 42).
Proof. repeat split; discriminate. Qed.

(** C2 on [gimp-mcp-server.py]: the path [Gimp.Widget.get_name] fails on its
    first segment, which that resolver looks up on the root instead of
    discarding; the resolver of [gimp-mcp-plugin.py] reaches the method. *)
Lemma server_plugin_looks_up_the_root_name :
  fst (ServerPlugin.resolve (VStr "Gimp.Widget.get_name") (Sample.accepted []))
  = Raise (AttributeError "'gi.repository.Gimp' object" "Gimp")
  /\ fst (Plugin.resolve (VStr "Gimp.Widget.get_name") (Sample.accepted []))
     = Ok Sample.Widget_get_name.
Proof. split; reflexivity. Qed.

(** C3 fails as stated: with [image_id] 0 in [kwargs] no lookup by id is made
    and the callable receives [image_id] as a keyword argument. *)
Lemma zero_image_id_is_passed_on :
  st_log (snd (Plugin.execute_command
                 (call_request "Gimp.echo" (VList [])
                    (VDict [(KStr "image_id", VInt 0)]))
                 (Sample.accepted [])))
  = [EvGetattr Sample.Gimp "echo";
     EvCall Sample.echo [] [("image_id", VInt 0)]].
Proof. reflexivity. Qed.

(** C4 on [gimp-mcp-server.py]: the response to a request that fails carries
    its text under [message] and has no field [error]; and a command that is
    not a JSON object makes [execute_command] raise before anything is
    sent. *)
Lemma server_plugin_error_has_no_error_field :
  fst (ServerPlugin.build_response
         (call_request "Widget.missing_method" (VList []) (VDict []))
         (Sample.accepted []))
  = Ok (VDict
          [(KStr "status", VStr "error");
           (KStr "message",
            VStr "type object 'Widget' has no attribute 'missing_method'");
           (KStr "traceback",
            VStr (h_traceback
                    (AttributeError "type object 'Widget'" "missing_method")))])
  /\ ServerPlugin.execute_command (VList []) (Sample.accepted [])
     = (Raise (AttributeError "'list' object" "get"), Sample.accepted []).
Proof. split; reflexivity. Qed.

(** On a connection whose bytes do not decode the handler of
    [gimp-mcp-plugin.py] raises; it has written no reply and has not closed
    the socket. *)
Lemma undecodable_request_gets_no_reply :
  Plugin._handle_client (Sample.accepted [Chunk "[1, 2"])
  = (Raise JSONDecodeError, mkState tt [] true true [EvRecv 4096]).
Proof. reflexivity. Qed.

(** C6 on [gimp-mcp-server.py]: the image returned by [get_by_id] has an [id]
    of 5, yet the result sent is the text of the object; the dispatcher of
    [gimp-mcp-plugin.py] sends the handle. *)
Lemma server_plugin_stringifies_object_with_id :
  lookup tt (Sample.image_of 5) "id" = Some (VInt 5)
  /\ fst (ServerPlugin.build_response
            (call_request "Image.get_by_id" (VList [VInt 5]) (VDict []))
            (Sample.accepted []))
     = Ok (VDict [(KStr "status", VStr "success");
                  (KStr "result", VStr "<Gimp.Image object>")])
  /\ fst (Plugin.execute_command
            (call_request "Gimp.Image.get_by_id" (VList [VInt 5]) (VDict []))
            (Sample.accepted []))
     = Ok (VDict [(KStr "status", VStr "success");
                  (KStr "result", VDict [(KStr "id", VInt 5)])]).
Proof. repeat split. Qed.

(** C7 on a request cut inside a two-byte character: the two chunks together
    are UTF-8 text that decodes to a request, the first alone is not UTF-8
    text; the receiver reads the first, stops reading, closes, and queues
    nothing; the second chunk stays unread. *)
Lemma split_character_ends_the_connection :
  (Sample.cafe_head ++ Sample.cafe_tail)%string = Sample.cafe_text
  /\ json_loads Sample.cafe_text = Some Sample.cafe_request
  /\ utf8_valid Sample.cafe_text = true
  /\ utf8_valid Sample.cafe_head = false
  /\ ServerPlugin.handle_client
       (Sample.accepted [Chunk Sample.cafe_head; Chunk Sample.cafe_tail])
     = (Ok true,
        mkState tt [Chunk Sample.cafe_tail] false true [EvRecv 1024; EvClose]).
Proof. repeat split. Qed.

(** ** The theorems at concrete requests *)

(** C8 on [server.py]: a connection that is refused leaves the socket object
    stored in the manager.  The next call creates no socket and calls no
    [connect]: it writes to the socket that never connected, fails, and only
    then drops it; the socket the system would hand out next is not used.
    The manager of [src/gimp_mcp/server.py] shuts down and closes the refused
    socket at once, stores [None], and its next call opens a new
    connection. *)
Theorem server_py_keeps_a_refused_socket :
  let dead := mkSocket 1 (Some (NetError "Connection refused"))
                (Some (NetError "Broken pipe")) [] in
  let reply := Sample.render Replies.sprocket in
  let fresh := mkSocket 2 None None [Data reply] in
  let text :=
    Sample.render (Controller.command_of (VStr "call_api") (VDict [])) in
  let c := mkConn None [dead; fresh] [] in
  let first :=
    ControllerV0.send_command (H := Replies.codec) c (VStr "call_api")
      (VDict []) in
  let second :=
    ControllerV0.send_command (H := Replies.codec) (snd first)
      (VStr "call_api") (VDict []) in
  let first' :=
    Controller.send_command (H := Replies.codec) c (VStr "call_api")
      (VDict []) in
  let second' :=
    Controller.send_command (H := Replies.codec) (snd first')
      (VStr "call_api") (VDict []) in
  (fst first
   = Raise (ConnectionError
              "Could not connect to GIMP. Ensure the MCP Server plugin is running.")
   /\ sock (snd first) = Some dead
   /\ calls (snd first) = [CSocket 1; CConnect 1]
   /\ fst second
      = Raise (Exception "Error communicating with GIMP: Broken pipe")
   /\ calls (snd second) = [CSocket 1; CConnect 1; CSendall 1 text]
   /\ supply (snd second) = [fresh])
  /\ (sock (snd first') = None
      /\ calls (snd first')
         = [CSocket 1; CConnect 1; CShutdown 1; CClose 1]
      /\ fst second' = Ok Replies.sprocket
      /\ calls (snd second')
         = [CSocket 1; CConnect 1; CShutdown 1; CClose 1;
            CSocket 2; CConnect 2; CSendall 2 text; CRecv 2; CRecv 2;
            CShutdown 2; CClose 2]).
Proof. cbv zeta. repeat split. Qed.

(** [image_id] 7 with [Gimp.Image.get_width], which declares [image]: image 7
    replaces the placeholder argument and the keyword [unit] alone is passed. *)
Lemma truthy_image_id_is_injected_witness :
  exists tail,
    st_log (snd (Plugin.execute_command
                   (call_request "Gimp.Image.get_width" (VList [VNone])
                      (VDict [(KStr "image_id", VInt 7);
                              (KStr "unit", VStr "px")]))
                   (Sample.accepted [])))
    = [] ++ EvGetById (VInt 7)
         :: [EvGetattr Sample.Gimp "Image"; EvGetattr Sample.Image "get_width"]
         ++ EvCall Sample.Image_get_width [Sample.image_of 7]
                   [("unit", VStr "px")]
         :: tail
    /\ forallb is_read tail = true.
Proof.
  refine (proj2 (truthy_image_id_is_injected (Sample.accepted [])
                   "Gimp.Image.get_width" (VList [VNone])
                   [(KStr "image_id", VInt 7); (KStr "unit", VStr "px")]
                   (VInt 7) _ _)
            VNone [] [("image_id", VInt 7); ("unit", VStr "px")]
            (Sample.image_of 7) Sample.Image_get_width ["image"]
            _ _ _ _ _ _ _);
    reflexivity.
Defined.

(** [image_id] 0 with [Gimp.echo]: nothing is looked up and [echo] receives
    [image_id] as a keyword. *)
Lemma falsy_image_id_passes_through_witness :
  Plugin.extract_image (VDict [(KStr "image_id", VInt 0)]) (Sample.accepted [])
  = (Ok (VNone, VDict [(KStr "image_id", VInt 0)]), Sample.accepted [])
  /\ exists tail,
       st_log (snd (Plugin.execute_command
                      (call_request "Gimp.echo" (VList [])
                         (VDict [(KStr "image_id", VInt 0)]))
                      (Sample.accepted [])))
       = [] ++ ([EvGetattr Sample.Gimp "echo"]
                ++ EvCall Sample.echo [] [("image_id", VInt 0)] :: tail)
       /\ forallb is_read tail = true
       /\ In ("image_id", VInt 0) [("image_id", VInt 0)]
       /\ (forall x, ~ In (EvGetById x)
                        ([EvGetattr Sample.Gimp "echo"]
                         ++ EvCall Sample.echo [] [("image_id", VInt 0)]
                         :: tail)).
Proof.
  refine (falsy_image_id_passes_through (Sample.accepted []) "Gimp.echo" []
            [(KStr "image_id", VInt 0)] [("image_id", VInt 0)] (VInt 0)
            Sample.echo ["kwargs"] _ _ _ _ _ _ _ _);
    try reflexivity.
  simpl. discriminate.
Defined.

(** [image_id] 7 with [Gimp.Image.get_width] and no positional argument. *)
Lemma empty_args_splice_is_an_error_witness :
  let out := Plugin.execute_command
               (call_request "Gimp.Image.get_width" (VList [])
                  (VDict [(KStr "image_id", VInt 7)]))
               (Sample.accepted []) in
  fst out
  = Ok (VDict [(KStr "status", VStr "error");
               (KStr "error", VStr "list assignment index out of range");
               (KStr "traceback",
                VStr (h_traceback
                        (IndexError "list assignment index out of range")))])
  /\ st_log (snd out)
     = [] ++ [EvGetById (VInt 7); EvGetattr Sample.Gimp "Image";
              EvGetattr Sample.Image "get_width"]
  /\ existsb is_call [EvGetById (VInt 7); EvGetattr Sample.Gimp "Image";
                      EvGetattr Sample.Image "get_width"] = false.
Proof.
  refine (empty_args_splice_is_an_error (Sample.accepted [])
            "Gimp.Image.get_width" [(KStr "image_id", VInt 7)] (VInt 7)
            (Sample.image_of 7) Sample.Image_get_width ["image"]
            _ _ _ _ _ _ _ _);
    reflexivity.
Defined.

(** A peer that sends the same request twice on one connection gets one
    reply; the second copy stays unread. *)
Lemma plugin_replies_once_then_closes_witness :
  let text := Sample.render
                (call_request "Gimp.Widget.get_name" (VList []) (VDict [])) in
  let reply := Sample.render (Plugin.success_response (VStr "Sprocket")) in
  let out := Plugin._handle_client
               (Sample.accepted [Chunk text; Chunk text]) in
  exists host_events,
    fst out = Ok tt
    /\ st_log (snd out)
       = [] ++ EvRecv 4096 :: host_events ++ [EvSend reply; EvClose]
    /\ forallb is_host_event host_events = true
    /\ st_open (snd out) = false
    /\ (forall n, fst (recv n (snd out)) = Raise (OSError "Bad file descriptor"))
    /\ (forall d, fst (sendall d (snd out))
                  = Raise (OSError "Bad file descriptor")).
Proof.
  intros text reply out.
  refine (proj2 (plugin_replies_once_then_closes
                   (Sample.accepted [Chunk text; Chunk text]))
            text (call_request "Gimp.Widget.get_name" (VList []) (VDict []))
            reply _ _ _ _ _);
    reflexivity.
Defined.

(** The manager of [server.py] after an exchange that succeeded. *)
Lemma send_command_discards_the_socket_witness :
  let reply :=
    Sample.render (Plugin.success_response (VStr "Sprocket")) in
  let c := Sample.manager [Data reply] in
  let c' := snd (ControllerV0.send_command c (VStr "call_api") (VDict [])) in
  sock c' = None
  /\ (forall command_type' params',
        exists tail,
          calls (snd (ControllerV0.send_command c' command_type' params'))
          = calls c' ++ CSocket (sk_id (fst (next_socket c')))
                     :: CConnect (sk_id (fst (next_socket c'))) :: tail).
Proof.
  intros reply c c'.
  refine (proj2 (send_command_discards_the_socket c (VStr "call_api") (VDict []))
            _).
  reflexivity.
Defined.

(** * More facts *)

(** ** The dispatcher of [gimp-mcp-plugin.py] *)

Section DispatcherEdges.
Context {world : Type} `{Host world} `{Codec}.

(** X1: a request in the old format (the fields [api_path], [args] and
    [kwargs] at the top level, no [params] or an empty one) is executed
    exactly like the request of the new format with the same fields. *)
Theorem old_request_format_is_equivalent :
  forall (s : state world) kv p,
    (dict_get (KStr "params") kv = None
     \/ dict_get (KStr "params") kv = Some (VDict [])) ->
    dict_get (KStr "api_path") kv = Some (VStr p) ->
    let args := match dict_get (KStr "args") kv with
                | Some a => a
                | None => VList []
                end in
    let kwargs := match dict_get (KStr "kwargs") kv with
                  | Some k => k
                  | None => VDict []
                  end in
    Plugin.execute_command (VDict kv) s
    = Plugin.execute_command (call_request p args kwargs) s.
Proof.
  intros s kv p Hparams Hpath args kwargs.
  unfold Plugin.execute_command. f_equal.
  rewrite execute_body_call_request.
  unfold Plugin.execute_body, py_get.
  assert (Hp : match dict_get (KStr "params") kv with
               | Some v => v
               | None => VDict []
               end = VDict []) by (destruct Hparams as [-> | ->]; reflexivity).
  rewrite Hp. simpl. rewrite Hpath. reflexivity.
Qed.

Lemma split_dotless q :
  dotless q = true -> split "." q = [q].
Proof.
  induction q as [|c q IH]; simpl; [reflexivity|].
  intros Hd. apply andb_true_iff in Hd as [Hc Hq].
  apply negb_true_iff in Hc. rewrite Hc, (IH Hq). reflexivity.
Qed.

Lemma split_first_segment q r :
  dotless q = true ->
  split "." (q ++ String "."%char r)%string = q :: split "." r.
Proof.
  induction q as [|c q IH]; simpl; [reflexivity|].
  intros Hd. apply andb_true_iff in Hd as [Hc Hq].
  apply negb_true_iff in Hc. rewrite Hc, (IH Hq). reflexivity.
Qed.

(** X2: the first segment of a path is never looked at: two paths that
    differ only in it resolve alike, and a path without a dot (the empty
    path included) resolves to the root itself without any lookup. *)
Theorem first_segment_is_not_checked :
  forall (s : state world) q q' r,
    dotless q = true ->
    dotless q' = true ->
    Plugin.resolve (VStr (q ++ String "."%char r)%string) s
    = Plugin.resolve (VStr (q' ++ String "."%char r)%string) s
    /\ Plugin.resolve (VStr q) s = (Ok h_root, s).
Proof.
  intros s q q' r Hq Hq'. split.
  - rewrite !plugin_resolve_run, !split_first_segment by assumption.
    reflexivity.
  - rewrite plugin_resolve_run, split_dotless by assumption.
    simpl. reflexivity.
Qed.




End DispatcherEdges.

Section WireShapes.
Context {world : Type} `{Host world} `{Codec}.

Lemma mapM_forallb {A B} (f : A -> M world B) (P : B -> bool) :
  (forall x s y s', f x s = (Ok y, s') -> P y = true) ->
  forall xs s ys s', mapM f xs s = (Ok ys, s') -> forallb P ys = true.
Proof.
  intros Hf. induction xs as [|x xs IH]; intros s ys s' E; simpl in E.
  - unfold ret in E. injection E as <- _. reflexivity.
  - apply bind_ok_inv in E as (y & s1 & Ey & E).
    apply bind_ok_inv in E as (ys' & s2 & Eys & E).
    unfold ret in E. injection E as <- _. simpl.
    rewrite (Hf _ _ _ _ Ey), (IH _ _ _ Eys). reflexivity.
Qed.

Lemma plugin_item_shape obj (s : state world) r s' :
  Plugin.serialize_gimp_object obj s = (Ok r, s') ->
  is_text r || is_tagged_handle r = true.
Proof.
  unfold Plugin.serialize_gimp_object. intros E.
  apply bind_ok_inv in E as (cls & s1 & _ & E).
  destruct (String.eqb cls "Image").
  - apply bind_ok_inv in E as (id & s2 & _ & E).
    apply bind_ok_inv in E as (cls' & s3 & _ & E).
    unfold ret in E. injection E as <- _. reflexivity.
  - apply bind_ok_inv in E as (text & s2 & _ & E).
    unfold ret in E. injection E as <- _. reflexivity.
Qed.

Lemma server_item_shape obj (s : state world) r s' :
  ServerPlugin.serialize_gimp_object obj s = (Ok r, s') ->
  is_text r || is_tagged_handle r = true.
Proof.
  unfold ServerPlugin.serialize_gimp_object. intros E.
  apply bind_ok_inv in E as (has_id & s1 & _ & E).
  destruct has_id.
  - apply bind_ok_inv in E as (id & s2 & _ & E).
    apply bind_ok_inv in E as (cls & s3 & _ & E).
    unfold ret in E. injection E as <- _. reflexivity.
  - apply bind_ok_inv in E as (text & s2 & _ & E).
    unfold ret in E. injection E as <- _. reflexivity.
Qed.

Lemma plugin_serialize_shape v (s : state world) r s' :
  Plugin.serialize_result v s = (Ok r, s') -> is_serialized r = true.
Proof.
  unfold Plugin.serialize_result. intros E.
  apply bind_ok_inv in E as (has_id & s1 & _ & E).
  destruct has_id.
  - apply bind_ok_inv in E as (id & s2 & _ & E).
    unfold ret in E. injection E as <- _. reflexivity.
  - destruct v;
      try (apply bind_ok_inv in E as (text & s2 & _ & E);
           unfold ret in E; injection E as <- _; reflexivity).
    apply bind_ok_inv in E as (out & s2 & Eo & E).
    unfold ret in E. injection E as <- _. simpl.
    exact (mapM_forallb _ _ plugin_item_shape _ _ _ _ Eo).
Qed.

Lemma server_serialize_shape v (s : state world) r s' :
  ServerPlugin.serialize_result v s = (Ok r, s') -> is_serialized r = true.
Proof.
  unfold ServerPlugin.serialize_result. intros E.
  apply bind_ok_inv in E as (has_id & s1 & _ & E).
  destruct has_id.
  - apply bind_ok_inv in E as (id & s2 & _ & E).
    unfold ret in E. injection E as <- _. reflexivity.
  - destruct v;
      try (apply bind_ok_inv in E as (text & s2 & _ & E);
           unfold ret in E; injection E as <- _; reflexivity).
    apply bind_ok_inv in E as (out & s2 & Eo & E).
    unfold ret in E. injection E as <- _. simpl.
    exact (mapM_forallb _ _ server_item_shape _ _ _ _ Eo).
Qed.

Lemma plugin_body_shape request (s s' : state world) response :
  Plugin.execute_body request s = (Ok response, s') ->
  exists result,
    response = Plugin.success_response result
    /\ is_serialized result = true.
Proof.
  intros Eb. unfold Plugin.execute_body in Eb.
  apply bind_ok_inv in Eb as (params & s1 & _ & Eb).
  apply bind_ok_inv in Eb as (api_path & s2 & _ & Eb).
  apply bind_ok_inv in Eb as (args & s3 & _ & Eb).
  apply bind_ok_inv in Eb as (kwargs & s4 & _ & Eb).
  apply bind_ok_inv in Eb as ([[api_path' args'] kwargs'] & s5 & _ & Eb).
  apply bind_ok_inv in Eb as ([image kwargs''] & s6 & _ & Eb).
  apply bind_ok_inv in Eb as (current & s7 & _ & Eb).
  apply bind_ok_inv in Eb as (result & s8 & _ & Eb).
  apply bind_ok_inv in Eb as (result' & s9 & Es & Eb).
  unfold ret in Eb. injection Eb as <- _.
  exists result'. split; [reflexivity|].
  exact (plugin_serialize_shape _ _ _ _ Es).
Qed.

(** X4: whatever the host returns, the result a plugin puts in a success
    response is a string, an object with the single field [id], or a list
    whose elements are strings or objects with the fields [id] and [type];
    never a number, a boolean, null or a nested list. *)
Theorem results_are_text_and_handles :
  forall (s : state world) request response,
    (fst (Plugin.execute_body request s) = Ok response ->
     exists result,
       response = VDict [(KStr "status", VStr "success");
                         (KStr "result", result)]
       /\ is_serialized result = true)
    /\ (fst (ServerPlugin.call_api request s) = Ok response ->
        exists result,
          response = VDict [(KStr "status", VStr "success");
                            (KStr "result", result)]
          /\ is_serialized result = true).
Proof.
  intros s request response. split; intros E.
  - destruct (Plugin.execute_body request s) as [r s'] eqn:Eb.
    simpl in E. subst r. exact (plugin_body_shape _ _ _ _ Eb).
  - destruct (ServerPlugin.call_api request s) as [r s'] eqn:Eb.
    simpl in E. subst r. unfold ServerPlugin.call_api in Eb.
    apply bind_ok_inv in Eb as (api_path & s1 & _ & Eb).
    apply bind_ok_inv in Eb as (args & s2 & _ & Eb).
    apply bind_ok_inv in Eb as (kwargs & s3 & _ & Eb).
    apply bind_ok_inv in Eb as (module & s4 & _ & Eb).
    apply bind_ok_inv in Eb as (positional & s5 & _ & Eb).
    apply bind_ok_inv in Eb as (keyword & s6 & _ & Eb).
    apply bind_ok_inv in Eb as (result & s7 & _ & Eb).
    apply bind_ok_inv in Eb as (result' & s8 & Es & Eb).
    unfold ret in Eb. injection Eb as <- _.
    exists result'. split; [reflexivity|].
    exact (server_serialize_shape _ _ _ _ Es).
Qed.

End WireShapes.

(** ** The handler of [gimp-mcp-plugin.py] *)

Section HandlerEdges.
Context {world : Type} `{Host world} `{Codec}.

(** X5: the handler closes the connection exactly when it has replied.  A run
    that ends normally has written one reply and then closed the socket; a
    run that raises (the read fails, the bytes do not decode, the response
    does not encode, the peer is gone) has written nothing and has left the
    socket as it was. *)
Theorem handler_closes_exactly_when_it_replied :
  forall (s : state world),
    let out := Plugin._handle_client s in
    exists host_events,
      forallb is_host_event host_events = true
      /\ match fst out with
         | Ok _ =>
             exists text,
               st_log (snd out)
               = st_log s ++ EvRecv 4096 :: host_events
                          ++ [EvSend text; EvClose]
               /\ st_open s = true
               /\ st_open (snd out) = false
         | Raise _ =>
             st_log (snd out) = st_log s ++ EvRecv 4096 :: host_events
             /\ st_open (snd out) = st_open s
         end.
Proof.
  intros s. cbv zeta.
  destruct (recv_state 4096 s) as (O1 & U1 & L1 & _).
  remember (Plugin._handle_client s) as out eqn:E.
  unfold Plugin._handle_client in E.
  unfold bind at 1 in E. destruct (recv 4096 s) as [[data|e] s1]; simpl in *;
    [| subst out; exists []; simpl; auto].
  unfold bind at 1 in E. unfold decode, raise, ret in E.
  destruct (decode_utf8 data) as [text|e]; simpl in E;
    [| subst out; exists []; simpl; auto].
  unfold bind at 1 in E. unfold loads, raise, ret in E.
  destruct (json_loads text) as [request|]; simpl in E;
    [| subst out; exists []; simpl; auto].
  unfold bind at 1 in E.
  destruct (emits_plugin_execute_command request s1)
    as (evs & _ & O2 & U2 & L2 & P2).
  rewrite L1, <- app_assoc in L2. rewrite O1 in O2. simpl in L2.
  destruct (Plugin.execute_command request s1) as [[response|e] s2];
    simpl in *;
    [| subst out; exists evs; simpl; auto].
  unfold bind at 1 in E. unfold dumps, raise, ret in E.
  destruct (json_dumps response) as [reply|]; simpl in E;
    [| subst out; exists evs; simpl; auto].
  unfold bind, sendall, close, emit in E.
  destruct (st_open s2) eqn:Eo; simpl in E;
    [| subst out; exists evs; simpl; rewrite Eo; auto].
  destruct (st_peer_up s2); simpl in E;
    [| subst out; exists evs; simpl; rewrite Eo; auto].
  subst out. exists evs. split; [exact P2|]. exists reply. simpl.
  rewrite L2, <- !app_assoc. simpl. auto.
Qed.

(** X6: a request longer than 4096 bytes whose first 4096 bytes do not
    decode is not answered: the handler raises after its single read, writes
    nothing, leaves the socket open and the rest of the bytes unread. *)
Theorem oversized_request_is_not_answered :
  forall (s : state world) data rest,
    st_open s = true ->
    st_inbox s = Chunk data :: rest ->
    4096 < String.length data ->
    (utf8_valid (substring 0 4096 data) = false
     \/ json_loads (substring 0 4096 data) = None) ->
    let out := Plugin._handle_client s in
    (fst out = Raise UnicodeDecodeError \/ fst out = Raise JSONDecodeError)
    /\ st_log (snd out) = st_log s ++ [EvRecv 4096]
    /\ st_open (snd out) = true
    /\ st_inbox (snd out)
       = Chunk (substring 4096 (String.length data - 4096) data) :: rest.
Proof.
  intros s data rest Ho Hi Hl Hbad. cbv zeta.
  assert (Hr : recv 4096 s
               = (Ok (substring 0 4096 data),
                  mkState (st_world s)
                    (Chunk (substring 4096 (String.length data - 4096) data)
                       :: rest)
                    true (st_peer_up s) (st_log s ++ [EvRecv 4096]))).
  { unfold recv, bind, emit. simpl. rewrite Ho, Hi. simpl.
    change (Pos.to_nat 4096) with 4096.
    apply Nat.leb_gt in Hl. rewrite Hl. reflexivity. }
  remember (Plugin._handle_client s) as out eqn:E.
  unfold Plugin._handle_client in E.
  unfold bind at 1 in E. rewrite Hr in E. cbv beta iota in E.
  unfold bind at 1 in E. unfold decode, decode_utf8, raise, ret in E.
  change (String.append EmptyString (substring 0 4096 data))
    with (substring 0 4096 data) in E.
  destruct (utf8_valid (substring 0 4096 data)) eqn:Hu.
  - destruct Hbad as [Hbad | Hbad]; [discriminate|].
    cbv beta iota in E.
    unfold bind at 1 in E. unfold loads, raise, ret in E.
    rewrite Hbad in E. cbv beta iota in E. subst out.
    unfold fst, snd, st_log, st_open, st_inbox. auto.
  - cbv beta iota in E. subst out.
    unfold fst, snd, st_log, st_open, st_inbox. auto.
Qed.

End HandlerEdges.

(** ** The command type, and the receiver of [gimp-mcp-server.py] *)

Section ReceiverEdges.
Context {world : Type} `{Host world} `{Codec}.

(** X7: [gimp-mcp-server.py] answers a command whose type is not
    [call_api] (or is missing: then it shows as [None]) with the error
    [Unknown command: <type>] and does nothing on the host;
    [gimp-mcp-plugin.py] never looks at the type: a request is executed the
    same with any [type] field or without one. *)
Theorem command_type_is_checked_by_one_plugin_only :
  forall (s : state world) kv t,
    (dict_get (KStr "type") kv = Some t ->
     ServerPlugin.is_call_api t = false ->
     exists shown,
       fst (py_str t s) = Ok shown
       /\ ServerPlugin.build_response (VDict kv) s
          = (Ok (VDict [(KStr "status", VStr "error");
                        (KStr "message",
                         VStr ("Unknown command: " ++ shown)%string)]), s))
    /\ (dict_get (KStr "type") kv = None ->
        ServerPlugin.build_response (VDict kv) s
        = (Ok (VDict [(KStr "status", VStr "error");
                      (KStr "message", VStr "Unknown command: None")]), s))
    /\ Plugin.execute_command (VDict ((KStr "type", t) :: kv)) s
       = Plugin.execute_command (VDict kv) s.
Proof.
  intros s kv t. split; [| split].
  - intros Ht Hc.
    exists (match fst (py_str t s) with Ok x => x | Raise _ => ""%string end).
    split; [reflexivity|].
    unfold ServerPlugin.build_response, py_get, try_except, bind, ret.
    rewrite Ht, Hc. reflexivity.
  - intros Ht.
    unfold ServerPlugin.build_response, py_get, try_except, bind, ret.
    rewrite Ht. reflexivity.
  - reflexivity.
Qed.

Lemma turn_frame buffer (s : state world) :
  st_world (snd (ServerPlugin.handle_turn buffer s)) = st_world s
  /\ st_open (snd (ServerPlugin.handle_turn buffer s)) = st_open s
  /\ exists added,
       st_log (snd (ServerPlugin.handle_turn buffer s)) = st_log s ++ added
       /\ forallb is_receiver_event added = true.
Proof.
  destruct (recv_state 1024 s) as (O1 & _ & L1 & W1).
  remember (ServerPlugin.handle_turn buffer s) as out eqn:E.
  unfold ServerPlugin.handle_turn, try_except in E.
  unfold bind at 1 in E.
  destruct (recv 1024 s) as [[data|e] s1]; simpl in O1, L1, W1;
    [| subst out; simpl; repeat split; auto; exists [EvRecv 1024]; auto].
  destruct (data =? "")%string;
    [subst out; simpl; repeat split; auto; exists [EvRecv 1024]; auto |].
  unfold except_json, bind, decode, loads, ServerPlugin.idle_add, emit, ret,
    raise in E.
  destruct (decode_utf8 (buffer ++ data)%string) as [text|e]; simpl in E.
  - destruct (json_loads text) as [command|]; simpl in E; subst out; simpl.
    + repeat split; auto. exists [EvRecv 1024; EvIdleAdd command].
      rewrite L1, <- app_assoc. auto.
    + repeat split; auto. exists [EvRecv 1024]; auto.
  - destruct e; simpl in E; subst out; simpl; repeat split; auto;
      exists [EvRecv 1024]; auto.
Qed.

Lemma loop_frame fuel : forall buffer (s : state world),
  st_world (snd (ServerPlugin.handle_loop fuel buffer s)) = st_world s
  /\ st_open (snd (ServerPlugin.handle_loop fuel buffer s)) = st_open s
  /\ exists added,
       st_log (snd (ServerPlugin.handle_loop fuel buffer s)) = st_log s ++ added
       /\ forallb is_receiver_event added = true.
Proof.
  induction fuel as [|fuel IH]; intros buffer s.
  - simpl. repeat split; auto. exists []. rewrite app_nil_r. auto.
  - remember (ServerPlugin.handle_loop (S fuel) buffer s) as out eqn:E.
    simpl in E. unfold bind in E.
    destruct (turn_frame buffer s) as (W1 & O1 & a1 & L1 & P1).
    destruct (ServerPlugin.handle_turn buffer s) as [[[|buffer']|e] s1];
      simpl in W1, O1, L1;
      try (subst out; simpl; repeat split; auto; exists a1; auto).
    destruct (IH buffer' s1) as (W2 & O2 & a2 & L2 & P2).
    subst out.
    rewrite W2, O2, L2, W1, O1, L1. repeat split; auto.
    exists (a1 ++ a2). rewrite app_assoc, forallb_app, P1, P2. auto.
Qed.

Lemma loop_returns fuel : forall buffer (s : state world),
  exists finished, fst (ServerPlugin.handle_loop fuel buffer s) = Ok finished.
Proof.
  induction fuel as [|fuel IH]; intros buffer s.
  - exists false. reflexivity.
  - simpl. unfold bind.
    destruct (turn_progress buffer s) as (step & s' & E & _). rewrite E.
    destruct step as [|buffer']; [exists true; reflexivity | apply IH].
Qed.

(** X8: whatever the peer delivers, and after any number of turns of its
    loop, the receiving thread of [gimp-mcp-server.py] has only called
    [recv(1024)] and queued commands with [idle_add]: no exception has left
    the loop, the host is unchanged, nothing was written to the socket and
    the socket was not closed inside the loop. *)
Theorem receiver_only_reads_and_queues :
  forall fuel buffer (s : state world),
    let out := ServerPlugin.handle_loop fuel buffer s in
    (exists finished, fst out = Ok finished)
    /\ st_world (snd out) = st_world s
    /\ st_open (snd out) = st_open s
    /\ exists added,
         st_log (snd out) = st_log s ++ added
         /\ forallb is_receiver_event added = true.
Proof.
  intros fuel buffer s. cbv zeta.
  split; [apply loop_returns | apply loop_frame].
Qed.

Lemma loop_whole_messages :
  forall texts commands,
    Forall2 (fun text command =>
               text <> ""%string
               /\ String.length text <= 1024
               /\ utf8_valid text = true
               /\ json_loads text = Some command) texts commands ->
    forall fuel (s : state world),
      st_open s = true ->
      st_inbox s = map Chunk texts ->
      List.length texts < fuel ->
      ServerPlugin.handle_loop fuel "" s
      = (Ok true,
         mkState (st_world s) [] true (st_peer_up s)
                 (st_log s ++ queued_one_by_one commands ++ [EvRecv 1024])).
Proof.
  induction 1 as [|text command texts commands (Hn & Hl & Hu & Hj) _ IH];
    intros fuel s Ho Hi Hf.
  - destruct fuel as [|fuel]; [simpl in Hf; lia|].
    simpl. unfold bind. rewrite (turn_end_of_stream "" s Ho Hi).
    unfold add_log, ret. rewrite Ho, Hi. reflexivity.
  - destruct fuel as [|fuel]; [simpl in Hf; lia|].
    simpl in Hf. simpl ServerPlugin.handle_loop. unfold bind.
    rewrite (turn_decoded "" text (map Chunk texts) command s Ho Hi Hl Hn Hu Hj).
    rewrite IH; [| reflexivity | reflexivity | lia].
    simpl. rewrite <- app_assoc. reflexivity.
Qed.

Lemma inbox_weight_chunks texts :
  List.length texts <= ServerPlugin.inbox_weight (map Chunk texts).
Proof. induction texts as [|t ts IH]; simpl; lia. Qed.

(** X9: when the peer's messages arrive one whole message per read (each at
    most 1024 bytes of UTF-8 text that decodes to a command), the receiver of
    [gimp-mcp-server.py] queues every one of them, in order, on the same
    connection, and closes when the peer ends the stream. *)
Theorem every_whole_message_is_queued :
  forall texts commands (s : state world),
    st_open s = true ->
    st_inbox s = map Chunk texts ->
    Forall2 (fun text command =>
               text <> ""%string
               /\ String.length text <= 1024
               /\ utf8_valid text = true
               /\ json_loads text = Some command) texts commands ->
    ServerPlugin.handle_client s
    = (Ok true,
       mkState (st_world s) [] false (st_peer_up s)
               (st_log s ++ queued_one_by_one commands
                         ++ [EvRecv 1024; EvClose])).
Proof.
  intros texts commands s Ho Hi Hall.
  unfold ServerPlugin.handle_client, bind. cbv beta iota.
  rewrite (loop_whole_messages texts commands Hall _ s Ho Hi).
  - unfold close, ret. simpl. rewrite <- !app_assoc. reflexivity.
  - rewrite Hi. pose proof (inbox_weight_chunks texts). lia.
Qed.

End ReceiverEdges.

(** ** The connection manager of [src/gimp_mcp/server.py] *)

Section ManagerEdges.
Context `{Codec}.

Lemma receive_all_chunks id :
  forall chunks response_data,
    Forall (fun chunk => chunk <> ""%string) chunks ->
    Controller.receive_all id (map Data chunks) response_data
    = (Ok (response_data ++ join chunks)%string,
       repeat (CRecv id) (S (List.length chunks))).
Proof.
  induction chunks as [|chunk chunks IH]; intros acc Hall; simpl.
  - f_equal. f_equal. induction acc as [|a acc IHa]; simpl; congruence.
  - inversion Hall as [|? ? Hn Hrest]; subst.
    apply String.eqb_neq in Hn. rewrite Hn.
    rewrite (IH _ Hrest). rewrite append_assoc. reflexivity.
Qed.

(** X10: however the network cuts a reply into pieces, [send_command]
    reads once more than there are pieces, closes the socket, and its result
    depends on the concatenation of the pieces only: it is the result of the
    run that receives the reply in one piece; the decoded value when the
    bytes are UTF-8 text that decodes; the error of the missing response when
    there are no bytes; and otherwise an [Exception] whose message starts
    with [Error communicating with GIMP: ]. *)
Theorem reply_chunking_is_irrelevant :
  forall id rest log chunks command_type params text,
    Forall (fun chunk => chunk <> ""%string) chunks ->
    json_dumps (Controller.command_of command_type params) = Some text ->
    let run script :=
      Controller.send_command
        (mkConn None (mkSocket id None None script :: rest) log)
        command_type params in
    let out := run (map Data chunks) in
    snd out
    = mkConn None rest
        (log ++ [CSocket id; CConnect id; CSendall id text]
             ++ repeat (CRecv id) (S (List.length chunks))
             ++ [CShutdown id; CClose id])
    /\ fst out = fst (run [Data (join chunks)])
    /\ (forall v,
          join chunks <> ""%string ->
          utf8_valid (join chunks) = true ->
          json_loads (join chunks) = Some v ->
          fst out = Ok v)
    /\ (join chunks = ""%string ->
        fst out
        = Raise (Exception
                   "Error communicating with GIMP: No response data from GIMP (connection closed)."))
    /\ (join chunks <> ""%string ->
        utf8_valid (join chunks) = false \/ json_loads (join chunks) = None ->
        exists msg,
          fst out
          = Raise (Exception ("Error communicating with GIMP: " ++ msg)%string)).
Proof.
  intros id rest log chunks command_type params text Hall Hd run out.
  assert (Hout :
    out = (if (join chunks =? "")%string then
             Raise (Controller.rewrap
                      (Exception
                         "No response data from GIMP (connection closed)."))
           else
             match decode_utf8 (join chunks) with
             | Raise e => Raise (Controller.rewrap e)
             | Ok reply =>
                 match json_loads reply with
                 | Some v => Ok v
                 | None =>
                     Raise (Controller.rewrap
                              (Exception
                                 ("Invalid JSON response from GIMP: "
                                    ++ exn_str JSONDecodeError)))
                 end
             end,
           mkConn None rest
             (log ++ [CSocket id; CConnect id; CSendall id text]
                  ++ repeat (CRecv id) (S (List.length chunks))
                  ++ [CShutdown id; CClose id]))).
  { subst out run. cbv beta.
    unfold Controller.send_command, Controller.connect, next_socket. simpl.
    unfold Controller.exchange. rewrite Hd. simpl.
    rewrite (receive_all_chunks id chunks "" Hall). simpl.
    destruct (join chunks =? "")%string; simpl.
    - unfold Controller._close_socket, logc, with_sock. simpl.
      rewrite <- !app_assoc. reflexivity.
    - destruct (decode_utf8 (join chunks)) as [reply|e]; simpl.
      + destruct (json_loads reply); simpl;
          unfold Controller._close_socket, logc, with_sock; simpl;
          rewrite <- !app_assoc; reflexivity.
      + unfold Controller._close_socket, logc, with_sock. simpl.
        rewrite <- !app_assoc. reflexivity. }
  assert (Hone :
    fst (run [Data (join chunks)])
    = (if (join chunks =? "")%string then
         Raise (Controller.rewrap
                  (Exception
                     "No response data from GIMP (connection closed)."))
       else
         match decode_utf8 (join chunks) with
         | Raise e => Raise (Controller.rewrap e)
         | Ok reply =>
             match json_loads reply with
             | Some v => Ok v
             | None =>
                 Raise (Controller.rewrap
                          (Exception
                             ("Invalid JSON response from GIMP: "
                                ++ exn_str JSONDecodeError)))
             end
         end)).
  { subst run. cbv beta.
    unfold Controller.send_command, Controller.connect, next_socket. simpl.
    unfold Controller.exchange. rewrite Hd. simpl.
    destruct (join chunks =? "")%string eqn:Ee; simpl; rewrite ?Ee; simpl;
      [reflexivity|].
    destruct (decode_utf8 (join chunks)) as [reply|e]; simpl;
      [destruct (json_loads reply)|]; reflexivity. }
  rewrite Hone, Hout. simpl. split; [reflexivity|]. split; [reflexivity|].
  split; [| split].
  - intros v Hn Hu Hj. apply String.eqb_neq in Hn. rewrite Hn.
    unfold decode_utf8. rewrite Hu, Hj. reflexivity.
  - intros He. rewrite He. reflexivity.
  - intros Hn Hbad. apply String.eqb_neq in Hn. rewrite Hn.
    unfold decode_utf8.
    destruct (utf8_valid (join chunks)).
    + destruct Hbad as [Hbad | Hbad]; [discriminate|]. rewrite Hbad.
      eexists. reflexivity.
    + eexists. reflexivity.
Qed.

Lemma receive_all_fails id e :
  forall chunks rest response_data,
    Forall (fun chunk => chunk <> ""%string) chunks ->
    Controller.receive_all id (map Data chunks ++ RecvError e :: rest)
      response_data
    = (fst (Controller.receive_all id [RecvError e] ""),
       repeat (CRecv id) (S (List.length chunks))).
Proof.
  induction chunks as [|chunk chunks IH]; intros rest acc Hall; simpl.
  - destruct e; reflexivity.
  - inversion Hall as [|? ? Hn Hrest]; subst.
    apply String.eqb_neq in Hn. rewrite Hn.
    rewrite (IH _ _ Hrest). reflexivity.
Qed.

(** X11: a timeout or a socket error in the middle of a reply discards the
    part already received: [send_command] raises the same exception as when
    the failure comes first, with the message of the receive loop wrapped
    once more, and closes the socket. *)
Theorem partial_reply_is_discarded :
  forall id rest log chunks later e command_type params text,
    Forall (fun chunk => chunk <> ""%string) chunks ->
    json_dumps (Controller.command_of command_type params) = Some text ->
    Controller.send_command
      (mkConn None
         (mkSocket id None None (map Data chunks ++ RecvError e :: later)
            :: rest) log)
      command_type params
    = (Raise (Exception
                ("Error communicating with GIMP: "
                   ++ match e with
                      | NetTimeout => "Timeout receiving data from GIMP."
                      | NetError msg =>
                          "Socket error receiving data from GIMP: " ++ msg
                      | NetOther msg => msg
                      end)%string),
       mkConn None rest
         (log ++ [CSocket id; CConnect id; CSendall id text]
              ++ repeat (CRecv id) (S (List.length chunks))
              ++ [CShutdown id; CClose id])).
Proof.
  intros id rest log chunks later e command_type params text Hall Hd.
  unfold Controller.send_command, Controller.connect, next_socket. simpl.
  unfold Controller.exchange. rewrite Hd. simpl sk_sendall. cbv beta iota.
  simpl sk_recv. simpl sk_id.
  rewrite (receive_all_fails id e chunks later "" Hall).
  destruct e; simpl;
    unfold Controller._close_socket, logc, with_sock; simpl;
    rewrite <- !app_assoc; reflexivity.
Qed.

Lemma receive_all_events id :
  forall script response_data,
    forallb (is_traffic_on id)
      (snd (Controller.receive_all id script response_data)) = true.
Proof.
  induction script as [|[chunk|e] script IH]; intros acc; simpl.
  - now rewrite Nat.eqb_refl.
  - destruct (chunk =? "")%string; simpl; [now rewrite Nat.eqb_refl|].
    specialize (IH (acc ++ chunk)%string).
    destruct (Controller.receive_all id script (acc ++ chunk)) as [r evs].
    simpl in *. now rewrite Nat.eqb_refl.
  - destruct e; simpl; now rewrite Nat.eqb_refl.
Qed.

Lemma exchange_events sk command :
  forallb (is_traffic_on (sk_id sk))
    (snd (Controller.exchange sk command)) = true.
Proof.
  unfold Controller.exchange.
  destruct (json_dumps command) as [text|]; [| reflexivity].
  destruct (sk_sendall sk) as [[| msg | msg]|]; simpl;
    try now rewrite Nat.eqb_refl.
  pose proof (receive_all_events (sk_id sk) (sk_recv sk) "") as He.
  destruct (Controller.receive_all (sk_id sk) (sk_recv sk) "") as [[d|e] evs];
    simpl in *.
  - destruct (d =? "")%string; simpl; [now rewrite Nat.eqb_refl, He|].
    destruct (decode_utf8 d) as [t|e]; simpl; [| now rewrite Nat.eqb_refl, He].
    destruct (json_loads t); simpl; now rewrite Nat.eqb_refl, He.
  - now rewrite Nat.eqb_refl, He.
Qed.

(** X12: [send_command] raises only two kinds of exception.  Either the
    connection could not be opened: a [ConnectionError], nothing was sent and
    the socket just created was closed; or the exchange failed: an
    [Exception] whose message starts with
    [Error communicating with GIMP: ] or
    [Socket error communicating with GIMP: ]. *)
Theorem send_command_raises_two_kinds :
  forall (c : GimpConnection) command_type params e,
    fst (Controller.send_command c command_type params) = Raise e ->
    (exists msg,
       e = ConnectionError msg
       /\ sock c = None
       /\ calls (snd (Controller.send_command c command_type params))
          = calls c ++ [CSocket (sk_id (fst (next_socket c)));
                        CConnect (sk_id (fst (next_socket c)));
                        CShutdown (sk_id (fst (next_socket c)));
                        CClose (sk_id (fst (next_socket c)))])
    \/ (exists msg,
          e = Exception ("Error communicating with GIMP: " ++ msg)%string)
    \/ (exists msg,
          e = Exception
                ("Socket error communicating with GIMP: " ++ msg)%string).
Proof.
  intros c command_type params e.
  unfold Controller.send_command, Controller.connect.
  destruct (sock c) as [sk|] eqn:E.
  - rewrite E.
    destruct (Controller.exchange sk _) as [[v|e'] evs]; simpl;
      [discriminate|].
    intros [= <-]. right.
    destruct e'; simpl; eauto.
  - destruct (next_socket c) as [sk rest]. simpl.
    destruct (sk_connect sk) as [[| msg | msg]|]; simpl.
    1-3: intros [= <-]; left; eexists; split; [reflexivity|];
         split; [reflexivity|];
         unfold Controller._close_socket, logc, with_sock; simpl;
         rewrite <- app_assoc; reflexivity.
    destruct (Controller.exchange sk _) as [[v|e'] evs]; simpl;
      [discriminate|].
    intros [= <-]. right.
    destruct e'; simpl; eauto.
Qed.

End ManagerEdges.

(** ** The tools of [src/gimp_mcp/server.py] *)

Section ToolFacts.
Context `{Codec}.

Lemma traffic_is_no_socket_call id evs :
  forallb (is_traffic_on id) evs = true -> filter is_socket_call evs = [].
Proof.
  induction evs as [|e evs IH]; simpl; [reflexivity|].
  intros Ht. apply andb_true_iff in Ht as [He Ht].
  destruct e; simpl in *; try discriminate; auto.
Qed.

Lemma send_command_connected (c : GimpConnection) sk command_type params :
  sock c = Some sk ->
  exists evs,
    snd (Controller.send_command c command_type params)
    = mkConn None (supply c)
        (calls c ++ evs ++ [CShutdown (sk_id sk); CClose (sk_id sk)])
    /\ forallb (is_traffic_on (sk_id sk)) evs = true.
Proof.
  intros E. unfold Controller.send_command. rewrite E. cbv beta iota.
  rewrite E.
  pose proof (exchange_events sk (Controller.command_of command_type params))
    as He.
  destruct (Controller.exchange sk _) as [[v|e] evs]; simpl in *;
    exists evs; (split; [| exact He]);
    unfold Controller._close_socket, logc, with_sock; simpl; rewrite E; simpl;
    rewrite <- app_assoc; reflexivity.
Qed.

Lemma call_api_hygiene :
  forall (p : process) api_path args kwargs,
    let out := Tools.call_api p api_path args kwargs in
    created (snd out) = true
    /\ sock (manager (snd out)) = None
    /\ exists added,
         calls (manager (snd out)) = calls (manager p) ++ added
         /\ List.length (filter is_socket_call added)
            = match sock (manager (ensure_created p)) with
              | None => 1
              | Some _ => 0
              end.
Proof.
  intros p api_path args kwargs. cbv zeta.
  unfold Tools.call_api, Tools.get_gimp_connection.
  assert (Hc : calls (manager (ensure_created p)) = calls (manager p))
    by (unfold ensure_created; destruct (created p); reflexivity).
  assert (Hk : created (ensure_created p) = true)
    by (unfold ensure_created; destruct (created p) eqn:E; auto).
  remember (ensure_created p) as p1 eqn:Ep. clear Ep.
  destruct (sock (manager p1)) as [sk|] eqn:E.
  - set (params := VDict _).
    destruct (send_command_connected (manager p1) sk (VStr "call_api") params E)
      as (evs & Hs & Ht).
    destruct (Controller.send_command (manager p1) (VStr "call_api") params)
      as [r c]. simpl in Hs. subst c.
    assert (Hgoal : forall text : string,
      created (snd (text, mkProcess true
                 (mkConn None (supply (manager p1))
                    (calls (manager p1) ++ evs
                       ++ [CShutdown (sk_id sk); CClose (sk_id sk)])))) = true
      /\ sock (manager (snd (text, mkProcess true
                 (mkConn None (supply (manager p1))
                    (calls (manager p1) ++ evs
                       ++ [CShutdown (sk_id sk); CClose (sk_id sk)]))))) = None
      /\ exists added,
           calls (manager (snd (text, mkProcess true
                 (mkConn None (supply (manager p1))
                    (calls (manager p1) ++ evs
                       ++ [CShutdown (sk_id sk); CClose (sk_id sk)])))))
           = calls (manager p) ++ added
           /\ List.length (filter is_socket_call added) = 0).
    { intros text. simpl. repeat split.
      exists (evs ++ [CShutdown (sk_id sk); CClose (sk_id sk)]).
      rewrite Hc. split; [reflexivity|].
      rewrite filter_app, (traffic_is_no_socket_call _ _ Ht). reflexivity. }
    destruct r as [result|e]; [destruct (Tools.report result)|]; apply Hgoal.
  - unfold Controller.connect. rewrite E.
    destruct (next_socket (manager p1)) as [sk rest].
    destruct (sk_connect sk) as [[| msg | msg]|] eqn:Ek.
    1-3: simpl; repeat split;
         exists [CSocket (sk_id sk); CConnect (sk_id sk);
                 CShutdown (sk_id sk); CClose (sk_id sk)];
         rewrite Hc, <- app_assoc; split; reflexivity.
    set (params := VDict _).
    set (c1 := mkConn (Some sk) rest
                 (calls (manager p1) ++ [CSocket (sk_id sk); CConnect (sk_id sk)])).
    destruct (send_command_connected c1 sk (VStr "call_api") params eq_refl)
      as (evs & Hs & Ht).
    cbv beta iota. change (manager (mkProcess true c1)) with c1.
    destruct (Controller.send_command c1 (VStr "call_api") params) as [r c].
    simpl in Hs. subst c.
    assert (Hgoal : forall text : string,
      created (snd (text, mkProcess true
                 (mkConn None rest
                    ((calls (manager p1)
                        ++ [CSocket (sk_id sk); CConnect (sk_id sk)]) ++ evs
                       ++ [CShutdown (sk_id sk); CClose (sk_id sk)])))) = true
      /\ sock (manager (snd (text, mkProcess true
                 (mkConn None rest
                    ((calls (manager p1)
                        ++ [CSocket (sk_id sk); CConnect (sk_id sk)]) ++ evs
                       ++ [CShutdown (sk_id sk); CClose (sk_id sk)]))))) = None
      /\ exists added,
           calls (manager (snd (text, mkProcess true
                 (mkConn None rest
                    ((calls (manager p1)
                        ++ [CSocket (sk_id sk); CConnect (sk_id sk)]) ++ evs
                       ++ [CShutdown (sk_id sk); CClose (sk_id sk)])))))
           = calls (manager p) ++ added
           /\ List.length (filter is_socket_call added) = 1).
    { intros text. simpl. repeat split.
      exists (CSocket (sk_id sk) :: CConnect (sk_id sk) :: evs
                ++ [CShutdown (sk_id sk); CClose (sk_id sk)]).
      rewrite Hc, <- app_assoc. split; [reflexivity|].
      simpl. rewrite filter_app, (traffic_is_no_socket_call _ _ Ht).
      reflexivity. }
    destruct r as [result|e]; [destruct (Tools.report result)|]; apply Hgoal.
Qed.

(** X13: every [call_api] of the controller leaves the manager created and
    without a socket, whatever happened, and opens at most one socket:
    exactly one when the manager had none (which is so after every earlier
    call), so each tool call has a connection of its own. *)
Theorem tool_call_leaves_no_socket :
  forall (p : process) api_path args kwargs,
    let out := Tools.call_api p api_path args kwargs in
    created (snd out) = true
    /\ sock (manager (snd out)) = None
    /\ exists added,
         calls (manager (snd out)) = calls (manager p) ++ added
         /\ List.length (filter is_socket_call added)
            = match sock (manager (ensure_created p)) with
              | None => 1
              | Some _ => 0
              end.
Proof. exact call_api_hygiene. Qed.

Lemma call_api_step (p : process) api_path args kwargs :
  after_calls p (snd (Tools.call_api p api_path args kwargs)) 1.
Proof.
  destruct (call_api_hygiene p api_path args kwargs)
    as (Hc & Hs & added & Ha & Hn).
  repeat split; auto. exists added. split; [exact Ha|].
  rewrite Hn. destruct (sock (manager (ensure_created p))); lia.
Qed.

Lemma after_calls_trans p p1 p2 n m :
  after_calls p p1 n -> after_calls p1 p2 m -> after_calls p p2 (n + m).
Proof.
  intros (_ & _ & a1 & E1 & L1) (Hc & Hs & a2 & E2 & L2).
  repeat split; auto. exists (a1 ++ a2).
  rewrite E2, E1, app_assoc, filter_app, length_app. split; [reflexivity|lia].
Qed.

Lemma after_calls_more p p' n m :
  n <= m -> after_calls p p' n -> after_calls p p' m.
Proof.
  intros Hle (Hc & Hs & a & E & L). repeat split; auto.
  exists a. split; [exact E | lia].
Qed.

(** X23: the three specific tools, [get_images], [get_image_info] and
    [apply_gaussian_blur], leave the manager created and without a socket
    whether they return or raise, having opened at most one, four and four
    sockets; when [get_image_info] raises (the first reply is no error text
    and has no field [id] to read), it has made its first call only. *)
Theorem tools_leave_no_socket :
  forall (p : process) image_id radius,
    after_calls p (snd (Tools.get_images p)) 1
    /\ after_calls p (snd (Tools.get_image_info p image_id)) 4
    /\ after_calls p (snd (Tools.apply_gaussian_blur p image_id radius)) 4
    /\ forall e,
         fst (Tools.get_image_info p image_id) = Raise e ->
         after_calls p (snd (Tools.get_image_info p image_id)) 1.
Proof.
  intros p image_id radius.
  assert (Hinfo :
    after_calls p (snd (Tools.get_image_info p image_id)) 4
    /\ forall e,
         fst (Tools.get_image_info p image_id) = Raise e ->
         after_calls p (snd (Tools.get_image_info p image_id)) 1).
  { unfold Tools.get_image_info.
    pose proof (call_api_step p "Gimp.Image.get_by_id" (VList [image_id])
                  (VDict [])) as S1.
    destruct (Tools.call_api p "Gimp.Image.get_by_id" _ _) as [image p1].
    simpl in S1.
    destruct (contains "Error" image);
      [split; [apply (after_calls_more _ _ 1); [lia | exact S1]
              | intros e; discriminate] |].
    destruct (json_loads image) as [image_obj|];
      [| split; [apply (after_calls_more _ _ 1); [lia | exact S1]
                | intros e _; exact S1]].
    destruct (subscript image_obj "id") as [id|e0];
      [| split; [apply (after_calls_more _ _ 1); [lia | exact S1]
                | intros e _; exact S1]].
    pose proof (call_api_step p1 "Gimp.Image.get_width" (VList [id])
                  (VDict [])) as S2.
    destruct (Tools.call_api p1 "Gimp.Image.get_width" _ _) as [width p2].
    pose proof (call_api_step p2 "Gimp.Image.get_height" (VList [id])
                  (VDict [])) as S3.
    destruct (Tools.call_api p2 "Gimp.Image.get_height" _ _) as [height p3].
    pose proof (call_api_step p3 "Gimp.Image.get_layers" (VList [id])
                  (VDict [])) as S4.
    destruct (Tools.call_api p3 "Gimp.Image.get_layers" _ _) as [layers p4].
    simpl in S2, S3, S4.
    pose proof (after_calls_trans _ _ _ _ _
                  (after_calls_trans _ _ _ _ _
                     (after_calls_trans _ _ _ _ _ S1 S2) S3) S4) as S.
    assert (Hd : json_dumps (VDict [(KStr "width", VStr width);
                                    (KStr "height", VStr height);
                                    (KStr "layers", VStr layers)]) <> None)
      by (apply json_dumps_wire; reflexivity).
    destruct (json_dumps _) as [text|]; [| now elim Hd].
    split; [exact S | intros e; discriminate]. }
  split; [apply call_api_step|]. split; [apply Hinfo|]. split; [| apply Hinfo].
  unfold Tools.apply_gaussian_blur.
  pose proof (call_api_step p "Gimp.Image.get_by_id" (VList [image_id])
                (VDict [])) as S1.
  destruct (Tools.call_api p "Gimp.Image.get_by_id" _ _) as [image p1].
  simpl in S1.
  destruct (contains "Error" image);
    [apply (after_calls_more _ _ 1); [lia | exact S1] |].
  destruct (json_loads image) as [image_obj|];
    [| apply (after_calls_more _ _ 1); [lia | exact S1]].
  destruct (subscript image_obj "id") as [id|e0];
    [| apply (after_calls_more _ _ 1); [lia | exact S1]].
  pose proof (call_api_step p1 "Gimp.Image.get_active_layer" (VList [id])
                (VDict [])) as S2.
  destruct (Tools.call_api p1 "Gimp.Image.get_active_layer" _ _)
    as [drawable p2].
  simpl in S2.
  pose proof (after_calls_trans _ _ _ _ _ S1 S2) as S12.
  destruct (contains "Error" drawable);
    [apply (after_calls_more _ _ 2); [lia | exact S12] |].
  destruct (json_loads drawable) as [drawable_obj|];
    [| apply (after_calls_more _ _ 2); [lia | exact S12]].
  destruct (subscript drawable_obj "id") as [id2|e2];
    [| apply (after_calls_more _ _ 2); [lia | exact S12]].
  pose proof (call_api_step p2 "Gimp.get_pdb.run_procedure"
                (VList [VStr "plug-in-gauss"; id; id2; radius; radius; VInt 0])
                (VDict [])) as S3.
  destruct (Tools.call_api p2 "Gimp.get_pdb.run_procedure" _ _)
    as [result p3].
  simpl in S3.
  pose proof (after_calls_trans _ _ _ _ _ S12 S3) as S123.
  destruct (contains "Error" result);
    [apply (after_calls_more _ _ 3); [lia | exact S123] |].
  pose proof (call_api_step p3 "Gimp.displays_flush" (VList []) (VDict []))
    as S4.
  destruct (Tools.call_api p3 "Gimp.displays_flush" _ _) as [flushed p4].
  simpl in S4.
  exact (after_calls_trans _ _ _ _ _ S123 S4).
Qed.

End ToolFacts.

(** ** The two ends together *)

Section EndToEnd.
Context {world : Type} `{Host world} `{Codec}.

Lemma plugin_response_cases request (s : state world) response :
  fst (Plugin.execute_command request s) = Ok response ->
  (exists result,
     response = Plugin.success_response result
     /\ is_serialized result = true)
  \/ (exists e, response = Plugin.error_response e).
Proof.
  unfold Plugin.execute_command, try_except.
  destruct (Plugin.execute_body request s) as [[r|e] s'] eqn:Eb; simpl.
  - intros [= <-]. left. exact (plugin_body_shape _ _ _ _ Eb).
  - unfold ret. simpl. intros [= <-]. right. exists e. reflexivity.
Qed.

(** X14: the controller understands every response of
    [gimp-mcp-plugin.py]: a success is reported as the JSON text of its
    result, a failure always as [Error: ] followed by the JSON text of the
    message; reading the response never fails on a missing field. *)
Theorem plugin_responses_are_understood :
  forall request (s : state world) response,
    fst (Plugin.execute_command request s) = Ok response ->
    (exists result,
       response = Plugin.success_response result
       /\ is_serialized result = true
       /\ Tools.report response
          = match json_dumps result with
            | Some text => Ok text
            | None => Raise (TypeError "Object is not JSON serializable")
            end)
    \/ (exists e text,
          response = Plugin.error_response e
          /\ json_dumps (VStr (exn_str e)) = Some text
          /\ Tools.report response = Ok ("Error: " ++ text)%string).
Proof.
  intros request s response E.
  destruct (plugin_response_cases request s response E)
    as [(result & -> & Hs) | (e & ->)].
  - left. exists result. split; [reflexivity|]. split; [exact Hs|].
    unfold Tools.report, Plugin.success_response. simpl.
    destruct (json_dumps result); reflexivity.
  - right.
    destruct (json_dumps (VStr (exn_str e))) as [text|] eqn:Ed.
    + exists e, text. split; [reflexivity|]. split; [exact Ed|].
      unfold Tools.report, Plugin.error_response. simpl. rewrite Ed.
      reflexivity.
    + exfalso. exact (json_dumps_wire (VStr (exn_str e)) eq_refl Ed).
Qed.

(** X16: the controller's [call_api] and the handler of
    [gimp-mcp-plugin.py] fit together.  When the request text the
    controller writes reaches the handler in its single read and decodes to
    the request, the handler writes one reply and closes; and when the bytes
    of that reply reach the controller, in any number of pieces, and decode
    to the response, [call_api] returns what the response says: the JSON text
    of the result, or [Error: ] with the message. *)
Theorem call_api_meets_the_handler :
  forall (w : world) api_path args kwargs text response reply
         id rest log chunks made,
    let request := call_request api_path args kwargs in
    let s := mkState w [Chunk text] true true [] in
    json_dumps request = Some text ->
    String.length text <= 4096 ->
    utf8_valid text = true ->
    json_loads text = Some request ->
    fst (Plugin.execute_command request (snd (recv 4096 s))) = Ok response ->
    json_dumps response = Some reply ->
    reply <> ""%string ->
    utf8_valid reply = true ->
    json_loads reply = Some response ->
    Forall (fun chunk => chunk <> ""%string) chunks ->
    join chunks = reply ->
    (exists host_events,
       Plugin._handle_client s
       = (Ok tt,
          mkState (st_world (snd (Plugin._handle_client s))) []
                  false true
                  (EvRecv 4096 :: host_events ++ [EvSend reply; EvClose]))
       /\ forallb is_host_event host_events = true)
    /\ Tools.call_api
         (mkProcess made
            (mkConn None (mkSocket id None None (map Data chunks) :: rest) log))
         api_path args kwargs
       = (match Tools.report response with
          | Ok shown => shown
          | Raise e => Tools.error_text e
          end,
          mkProcess true
            (mkConn None rest
               (log ++ [CSocket id; CConnect id; CSendall id text]
                    ++ repeat (CRecv id) (S (List.length chunks))
                    ++ [CShutdown id; CClose id]))).
Proof.
  intros w api_path args kwargs text response reply id rest log chunks made
    request s Hd Hl Hu Hj Hx Hr Hn Hv Hb Hall Hjoin.
  split.
  - assert (Hrecv : recv 4096 s
                    = (Ok text, mkState w [] true true [EvRecv 4096])).
    { exact (recv_chunk 4096 text [] s eq_refl eq_refl Hl). }
    assert (Hf : fst (recv 4096 s) = Ok text) by now rewrite Hrecv.
    pose proof (plugin_handler_run text request response reply s eq_refl Hf
                  Hu Hj Hx Hr) as Hrun.
    destruct (emits_plugin_execute_command request (snd (recv 4096 s)))
      as (evs & I2 & _ & _ & L2 & P2).
    cbv zeta in Hrun. rewrite Hrecv in I2, L2, Hrun. simpl in I2, L2, Hrun.
    exists evs. split; [| exact P2].
    rewrite Hrun. simpl. rewrite I2, L2. reflexivity.
  - unfold Tools.call_api, Tools.get_gimp_connection.
    assert (Hm : manager (ensure_created
                   (mkProcess made
                      (mkConn None
                         (mkSocket id None None (map Data chunks) :: rest) log)))
                 = mkConn None
                     (mkSocket id None None (map Data chunks) :: rest) log)
      by (unfold ensure_created; destruct made; reflexivity).
    rewrite Hm. simpl sock. cbv beta iota.
    unfold Controller.connect, next_socket. simpl.
    unfold Controller.send_command. simpl.
    unfold Controller.exchange.
    change (Controller.command_of (VStr "call_api")
              (VDict [(KStr "api_path", VStr api_path); (KStr "args", args);
                      (KStr "kwargs", kwargs)])) with request.
    rewrite Hd. simpl.
    rewrite (receive_all_chunks id chunks "" Hall). simpl. rewrite Hjoin.
    apply String.eqb_neq in Hn. rewrite Hn.
    unfold decode_utf8. rewrite Hv, Hb. simpl.
    unfold Controller._close_socket, logc, with_sock. simpl.
    rewrite <- !app_assoc. simpl.
    destruct (Tools.report response); reflexivity.
Qed.

End EndToEnd.

(** ** The accept loops of the two plugins *)

Section ListenerLoops.

Lemma threads_app a b : threads (a ++ b) = threads a ++ threads b.
Proof. unfold threads. apply flat_map_app. Qed.

Lemma plugin_accept_loop_run script :
  threads (fst (PluginServer.accept_loop script))
  = accepted_before_failure script
  /\ filter is_close_listener (fst (PluginServer.accept_loop script)) = []
  /\ (snd (PluginServer.accept_loop script) = None
      <-> accept_fails script = false).
Proof.
  induction script as [|[client|e] script (IH1 & IH2 & IH3)]; simpl.
  - repeat split; auto.
  - destruct (PluginServer.accept_loop script) as [evs r]. simpl in *.
    rewrite IH1. repeat split; auto; apply IH3.
  - repeat split; auto; discriminate.
Qed.

Lemma server_accept_loop_run script :
  threads (fst (ServerPluginServer.accept_loop script))
  = accepted_before_failure script
  /\ filter is_close_listener (fst (ServerPluginServer.accept_loop script)) = []
  /\ snd (ServerPluginServer.accept_loop script) = accept_fails script.
Proof.
  induction script as [|[client|e] script (IH1 & IH2 & IH3)]; simpl.
  - repeat split; auto.
  - destruct (ServerPluginServer.accept_loop script) as [evs r]. simpl in *.
    rewrite IH1. repeat split; auto.
  - repeat split; auto.
Qed.

(** X17: once the listening socket is set up, both plugins start one
    handler thread for every client accepted, in the order of arrival, up to
    the first [accept] that raises; without such a failure the server stays
    in [accept], with one it returns after closing the listening socket
    once. *)
Theorem every_accepted_client_gets_a_thread :
  forall (self : MCPPlugin) (env : listening),
    running self = false ->
    on_socket env = None ->
    on_bind env = None ->
    on_listen env = None ->
    let out := PluginServer.run self env in
    let out' := ServerPluginServer.start_server env in
    threads (done (snd out))
    = threads (done self) ++ accepted_before_failure (on_accept env)
    /\ threads (snd out') = accepted_before_failure (on_accept env)
    /\ (if accept_fails (on_accept env)
        then fst out = Returns /\ fst out' = Returns
             /\ List.length (filter is_close_listener (snd out')) = 1
             /\ List.length (filter is_close_listener (done (snd out)))
                = S (List.length (filter is_close_listener (done self)))
        else fst out = Blocks /\ fst out' = Blocks
             /\ filter is_close_listener (snd out') = []
             /\ filter is_close_listener (done (snd out))
                = filter is_close_listener (done self)).
Proof.
  intros self env Hr Hs Hb Hl. cbv zeta.
  unfold PluginServer.run, PluginServer.serve,
    ServerPluginServer.start_server.
  rewrite Hr, Hs, Hb, Hl.
  destruct (plugin_accept_loop_run (on_accept env)) as (T1 & C1 & R1).
  destruct (server_accept_loop_run (on_accept env)) as (T2 & C2 & R2).
  destruct (PluginServer.accept_loop (on_accept env)) as [evs r].
  destruct (ServerPluginServer.accept_loop (on_accept env)) as [evs' ended].
  simpl in T1, C1, R1, T2, C2, R2. subst ended.
  destruct (accept_fails (on_accept env)) eqn:Ef.
  - destruct r as [e|]; [| destruct R1 as [R1 _]; specialize (R1 eq_refl);
                           discriminate].
    simpl. rewrite !threads_app, !filter_app, !length_app. simpl.
    rewrite !threads_app, !filter_app. simpl.
    rewrite T1, T2, C1, C2. simpl. rewrite app_nil_r.
    repeat split; auto. lia.
  - destruct r as [e|]; [destruct R1 as [_ R1]; specialize (R1 eq_refl);
                         discriminate |].
    simpl. rewrite !threads_app, !filter_app. simpl.
    rewrite T1, T2, C1, C2. simpl. rewrite ?app_nil_r.
    repeat split; auto.
Qed.

(** X18: what a failure to set up the listening socket does.  In
    [gimp-mcp-plugin.py] no exception leaves [run]: it reports
    [Error starting server: ...], resets [running] and [socket] and closes
    the socket if it had one, so that [run] can be called again.  In
    [gimp-mcp-server.py] the exception leaves [start_server], no client is
    ever accepted and the socket is not closed. *)
Theorem startup_failures :
  forall (self : MCPPlugin) (env : listening),
    running self = false ->
    (on_socket env <> None \/ on_bind env <> None \/ on_listen env <> None) ->
    let out := PluginServer.run self env in
    let out' := ServerPluginServer.start_server env in
    (fst out = Returns
     /\ running (snd out) = false
     /\ listener (snd out) = false
     /\ threads (done (snd out)) = threads (done self)
     /\ exists e before after,
          done (snd out)
          = done self ++ before
              ++ [LMessage ("Error starting server: " ++ exn_str e)] ++ after
          /\ after = (if (match on_socket env with
                          | None => true
                          | Some _ => false
                          end) || listener self
                      then [LCloseListener] else []))
    /\ (exists e, fst out' = Escapes e)
    /\ threads (snd out') = []
    /\ filter is_close_listener (snd out') = [].
Proof.
  intros self env Hr Hf. cbv zeta.
  unfold PluginServer.run, PluginServer.serve,
    ServerPluginServer.start_server.
  rewrite Hr.
  destruct (on_socket env) as [e1|].
  - simpl. repeat split; eauto.
    + rewrite !threads_app. simpl.
      destruct (listener self); simpl; now rewrite app_nil_r.
    + exists e1, [LMessage "Creating socket..."; LSocket],
        (if listener self then [LCloseListener] else []).
      split; reflexivity.
  - destruct (on_bind env) as [e2|].
    + simpl. repeat split; eauto.
      * rewrite !threads_app. simpl. now rewrite app_nil_r.
      * exists e2, [LMessage "Creating socket..."; LSocket; LBind],
          [LCloseListener].
        split; reflexivity.
    + destruct (on_listen env) as [e3|].
      * simpl. repeat split; eauto.
        -- rewrite !threads_app. simpl. now rewrite app_nil_r.
        -- exists e3,
             [LMessage "Creating socket..."; LSocket; LBind; LListen],
             [LCloseListener].
           split; reflexivity.
      * exfalso. destruct Hf as [Hf | [Hf | Hf]]; now apply Hf.
Qed.

End ListenerLoops.

(** ** More edges of the two plugins *)

Section MoreEdges.
Context {world : Type} `{Host world} `{Codec}.

Lemma emits_server_serialize_result v :
  emits is_read (ServerPlugin.serialize_result v).
Proof.
  unfold ServerPlugin.serialize_result, ServerPlugin.serialize_gimp_object.
  repeat first [ apply emits_hasattr | apply emits_getattr | apply emits_py_str
               | apply emits_class_name | emits_step ].
Qed.

Lemma emits_server_build_response command :
  emits is_host_event (ServerPlugin.build_response command).
Proof.
  unfold ServerPlugin.build_response, ServerPlugin.call_api,
    ServerPlugin.resolve, py_get, py_getitem, py_split, py_star, py_dstar.
  repeat first
    [ apply emits_call
    | apply emits_py_str
    | apply (emits_weaken is_read is_host_event _ read_is_host_event);
      first [ apply emits_walk | apply emits_server_serialize_result ]
    | emits_step ].
Qed.

Lemma server_build_response_object kv (s : state world) :
  exists response,
    fst (ServerPlugin.build_response (VDict kv) s) = Ok (VDict response)
    /\ (dict_get (KStr "status") response = Some (VStr "success")
        \/ dict_get (KStr "status") response = Some (VStr "error")).
Proof.
  unfold ServerPlugin.build_response, py_get.
  unfold bind at 1. unfold ret at 1. cbv beta iota.
  unfold bind at 1. unfold ret at 1. cbv beta iota.
  unfold try_except.
  destruct (ServerPlugin.is_call_api _).
  - destruct (ServerPlugin.call_api _ s) as [[r|e] s'] eqn:E.
    + destruct (call_api_ok _ _ _ _ E) as (result & ->).
      eexists. split; [reflexivity|]. left. reflexivity.
    + eexists. split; [reflexivity|]. right. reflexivity.
  - unfold bind, py_str, read_world, ret. simpl.
    eexists. split; [reflexivity|]. right. reflexivity.
Qed.

(** X20: the callback of [gimp-mcp-server.py] builds a response for every
    command that is a JSON object, with status [success] or [error]; on a
    connection that is open, once the response is encoded it writes it in one
    [sendall] after its calls into the host, and it leaves the connection
    open. *)
Theorem server_callback_answers_every_object :
  forall kv (s : state world),
    st_open s = true ->
    st_peer_up s = true ->
    exists response,
      fst (ServerPlugin.build_response (VDict kv) s) = Ok (VDict response)
      /\ (dict_get (KStr "status") response = Some (VStr "success")
          \/ dict_get (KStr "status") response = Some (VStr "error"))
      /\ forall text,
           json_dumps (VDict response) = Some text ->
           let out := ServerPlugin.execute_command (VDict kv) s in
           fst out = Ok tt
           /\ st_open (snd out) = true
           /\ exists host_events,
                st_log (snd out) = st_log s ++ host_events ++ [EvSend text]
                /\ forallb is_host_event host_events = true.
Proof.
  intros kv s Ho Hu.
  destruct (server_build_response_object kv s) as (response & Hb & Hs).
  exists response. split; [exact Hb|]. split; [exact Hs|].
  intros text Hd. cbv zeta.
  destruct (emits_server_build_response (VDict kv) s)
    as (evs & _ & O & U & L & P).
  remember (ServerPlugin.execute_command (VDict kv) s) as out eqn:E.
  unfold ServerPlugin.execute_command in E. unfold bind at 1 in E.
  destruct (ServerPlugin.build_response (VDict kv) s) as [r s1].
  simpl in Hb, O, U, L. subst r.
  unfold bind, dumps, ret in E. rewrite Hd in E.
  unfold sendall, emit in E. rewrite O, Ho, U, Hu in E. simpl in E.
  subst out. simpl. rewrite O, Ho, L, <- app_assoc.
  split; [reflexivity|]. split; [reflexivity|]. exists evs. auto.
Qed.


End MoreEdges.

(** ** Replies and closing in the two plugins *)

Section ConnectionLifetime.
Context {world : Type} `{Host world} `{Codec}.

Lemma plugin_handler_undecodable data (s : state world) :
  fst (recv 4096 s) = Ok data ->
  utf8_valid data = false \/ json_loads data = None ->
  Plugin._handle_client s
  = (Raise (if utf8_valid data then JSONDecodeError else UnicodeDecodeError),
     snd (recv 4096 s)).
Proof.
  intros Hr Hbad. unfold Plugin._handle_client.
  unfold bind at 1. destruct (recv 4096 s) as [r s1]. simpl in Hr. subst r.
  unfold bind at 1. unfold decode, decode_utf8, raise, ret.
  change (String.append EmptyString data) with data.
  destruct (utf8_valid data); [| reflexivity].
  destruct Hbad as [Hbad | Hbad]; [discriminate|].
  unfold bind at 1. unfold loads, raise. rewrite Hbad. reflexivity.
Qed.

Lemma server_callback_run command (s : state world) :
  exists host_events reply,
    st_log (snd (ServerPlugin.execute_command command s))
    = st_log s ++ host_events ++ reply
    /\ forallb is_host_event host_events = true
    /\ (reply = [] \/ exists text, reply = [EvSend text])
    /\ st_open (snd (ServerPlugin.execute_command command s)) = st_open s.
Proof.
  destruct (emits_server_build_response command s)
    as (evs & _ & O & _ & L & P).
  remember (ServerPlugin.execute_command command s) as out eqn:E.
  unfold ServerPlugin.execute_command in E. unfold bind at 1 in E.
  destruct (ServerPlugin.build_response command s) as [[response|e] s1];
    simpl in O, L;
    [| subst out; exists evs, []; simpl; rewrite app_nil_r; auto].
  unfold bind, dumps, raise, ret in E.
  destruct (json_dumps response) as [text|]; simpl in E;
    [| subst out; exists evs, []; simpl; rewrite app_nil_r; auto].
  unfold sendall, emit in E.
  destruct (st_open s1) eqn:Eo; simpl in E;
    [| subst out; exists evs, []; simpl; rewrite app_nil_r, Eo; auto].
  destruct (st_peer_up s1); simpl in E;
    [| subst out; exists evs, []; simpl; rewrite app_nil_r, Eo; auto].
  subst out. exists evs, [EvSend text]. simpl.
  rewrite L, <- app_assoc, Eo. repeat split; eauto.
Qed.

(** C5, as amended.  [gimp-mcp-plugin.py]: on every accepted connection the
    handler reads once and writes at most one reply; when the bytes read
    decode to a request (and the response encodes and the peer is there) it
    writes exactly one reply, whether the request succeeded or failed, and
    then closes the connection, after which [recv] and [sendall] on it fail
    in the socket layer; when the bytes read are not UTF-8 or not JSON it
    writes no reply, ends with the decoding exception and does not close.
    [gimp-mcp-server.py]: after a read that completes a request the receiver
    queues the command and goes on with an empty buffer on the same, open
    connection; the queued callback writes at most one reply, exactly one
    when the command is an object, the response encodes and the connection is
    open with the peer present, and never closes the connection. *)
Theorem replies_and_closing_of_both_plugins :
  forall (s : state world),
    (exists added,
       st_log (snd (Plugin._handle_client s)) = st_log s ++ added
       /\ List.length (filter is_recv added) = 1
       /\ List.length (filter is_send added) <= 1)
    /\ (forall data request text,
          st_peer_up s = true ->
          fst (recv 4096 s) = Ok data ->
          utf8_valid data = true ->
          json_loads data = Some request ->
          let s1 := snd (recv 4096 s) in
          let response :=
            match fst (Plugin.execute_body request s1) with
            | Ok r => r
            | Raise e =>
                VDict [(KStr "status", VStr "error");
                       (KStr "error", VStr (exn_str e));
                       (KStr "traceback", VStr (h_traceback e))]
            end in
          json_dumps response = Some text ->
          let out := Plugin._handle_client s in
          exists host_events,
            fst out = Ok tt
            /\ st_log (snd out)
               = st_log s ++ EvRecv 4096 :: host_events
                          ++ [EvSend text; EvClose]
            /\ forallb is_host_event host_events = true
            /\ st_open (snd out) = false
            /\ (forall n, fst (recv n (snd out))
                          = Raise (OSError "Bad file descriptor"))
            /\ (forall d, fst (sendall d (snd out))
                          = Raise (OSError "Bad file descriptor")))
    /\ (forall data,
          fst (recv 4096 s) = Ok data ->
          utf8_valid data = false \/ json_loads data = None ->
          let out := Plugin._handle_client s in
          (fst out = Raise UnicodeDecodeError
           \/ fst out = Raise JSONDecodeError)
          /\ st_log (snd out) = st_log s ++ [EvRecv 4096]
          /\ st_open (snd out) = true)
    /\ (forall buffer data rest command,
          st_open s = true ->
          st_inbox s = Chunk data :: rest ->
          String.length data <= 1024 ->
          data <> ""%string ->
          utf8_valid (buffer ++ data)%string = true ->
          json_loads (buffer ++ data)%string = Some command ->
          ServerPlugin.handle_turn buffer s
          = (Ok (ServerPlugin.Continue ""),
             mkState (st_world s) rest true (st_peer_up s)
                     (st_log s ++ [EvRecv 1024; EvIdleAdd command])))
    /\ (forall command,
          let out := ServerPlugin.execute_command command s in
          exists host_events reply,
            st_log (snd out) = st_log s ++ host_events ++ reply
            /\ forallb is_host_event host_events = true
            /\ (reply = [] \/ exists text, reply = [EvSend text])
            /\ st_open (snd out) = st_open s)
    /\ (forall kv,
          st_open s = true ->
          st_peer_up s = true ->
          exists response,
            fst (ServerPlugin.build_response (VDict kv) s) = Ok (VDict response)
            /\ forall text,
                 json_dumps (VDict response) = Some text ->
                 let out := ServerPlugin.execute_command (VDict kv) s in
                 fst out = Ok tt
                 /\ st_open (snd out) = true
                 /\ exists host_events,
                      st_log (snd out)
                      = st_log s ++ host_events ++ [EvSend text]
                      /\ forallb is_host_event host_events = true).
Proof.
  intros s.
  destruct (plugin_replies_once_then_closes s) as [P1 P2].
  split; [exact P1|]. split; [exact P2|]. split; [| split; [| split]].
  - intros data Hr Hbad out. subst out.
    rewrite (plugin_handler_undecodable data s Hr Hbad).
    destruct (recv_state 4096 s) as (O1 & _ & L1 & _).
    pose proof (recv_ok_open _ _ _ Hr) as Ho.
    simpl. rewrite L1, O1, Ho.
    split; [destruct (utf8_valid data); auto | auto].
  - intros buffer data rest command Ho Hi Hl Hn Hu Hj.
    exact (turn_decoded buffer data rest command s Ho Hi Hl Hn Hu Hj).
  - intros command. exact (server_callback_run command s).
  - intros kv Ho Hu.
    destruct (server_build_response_object kv s) as (response & Hb & _).
    exists response. split; [exact Hb|].
    intros text Hd. cbv zeta.
    destruct (emits_server_build_response (VDict kv) s)
      as (evs & _ & O & U & L & P).
    remember (ServerPlugin.execute_command (VDict kv) s) as out eqn:E.
    unfold ServerPlugin.execute_command in E. unfold bind at 1 in E.
    destruct (ServerPlugin.build_response (VDict kv) s) as [r s1].
    simpl in Hb, O, U, L. subst r.
    unfold bind, dumps, ret in E. rewrite Hd in E.
    unfold sendall, emit in E. rewrite O, Ho, U, Hu in E. simpl in E.
    subst out. simpl. rewrite O, Ho, L, <- app_assoc.
    split; [reflexivity|]. split; [reflexivity|]. exists evs. auto.
Qed.

End ConnectionLifetime.

(** ** The type names of [gimp-api-scraper.py] *)

Section ScraperFacts.

Lemma remove_absent old : forall s,
  contains old s = false -> Scraper.remove_from old 0 s = s.
Proof.
  induction s as [|c s IH]; [reflexivity|].
  intros Hc.
  change (String.prefix old (String c s) || contains old s = false) in Hc.
  apply orb_false_iff in Hc as [Hp Hrest].
  cbn [Scraper.remove_from]. rewrite Hp. now rewrite (IH Hrest).
Qed.

Lemma prefix_append old t : String.prefix old (old ++ t)%string = true.
Proof.
  induction old as [|c old IH]; simpl; [destruct t; reflexivity|].
  destruct (ascii_dec c c) as [_|N]; [exact IH | now elim N].
Qed.

Lemma remove_skip old : forall pre t,
  Scraper.remove_from old (String.length pre) (pre ++ t)%string
  = Scraper.remove_from old 0 t.
Proof.
  induction pre as [|c pre IH]; intros t; [reflexivity|].
  simpl. apply IH.
Qed.

Lemma remove_leading c old t :
  Scraper.remove_from (String c old) 0 (String c old ++ t)%string
  = Scraper.remove_from (String c old) 0 t.
Proof.
  change ((String c old ++ t)%string) with (String c (old ++ t)%string).
  cbn [Scraper.remove_from].
  change (String c (old ++ t)%string) with ((String c old ++ t)%string).
  rewrite prefix_append.
  replace (String.length (String c old) - 1) with (String.length old)
    by (simpl; lia).
  apply remove_skip.
Qed.

(** X24: [glib_to_openapi] ignores a leading [const ]: a type and its
    [const] form are mapped alike, whatever the type; and a type that
    contains no [const ] and is not one of the primitive names is returned
    unchanged. *)
Theorem const_is_ignored :
  forall glib_type,
    Scraper.glib_to_openapi ("const " ++ glib_type)%string
    = Scraper.glib_to_openapi glib_type
    /\ (contains "const " glib_type = false ->
        Scraper.lookup_type glib_type Scraper.PRIMITIVE_MAP = None ->
        Scraper.glib_to_openapi glib_type = glib_type).
Proof.
  intros glib_type. split.
  - unfold Scraper.glib_to_openapi.
    now rewrite (remove_leading "c" "onst " glib_type).
  - intros Hc Hl. unfold Scraper.glib_to_openapi.
    rewrite (remove_absent _ _ Hc), Hl. reflexivity.
Qed.

End ScraperFacts.

(** ** The theorems above at concrete inputs *)

(** C5 fails as stated in both plugins.  On a connection whose bytes do not
    decode the handler of [gimp-mcp-plugin.py] raises: it has written no
    reply and has not closed the socket.  On a connection that delivers two
    requests, [gimp-mcp-server.py] reads and queues both, each callback
    writes a reply, and the connection is still open. *)
Lemma one_reply_then_close_fails_in_both_plugins :
  Plugin._handle_client (Sample.accepted [Chunk "[1, 2"])
  = (Raise JSONDecodeError, mkState tt [] true true [EvRecv 4096])
  /\ (let first :=
        call_request "Gimp.Widget.get_name" (VList []) (VDict []) in
      let second :=
        call_request "Gimp.Image.get_by_id" (VList [VInt 5]) (VDict []) in
      let out :=
        (ServerPlugin.handle_turn "" ;;
         ServerPlugin.execute_command first ;;
         ServerPlugin.handle_turn "" ;;
         ServerPlugin.execute_command second)
          (Sample.accepted [Chunk (Sample.render first);
                            Chunk (Sample.render second)]) in
      fst out = Ok tt
      /\ filter (fun e => is_idle_add e || is_send e) (st_log (snd out))
         = [EvIdleAdd first;
            EvSend (Sample.render
                      (VDict [(KStr "status", VStr "error");
                              (KStr "message",
                               VStr "'gi.repository.Gimp' object has no attribute 'Gimp'");
                              (KStr "traceback",
                               VStr (h_traceback
                                       (AttributeError
                                          "'gi.repository.Gimp' object"
                                          "Gimp")))]));
            EvIdleAdd second;
            EvSend (Sample.render
                      (VDict [(KStr "status", VStr "error");
                              (KStr "message",
                               VStr "'gi.repository.Gimp' object has no attribute 'Gimp'");
                              (KStr "traceback",
                               VStr (h_traceback
                                       (AttributeError
                                          "'gi.repository.Gimp' object"
                                          "Gimp")))]))]
      /\ ~ In EvClose (st_log (snd out))
      /\ st_open (snd out) = true).
Proof.
  split; [reflexivity|]. cbv zeta.
  split; [reflexivity|]. split; [vm_compute; reflexivity|].
  split; [| reflexivity].
  vm_compute. intuition discriminate.
Qed.

(** The request for the widget's name, read by either plugin; bytes that are
    no request; a command without a type. *)
Lemma replies_and_closing_of_both_plugins_witness :
  let request := call_request "Gimp.Widget.get_name" (VList []) (VDict []) in
  let text := Sample.render request in
  let reply := Sample.render (Plugin.success_response (VStr "Sprocket")) in
  let s := Sample.accepted [Chunk text; Chunk text] in
  let bad := Sample.accepted [Chunk "[1, 2"] in
  (exists host_events,
     fst (Plugin._handle_client s) = Ok tt
     /\ st_log (snd (Plugin._handle_client s))
        = [] ++ EvRecv 4096 :: host_events ++ [EvSend reply; EvClose]
     /\ forallb is_host_event host_events = true
     /\ st_open (snd (Plugin._handle_client s)) = false
     /\ (forall n, fst (recv n (snd (Plugin._handle_client s)))
                   = Raise (OSError "Bad file descriptor"))
     /\ (forall d, fst (sendall d (snd (Plugin._handle_client s)))
                   = Raise (OSError "Bad file descriptor")))
  /\ ((fst (Plugin._handle_client bad) = Raise UnicodeDecodeError
       \/ fst (Plugin._handle_client bad) = Raise JSONDecodeError)
      /\ st_log (snd (Plugin._handle_client bad)) = [] ++ [EvRecv 4096]
      /\ st_open (snd (Plugin._handle_client bad)) = true)
  /\ ServerPlugin.handle_turn "" s
     = (Ok (ServerPlugin.Continue ""),
        mkState tt [Chunk text] true true
                ([] ++ [EvRecv 1024; EvIdleAdd request]))
  /\ (exists response,
        fst (ServerPlugin.build_response (VDict []) s) = Ok (VDict response)
        /\ forall shown,
             json_dumps (VDict response) = Some shown ->
             let out := ServerPlugin.execute_command (VDict []) s in
             fst out = Ok tt
             /\ st_open (snd out) = true
             /\ exists host_events,
                  st_log (snd out) = [] ++ host_events ++ [EvSend shown]
                  /\ forallb is_host_event host_events = true).
Proof.
  intros request text reply s bad.
  split; [| split; [| split]].
  - refine (proj1 (proj2 (replies_and_closing_of_both_plugins s))
              text request reply _ _ _ _ _);
      reflexivity.
  - refine (proj1 (proj2 (proj2 (replies_and_closing_of_both_plugins bad)))
              "[1, 2" _ _).
    + reflexivity.
    + right. reflexivity.
  - refine (proj1 (proj2 (proj2 (proj2
              (replies_and_closing_of_both_plugins s))))
              "" text [Chunk text] request _ _ _ _ _ _).
    + reflexivity.
    + reflexivity.
    + apply Nat.leb_le. vm_compute. reflexivity.
    + intros E. vm_compute in E. discriminate.
    + reflexivity.
    + reflexivity.
  - refine (proj2 (proj2 (proj2 (proj2 (proj2
              (replies_and_closing_of_both_plugins s)))))
              [] _ _);
      reflexivity.
Defined.

(** The old format of the request for [Gimp.Widget.get_name]. *)
Lemma old_request_format_is_equivalent_witness :
  Plugin.execute_command
    (VDict [(KStr "api_path", VStr "Gimp.Widget.get_name")])
    (Sample.accepted [])
  = Plugin.execute_command
      (call_request "Gimp.Widget.get_name" (VList []) (VDict []))
      (Sample.accepted []).
Proof.
  refine (old_request_format_is_equivalent (Sample.accepted [])
            [(KStr "api_path", VStr "Gimp.Widget.get_name")]
            "Gimp.Widget.get_name" _ _).
  - left. reflexivity.
  - reflexivity.
Defined.

(** [Gimp.Widget.get_name] and [Other.Widget.get_name]. *)
Lemma first_segment_is_not_checked_witness :
  Plugin.resolve (VStr "Gimp.Widget.get_name") (Sample.accepted [])
  = Plugin.resolve (VStr "Other.Widget.get_name") (Sample.accepted [])
  /\ Plugin.resolve (VStr "Gimp") (Sample.accepted [])
     = (Ok Sample.Gimp, Sample.accepted []).
Proof.
  refine (first_segment_is_not_checked (Sample.accepted []) "Gimp" "Other"
            "Widget.get_name" _ _);
    reflexivity.
Defined.


(** The name of the widget is a string. *)
Lemma results_are_text_and_handles_witness :
  exists result,
    Replies.sprocket = VDict [(KStr "status", VStr "success");
                              (KStr "result", result)]
    /\ is_serialized result = true.
Proof.
  refine (proj1 (results_are_text_and_handles (Sample.accepted [])
                   (call_request "Gimp.Widget.get_name" (VList []) (VDict []))
                   Replies.sprocket) _).
  reflexivity.
Defined.

(** Five thousand bytes that are no request. *)
Lemma oversized_request_is_not_answered_witness :
  let data := Replies.long_text in
  let out := Plugin._handle_client (Sample.accepted [Chunk data]) in
  (fst out = Raise UnicodeDecodeError \/ fst out = Raise JSONDecodeError)
  /\ st_log (snd out) = [] ++ [EvRecv 4096]
  /\ st_open (snd out) = true
  /\ st_inbox (snd out)
     = [Chunk (substring 4096 (String.length data - 4096) data)].
Proof.
  intros data.
  refine (oversized_request_is_not_answered (Sample.accepted [Chunk data])
            data [] _ _ _ _).
  - reflexivity.
  - reflexivity.
  - apply Nat.ltb_lt. vm_compute. reflexivity.
  - right. vm_compute. reflexivity.
Defined.

(** A command of type [ping]. *)
Lemma command_type_is_checked_by_one_plugin_only_witness :
  exists shown,
    fst (py_str (VStr "ping") (Sample.accepted [])) = Ok shown
    /\ ServerPlugin.build_response (VDict [(KStr "type", VStr "ping")])
         (Sample.accepted [])
       = (Ok (VDict [(KStr "status", VStr "error");
                     (KStr "message",
                      VStr ("Unknown command: " ++ shown)%string)]),
          Sample.accepted []).
Proof.
  refine (proj1 (command_type_is_checked_by_one_plugin_only
                   (Sample.accepted []) [(KStr "type", VStr "ping")]
                   (VStr "ping")) _ _);
    reflexivity.
Defined.

(** Two requests, each delivered whole. *)
Lemma every_whole_message_is_queued_witness :
  let first := call_request "Gimp.Widget.get_name" (VList []) (VDict []) in
  let second := call_request "Gimp.Image.get_by_id" (VList [VInt 5]) (VDict []) in
  ServerPlugin.handle_client
    (Sample.accepted [Chunk (Sample.render first); Chunk (Sample.render second)])
  = (Ok true,
     mkState tt [] false true
       ([] ++ queued_one_by_one [first; second] ++ [EvRecv 1024; EvClose])).
Proof.
  intros first second.
  refine (every_whole_message_is_queued
            [Sample.render first; Sample.render second] [first; second]
            (Sample.accepted
               [Chunk (Sample.render first); Chunk (Sample.render second)])
            _ _ _).
  - reflexivity.
  - reflexivity.
  - constructor; [| constructor; [| constructor]];
      (split; [intros E; vm_compute in E; discriminate |]);
      (split; [apply Nat.leb_le; vm_compute; reflexivity |]);
      split; vm_compute; reflexivity.
Defined.

(** The reply to the request for the widget's name, cut in two. *)
Lemma reply_chunking_is_irrelevant_witness :
  let reply := Sample.render Replies.sprocket in
  let chunks := [substring 0 10 reply; substring 10 100 reply] in
  let text := Sample.render (Controller.command_of (VStr "call_api") (VDict [])) in
  let out := Controller.send_command (H := Replies.codec)
               (Sample.manager (map Data chunks)) (VStr "call_api") (VDict []) in
  snd out
  = mkConn None []
      ([] ++ [CSocket 1; CConnect 1; CSendall 1 text]
          ++ repeat (CRecv 1) 3 ++ [CShutdown 1; CClose 1])
  /\ fst out = Ok Replies.sprocket.
Proof.
  intros reply chunks text out.
  destruct (reply_chunking_is_irrelevant (H := Replies.codec) 1 [] [] chunks
              (VStr "call_api") (VDict []) text) as (Hs & _ & Hv & _).
  - constructor; [| constructor; [| constructor]];
      intros E; vm_compute in E; discriminate.
  - reflexivity.
  - split; [exact Hs|].
    apply Hv.
    + intros E. vm_compute in E. discriminate.
    + vm_compute. reflexivity.
    + vm_compute. reflexivity.
Defined.

(** A timeout after the first piece of a reply. *)
Lemma partial_reply_is_discarded_witness :
  let text := Sample.render (Controller.command_of (VStr "call_api") (VDict [])) in
  Controller.send_command
    (Sample.manager [Data "ab"; RecvError NetTimeout])
    (VStr "call_api") (VDict [])
  = (Raise (Exception
              "Error communicating with GIMP: Timeout receiving data from GIMP."),
     mkConn None []
       ([] ++ [CSocket 1; CConnect 1; CSendall 1 text]
           ++ repeat (CRecv 1) 2 ++ [CShutdown 1; CClose 1])).
Proof.
  intros text.
  refine (partial_reply_is_discarded 1 [] [] ["ab"] [] NetTimeout
            (VStr "call_api") (VDict []) text _ _).
  - repeat constructor; discriminate.
  - reflexivity.
Defined.

(** A peer that closes without a reply. *)
Lemma send_command_raises_two_kinds_witness :
  let c := Sample.manager [] in
  let e := Exception
             "Error communicating with GIMP: No response data from GIMP (connection closed)." in
  (exists msg,
     e = ConnectionError msg
     /\ sock c = None
     /\ calls (snd (Controller.send_command c (VStr "call_api") (VDict [])))
        = calls c ++ [CSocket (sk_id (fst (next_socket c)));
                      CConnect (sk_id (fst (next_socket c)));
                      CShutdown (sk_id (fst (next_socket c)));
                      CClose (sk_id (fst (next_socket c)))])
  \/ (exists msg,
        e = Exception ("Error communicating with GIMP: " ++ msg)%string)
  \/ (exists msg,
        e = Exception ("Socket error communicating with GIMP: " ++ msg)%string).
Proof.
  intros c e.
  refine (send_command_raises_two_kinds c (VStr "call_api") (VDict []) e _).
  reflexivity.
Defined.

(** The response to the request for the widget's name. *)
Lemma plugin_responses_are_understood_witness :
  let response := Replies.sprocket in
  (exists result,
     response = Plugin.success_response result
     /\ is_serialized result = true
     /\ Tools.report response
        = match json_dumps result with
          | Some text => Ok text
          | None => Raise (TypeError "Object is not JSON serializable")
          end)
  \/ (exists e text,
        response = Plugin.error_response e
        /\ json_dumps (VStr (exn_str e)) = Some text
        /\ Tools.report response = Ok ("Error: " ++ text)%string).
Proof.
  intros response.
  refine (plugin_responses_are_understood
            (call_request "Gimp.Widget.get_name" (VList []) (VDict []))
            (Sample.accepted []) response _).
  reflexivity.
Defined.

(** The request for the widget's name, answered in two pieces. *)
Lemma call_api_meets_the_handler_witness :
  let request := call_request "Gimp.Widget.get_name" (VList []) (VDict []) in
  let text := Sample.render request in
  let reply := Sample.render Replies.sprocket in
  let chunks := [substring 0 10 reply; substring 10 100 reply] in
  Tools.call_api (H := Replies.codec)
    (mkProcess false (Sample.manager (map Data chunks)))
    "Gimp.Widget.get_name" (VList []) (VDict [])
  = (Sample.render (VStr "Sprocket"),
     mkProcess true
       (mkConn None []
          ([] ++ [CSocket 1; CConnect 1; CSendall 1 text]
              ++ repeat (CRecv 1) 3 ++ [CShutdown 1; CClose 1]))).
Proof.
  intros request text reply chunks.
  refine (proj2 (call_api_meets_the_handler (H := Sample.host)
                   (H0 := Replies.codec) tt "Gimp.Widget.get_name" (VList [])
                   (VDict []) text Replies.sprocket reply 1 [] [] chunks false
                   _ _ _ _ _ _ _ _ _ _ _)).
  - reflexivity.
  - apply Nat.leb_le. vm_compute. reflexivity.
  - reflexivity.
  - vm_compute. reflexivity.
  - reflexivity.
  - reflexivity.
  - intros E. vm_compute in E. discriminate.
  - reflexivity.
  - vm_compute. reflexivity.
  - constructor; [| constructor; [| constructor]];
      intros E; vm_compute in E; discriminate.
  - vm_compute. reflexivity.
Defined.

(** Two clients, then a failing [accept]. *)
Lemma every_accepted_client_gets_a_thread_witness :
  let self := mkPlugin "localhost" 9877 false false [] in
  let env := mkListening None None None
               [Accepted 1; Accepted 2; AcceptFails (OSError "Bad file descriptor");
                Accepted 3] in
  threads (done (snd (PluginServer.run self env))) = [] ++ [1; 2]
  /\ threads (snd (ServerPluginServer.start_server env)) = [1; 2]
  /\ fst (PluginServer.run self env) = Returns
  /\ fst (ServerPluginServer.start_server env) = Returns
  /\ List.length (filter is_close_listener
                    (snd (ServerPluginServer.start_server env))) = 1
  /\ List.length (filter is_close_listener
                    (done (snd (PluginServer.run self env)))) = 1.
Proof.
  intros self env.
  refine (every_accepted_client_gets_a_thread self env _ _ _ _);
    reflexivity.
Defined.

(** The port is taken. *)
Lemma startup_failures_witness :
  let self := mkPlugin "localhost" 9877 false false [] in
  let env := mkListening None (Some (OSError "Address already in use")) None [] in
  let out := PluginServer.run self env in
  let out' := ServerPluginServer.start_server env in
  (fst out = Returns
   /\ running (snd out) = false
   /\ listener (snd out) = false
   /\ threads (done (snd out)) = threads (done self)
   /\ exists e before after,
        done (snd out)
        = done self ++ before
            ++ [LMessage ("Error starting server: " ++ exn_str e)] ++ after
        /\ after = (if (match on_socket env with
                        | None => true
                        | Some _ => false
                        end) || listener self
                    then [LCloseListener] else []))
  /\ (exists e, fst out' = Escapes e)
  /\ threads (snd out') = []
  /\ filter is_close_listener (snd out') = [].
Proof.
  intros self env.
  refine (startup_failures self env _ _).
  - reflexivity.
  - right. left. discriminate.
Defined.

(** A command without a type on a connection that is open. *)
Lemma server_callback_answers_every_object_witness :
  exists response,
    fst (ServerPlugin.build_response (VDict []) (Sample.accepted []))
    = Ok (VDict response)
    /\ (dict_get (KStr "status") response = Some (VStr "success")
        \/ dict_get (KStr "status") response = Some (VStr "error"))
    /\ forall text,
         json_dumps (VDict response) = Some text ->
         let out := ServerPlugin.execute_command (VDict []) (Sample.accepted []) in
         fst out = Ok tt
         /\ st_open (snd out) = true
         /\ exists host_events,
              st_log (snd out) = [] ++ host_events ++ [EvSend text]
              /\ forallb is_host_event host_events = true.
Proof.
  refine (server_callback_answers_every_object [] (Sample.accepted []) _ _);
    reflexivity.
Defined.


(** A first reply that is a bare string: [get_image_info] raises after its
    first call. *)
Lemma tools_leave_no_socket_witness :
  let reply := Sample.render Replies.sprocket in
  let p := mkProcess false (Sample.manager [Data reply]) in
  after_calls p
    (snd (Tools.get_image_info (H := Replies.codec) p (VInt 5))) 1.
Proof.
  intros reply p.
  refine (proj2 (proj2 (proj2 (tools_leave_no_socket (H := Replies.codec) p
                                 (VInt 5) (VFloat Sample.float_3_14))))
            JSONDecodeError _).
  vm_compute. reflexivity.
Defined.

(** A pointer to an image is no primitive. *)
Lemma const_is_ignored_witness :
  Scraper.glib_to_openapi "GimpImage*" = "GimpImage*"%string.
Proof.
  refine (proj2 (const_is_ignored "GimpImage*") _ _); reflexivity.
Defined.
